(** * for-the-tower: analysis pipeline, hybrid search and sort policy

    A shallow embedding of the parts of the application that decide how
    clips are produced, ranked and ordered:

    - [src/types.ts]                    the data model;
    - [src/services/geminiService.ts]   [analyzeVideoFrames],
      [generateTranscript], [generateEmbedding];
    - [services/videoProcessor]         [extractFramesFromVideo];
    - [src/App.tsx]                     [sortClips], [handleFileSelect],
      [handleSearch].

    Conventions of the embedding.

    - A JavaScript [number] is a rational ([Q]): arithmetic is exact, and
      NaN, infinities and rounding are outside the model.  Equality of
      numbers is [Qeq] ([==]).
    - A JavaScript string is a [string], a sequence of code units.
      [String.prototype.trim] and [String.prototype.toLowerCase] follow the
      engine's Unicode tables: the search takes them as parameters and the
      properties of the search hold for every such pair of functions.
      [Str.trim] and [Str.toLowerCase] are their ASCII tables; they serve
      the examples, whose strings are ASCII, the name of a downloaded file
      (only ASCII letters are left to fold there) and the comments box.
    - An [async] function that may throw returns an [outcome]; [try]/[catch]
      is [try_catch].
    - The generative backend is opaque: each call site receives the outcome
      of its call as an argument.
    - React state is a record threaded through the handlers.
    - Clips are values in the handlers; [Store] runs the search once more
      over objects and arrays with references, to account for what the
      handlers write. *)

From Stdlib Require Import QArith Qround Lqa List String Ascii Bool Arith Lia DecimalNat
  Permutation Sorted DecimalString Decimal.
From stdpp Require Import base option list gmap.
Import ListNotations.

Local Open Scope string_scope.
Local Open Scope list_scope.

(* ================================================================== *)
(** ** Numbers *)

Module Num.
Local Open Scope Q_scope.

(** [Math.max] and [Math.min] on two arguments. *)
Definition Math_max (a b : Q) : Q := if Qle_bool a b then b else a.
Definition Math_min (a b : Q) : Q := if Qle_bool a b then a else b.

(** The comparison operators, as booleans. *)
Definition ltb (a b : Q) : bool := negb (Qle_bool b a).
Definition leb (a b : Q) : bool := Qle_bool a b.
Definition gtb (a b : Q) : bool := ltb b a.
Definition geb (a b : Q) : bool := leb b a.
End Num.
Import Num.

(* ================================================================== *)
(** ** Strings *)

Module Str.

Definition lower_char (c : ascii) : ascii :=
  let n := nat_of_ascii c in
  if (65 <=? n)%nat && (n <=? 90)%nat then ascii_of_nat (n + 32) else c.

(** [s.toLowerCase()] for a string of ASCII characters. *)
Fixpoint toLowerCase (s : string) : string :=
  match s with
  | EmptyString => EmptyString
  | String c r => String (lower_char c) (toLowerCase r)
  end.

(** [s.includes(sub)]: [sub] occurs in [s] at some position. *)
Fixpoint includes (s sub : string) : bool :=
  String.prefix sub s ||
  match s with
  | EmptyString => false
  | String _ r => includes r sub
  end.

(** The white space and line terminators of the ASCII range. *)
Definition is_space (c : ascii) : bool :=
  let n := nat_of_ascii c in
  ((9 <=? n)%nat && (n <=? 13)%nat) || (n =? 32)%nat.

Fixpoint trimStart (s : string) : string :=
  match s with
  | EmptyString => EmptyString
  | String c r => if is_space c then trimStart r else s
  end.

(** Drops the trailing white space: a character is kept when it is not a
    space or when something is kept after it. *)
Fixpoint trimEnd (s : string) : string :=
  match s with
  | EmptyString => EmptyString
  | String c r =>
      match trimEnd r with
      | EmptyString => if is_space c then EmptyString else String c EmptyString
      | r' => String c r'
      end
  end.

(** [s.trim()] for a string of ASCII characters. *)
Definition trim (s : string) : string := trimEnd (trimStart s).

(** [!s]: a string is falsy exactly when it is empty. *)
Definition falsy (s : string) : bool :=
  match s with EmptyString => true | _ => false end.

(** [xs.join(sep)] *)
Fixpoint join (sep : string) (xs : list string) : string :=
  match xs with
  | [] => ""
  | [x] => x
  | x :: r => x ++ sep ++ join sep r
  end.

(** Decimal rendering of a natural number, as in a template literal. *)
Definition of_nat (n : nat) : string := NilEmpty.string_of_uint (Nat.to_uint n).

End Str.

(* ================================================================== *)
(** ** Control: exceptions *)

Inductive outcome (A : Type) : Type :=
| Ok (a : A)
| Throw (e : string).
Arguments Ok {A} a.
Arguments Throw {A} e.

Definition obind {A B} (m : outcome A) (k : A -> outcome B) : outcome B :=
  match m with
  | Ok a => k a
  | Throw e => Throw e
  end.

(** [try { body } catch (e) { handler }] *)
Definition try_catch {A} (body : outcome A) (handler : string -> outcome A) : outcome A :=
  match body with
  | Ok a => Ok a
  | Throw e => handler e
  end.

#[export] Instance outcome_ret : MRet outcome := fun A a => Ok a.
#[export] Instance outcome_bind : MBind outcome := fun A B k m => obind m k.

(** [await Promise.all(promises)]: the first rejection rejects the whole. *)
Fixpoint Promise_all {A} (promises : list (outcome A)) : outcome (list A) :=
  match promises with
  | [] => Ok []
  | p :: rest =>
      match p with
      | Throw e => Throw e
      | Ok a =>
          match Promise_all rest with
          | Throw e => Throw e
          | Ok r => Ok (a :: r)
          end
      end
  end.

(** [xs.map((x, index) => f(index, x))], counting from [index]. *)
Fixpoint map_indexed {A B} (f : nat -> A -> B) (index : nat) (l : list A) : list B :=
  match l with
  | [] => []
  | x :: r => f index x :: map_indexed f (S index) r
  end.

(* ================================================================== *)
(** ** Data model ([src/types.ts]) *)

(** [VideoClip].  JavaScript objects are open: [handleSearch] attaches a
    [score] property to the copies it ranks, so the record carries an
    optional [score] that is [None] on every clip the pipeline creates. *)
Record VideoClip : Type := mkClip {
  id : string;
  startTime : Q;
  endTime : Q;
  title : string;
  summary : string;
  viralityScore : Q;
  reasoning : string;
  tags : list string;
  transcriptStub : string;
  embedding : option (list Q);
  score : option Q
}.

(** [Omit<VideoClip, 'id' | 'embedding'>], the shape of a parsed candidate. *)
Record RawClip : Type := mkRaw {
  raw_startTime : Q;
  raw_endTime : Q;
  raw_title : string;
  raw_summary : string;
  raw_viralityScore : Q;
  raw_reasoning : string;
  raw_tags : list string;
  raw_transcriptStub : string
}.

Inductive AppState : Type := IDLE | PROCESSING | ANALYZING | READY | ERROR.

Record VideoFrame : Type := mkFrame {
  timestamp : Q;
  data : string
}.

Record CommentAnalysis : Type := mkAnalysis {
  sentiment : string;
  analysis_summary : string;
  keyTopics : list string;
  viewerRequests : list string;
  contentSuggestions : list string
}.

Record ProcessingProgress : Type := mkProgress {
  stage : string;
  progress : Q
}.

Record TranscriptSegment : Type := mkSeg {
  seg_startTime : Q;
  seg_endTime : Q;
  seg_text : string
}.

Inductive SortOrder : Type := time | viral.

(* ================================================================== *)
(** ** The backend, seen from its call sites *)

(** Outcome of [ai.models.generateContent] followed by [JSON.parse]. *)
Inductive generated (A : Type) : Type :=
| Rejected              (* the call throws *)
| NoText                (* [result.text] is empty or missing *)
| Malformed             (* [JSON.parse] throws *)
| Parsed (a : A).       (* [JSON.parse(text)] *)
Arguments Rejected {A}.
Arguments NoText {A}.
Arguments Malformed {A}.
Arguments Parsed {A} a.

(** Outcome of [ai.models.embedContent]: it throws, or answers with an
    object whose [embedding] and [embedding.values] may be missing. *)
Inductive embedded : Type :=
| EmbedRejected
| EmbedResponse (embedding : option (option (list Q))).

(* ================================================================== *)
(** ** [src/services/geminiService.ts] *)

Module geminiService.

(** The object built for one candidate: the candidate's own properties,
    then [id], [startTime] and [endTime] overwritten. *)
Definition stamp (videoDuration : Q) (now : nat) (index : nat) (clip : RawClip)
  : VideoClip :=
  {| id := "clip-" ++ Str.of_nat now ++ "-" ++ Str.of_nat index;
     startTime := Math_max 0 (raw_startTime clip);
     endTime := Math_min videoDuration (raw_endTime clip);
     title := raw_title clip;
     summary := raw_summary clip;
     viralityScore := raw_viralityScore clip;
     reasoning := raw_reasoning clip;
     tags := raw_tags clip;
     transcriptStub := raw_transcriptStub clip;
     embedding := None;
     score := None |}.

(** [analyzeVideoFrames(frames, videoDuration)].  [now] is the value of
    [Date.now()]; the frames only enter the request. *)
Definition analyzeVideoFrames (backend : generated (list RawClip))
    (videoDuration : Q) (now : nat) : outcome (list VideoClip) :=
  try_catch
    (match backend with
     | Rejected => Throw "generateContent"
     | NoText => Throw "No response from Gemini"
     | Malformed => Throw "SyntaxError"
     | Parsed rawClips => Ok (map_indexed (stamp videoDuration now) 0 rawClips)
     end)
    (fun error => Throw error).

(** [generateTranscript(audioBase64)] *)
Definition generateTranscript (backend : generated (list TranscriptSegment))
  : outcome (list TranscriptSegment) :=
  try_catch
    (match backend with
     | Rejected => Throw "generateContent"
     | NoText => Ok []
     | Malformed => Throw "SyntaxError"
     | Parsed segments => Ok segments
     end)
    (fun _ => Ok []).

(** [generateEmbedding(text)] *)
Definition generateEmbedding (backend : embedded) : outcome (list Q) :=
  try_catch
    (match backend with
     | EmbedRejected => Throw "embedContent"
     | EmbedResponse (Some (Some values)) => Ok values
     | EmbedResponse _ => Ok []
     end)
    (fun _ => Ok []).

End geminiService.

(* ================================================================== *)
(** ** [services/videoProcessor]: the frame-sampling schedule *)

Module videoProcessor.
Section extractFramesFromVideo.
Local Open Scope Q_scope.

(** What the canvas holds once the video has seeked to a time: the base64
    payload of [canvas.toDataURL]. *)
Variable snapshot : Q -> string.

(** [video.duration], and the arguments [intervalSeconds] and [maxFrames]
    (a number of frames). *)
Variables (duration intervalSeconds : Q) (maxFrames : nat).

Definition neededInterval : Q := duration / inject_Z (Z.of_nat maxFrames).
Definition finalInterval : Q := Math_max intervalSeconds neededInterval.

(** [captureFrame] and the [onseeked] handler it triggers.  Each unit of
    fuel is one call of [captureFrame]: it either resolves the promise with
    the frames collected so far, or seeks; the [seeked] event then pushes a
    frame, advances [currentTime] and calls [captureFrame] again.  [None]
    means that the fuel ran out before the promise was resolved.  (A decoder
    error rejects the promise instead; [handleFileSelect] receives that
    outcome directly. The [onProgress] reports do not enter the schedule.) *)
Fixpoint captureFrame (fuel : nat) (currentTime : Q) (frames : list VideoFrame)
  : option (list VideoFrame) :=
  match fuel with
  | O => None
  | S fuel' =>
      if geb currentTime duration || (maxFrames <=? length frames)%nat
      then Some frames
      else
        captureFrame fuel' (currentTime + finalInterval)
          (frames ++ [ {| timestamp := currentTime; data := snapshot currentTime |} ])
  end.

(** [extractFramesFromVideo(file, intervalSeconds, maxFrames, onProgress)]:
    [currentTime = 0], no frame yet. *)
Definition extractFramesFromVideo (fuel : nat) : option (list VideoFrame) :=
  captureFrame fuel 0 [].

End extractFramesFromVideo.
End videoProcessor.

(* ================================================================== *)
(** ** [utils/vectorUtils] *)

Module vectorUtils.
Local Open Scope Q_scope.

(** Modelled from the spec: the dot product [dot(a,b)] of the spec's
    formula for [cosineSimilarity]. *)
Fixpoint dot (a b : list Q) : Q :=
  match a, b with
  | x :: a', y :: b' => x * y + dot a' b'
  | _, _ => 0
  end.

(** Modelled from the spec: the norm's square root.  It leaves [Q], so it
    is rounded down here (exact on squares of rationals). *)
Definition root (q : Q) : Q :=
  let s := 1000000%Z in
  inject_Z (Z.sqrt (Qnum q * Zpos (Qden q) * s * s)) / inject_Z (Zpos (Qden q) * s).

(** Modelled from the spec: [cosineSimilarity] of [utils/vectorUtils], a
    file that is not among the sources.  The spec gives
    [dot(a,b) / (|a|*|b|)], and 0 when either vector is empty or either norm
    is zero.  [handleSearch] below takes the function as a parameter; this
    rational instance (the root is rounded) serves the examples. *)
Definition cosineSimilarity (a b : list Q) : Q :=
  match a, b with
  | [], _ | _, [] => 0
  | _, _ =>
      let na := root (dot a a) in
      let nb := root (dot b b) in
      if Qeq_bool na 0 || Qeq_bool nb 0 then 0 else dot a b / (na * nb)
  end.

End vectorUtils.

(* ================================================================== *)
(** ** [src/App.tsx] *)

Module App.
Local Open Scope Q_scope.

Inductive SidebarTab : Type := tab_clips | tab_transcript | tab_comments.
Inductive Source : Type := upload | youtube.

Definition MOCK_COMMENTS : list string :=
  [ "This is exactly what I was looking for! simple and clean.";
    "The editing at 0:15 is insane, how did you do that?";
    "Can you make a version of this for mobile aspect ratio?";
    "I disagree with the point about timing, but great video overall.";
    "Subscribed! eager to see more.";
    "What camera was this shot on?";
    "The audio levels are a bit low in the middle section.";
    "Make part 2 please!";
    "Viral material right here.";
    "Algorithm brought me here and I'm not disappointed." ].

(** The component's state ([useState]).  [file], [currentTime],
    [isDownloading] and [isAnalyzingComments] play no part in the pipeline
    or in search and are left out. *)
Record State : Type := mkState {
  appState : AppState;
  clips : list VideoClip;
  activeClip : option VideoClip;
  progressState : ProcessingProgress;
  transcript : list TranscriptSegment;
  searchQuery : string;
  isSearching : bool;
  filteredClips : list VideoClip;
  sortOrder : SortOrder;
  activeSidebarTab : SidebarTab;
  comments : list string;
  commentAnalysis : option CommentAnalysis
}.

Definition initialState : State :=
  {| appState := IDLE; clips := []; activeClip := None;
     progressState := {| stage := ""; progress := 0 |};
     transcript := []; searchQuery := ""; isSearching := false;
     filteredClips := []; sortOrder := time; activeSidebarTab := tab_clips;
     comments := []; commentAnalysis := None |}.

Definition setAppState (v : AppState) (st : State) : State :=
  {| appState := v;
     clips := clips st;
     activeClip := activeClip st;
     progressState := progressState st;
     transcript := transcript st;
     searchQuery := searchQuery st;
     isSearching := isSearching st;
     filteredClips := filteredClips st;
     sortOrder := sortOrder st;
     activeSidebarTab := activeSidebarTab st;
     comments := comments st;
     commentAnalysis := commentAnalysis st |}.

Definition setClips (v : list VideoClip) (st : State) : State :=
  {| appState := appState st;
     clips := v;
     activeClip := activeClip st;
     progressState := progressState st;
     transcript := transcript st;
     searchQuery := searchQuery st;
     isSearching := isSearching st;
     filteredClips := filteredClips st;
     sortOrder := sortOrder st;
     activeSidebarTab := activeSidebarTab st;
     comments := comments st;
     commentAnalysis := commentAnalysis st |}.

Definition setActiveClip (v : option VideoClip) (st : State) : State :=
  {| appState := appState st;
     clips := clips st;
     activeClip := v;
     progressState := progressState st;
     transcript := transcript st;
     searchQuery := searchQuery st;
     isSearching := isSearching st;
     filteredClips := filteredClips st;
     sortOrder := sortOrder st;
     activeSidebarTab := activeSidebarTab st;
     comments := comments st;
     commentAnalysis := commentAnalysis st |}.

Definition setProgress (v : ProcessingProgress) (st : State) : State :=
  {| appState := appState st;
     clips := clips st;
     activeClip := activeClip st;
     progressState := v;
     transcript := transcript st;
     searchQuery := searchQuery st;
     isSearching := isSearching st;
     filteredClips := filteredClips st;
     sortOrder := sortOrder st;
     activeSidebarTab := activeSidebarTab st;
     comments := comments st;
     commentAnalysis := commentAnalysis st |}.

Definition setTranscript (v : list TranscriptSegment) (st : State) : State :=
  {| appState := appState st;
     clips := clips st;
     activeClip := activeClip st;
     progressState := progressState st;
     transcript := v;
     searchQuery := searchQuery st;
     isSearching := isSearching st;
     filteredClips := filteredClips st;
     sortOrder := sortOrder st;
     activeSidebarTab := activeSidebarTab st;
     comments := comments st;
     commentAnalysis := commentAnalysis st |}.

Definition setSearchQuery (v : string) (st : State) : State :=
  {| appState := appState st;
     clips := clips st;
     activeClip := activeClip st;
     progressState := progressState st;
     transcript := transcript st;
     searchQuery := v;
     isSearching := isSearching st;
     filteredClips := filteredClips st;
     sortOrder := sortOrder st;
     activeSidebarTab := activeSidebarTab st;
     comments := comments st;
     commentAnalysis := commentAnalysis st |}.

Definition setIsSearching (v : bool) (st : State) : State :=
  {| appState := appState st;
     clips := clips st;
     activeClip := activeClip st;
     progressState := progressState st;
     transcript := transcript st;
     searchQuery := searchQuery st;
     isSearching := v;
     filteredClips := filteredClips st;
     sortOrder := sortOrder st;
     activeSidebarTab := activeSidebarTab st;
     comments := comments st;
     commentAnalysis := commentAnalysis st |}.

Definition setFilteredClips (v : list VideoClip) (st : State) : State :=
  {| appState := appState st;
     clips := clips st;
     activeClip := activeClip st;
     progressState := progressState st;
     transcript := transcript st;
     searchQuery := searchQuery st;
     isSearching := isSearching st;
     filteredClips := v;
     sortOrder := sortOrder st;
     activeSidebarTab := activeSidebarTab st;
     comments := comments st;
     commentAnalysis := commentAnalysis st |}.

Definition setSortOrder (v : SortOrder) (st : State) : State :=
  {| appState := appState st;
     clips := clips st;
     activeClip := activeClip st;
     progressState := progressState st;
     transcript := transcript st;
     searchQuery := searchQuery st;
     isSearching := isSearching st;
     filteredClips := filteredClips st;
     sortOrder := v;
     activeSidebarTab := activeSidebarTab st;
     comments := comments st;
     commentAnalysis := commentAnalysis st |}.

Definition setActiveSidebarTab (v : SidebarTab) (st : State) : State :=
  {| appState := appState st;
     clips := clips st;
     activeClip := activeClip st;
     progressState := progressState st;
     transcript := transcript st;
     searchQuery := searchQuery st;
     isSearching := isSearching st;
     filteredClips := filteredClips st;
     sortOrder := sortOrder st;
     activeSidebarTab := v;
     comments := comments st;
     commentAnalysis := commentAnalysis st |}.

Definition setComments (v : list string) (st : State) : State :=
  {| appState := appState st;
     clips := clips st;
     activeClip := activeClip st;
     progressState := progressState st;
     transcript := transcript st;
     searchQuery := searchQuery st;
     isSearching := isSearching st;
     filteredClips := filteredClips st;
     sortOrder := sortOrder st;
     activeSidebarTab := activeSidebarTab st;
     comments := v;
     commentAnalysis := commentAnalysis st |}.

Definition setCommentAnalysis (v : option CommentAnalysis) (st : State) : State :=
  {| appState := appState st;
     clips := clips st;
     activeClip := activeClip st;
     progressState := progressState st;
     transcript := transcript st;
     searchQuery := searchQuery st;
     isSearching := isSearching st;
     filteredClips := filteredClips st;
     sortOrder := sortOrder st;
     activeSidebarTab := activeSidebarTab st;
     comments := comments st;
     commentAnalysis := v |}.


(** *** Handlers: state and exceptions

    A handler closes over the state of the render that created it ([st0]
    below): what it reads is that snapshot, what it sets is threaded. *)
Definition M (A : Type) : Type := State -> outcome A * State.

#[export] Instance M_ret : MRet M := fun A a st => (Ok a, st).
#[export] Instance M_bind : MBind M := fun A B k m st =>
  match m st with
  | (Ok a, st') => k a st'
  | (Throw e, st') => (Throw e, st')
  end.

(** A state setter. *)
Definition set (f : State -> State) : M unit := fun st => (Ok tt, f st).

(** [await] of a call whose outcome is known. *)
Definition await {A} (o : outcome A) : M A := fun st => (o, st).

(** [try { body } catch (e) { handler(e) }] *)
Definition try_ {A} (body : M A) (handler : string -> M A) : M A := fun st =>
  match body st with
  | (Ok a, st') => (Ok a, st')
  | (Throw e, st') => handler e st'
  end.

(** [try { body } finally { cleanup }] *)
Definition finally_ {A} (body : M A) (cleanup : M unit) : M A := fun st =>
  match body st with
  | (r, st') =>
      match cleanup st' with
      | (Ok _, st'') => (r, st'')
      | (Throw e, st'') => (Throw e, st'')
      end
  end.

(** The state a handler leaves behind when run from [st]. *)
Definition run (handler : State -> M unit) (st : State) : State :=
  snd (handler st st).

(** Whether the handler's promise is rejected. *)
Definition rejects (handler : State -> M unit) (st : State) : bool :=
  match fst (handler st st) with Ok _ => false | Throw _ => true end.

(** *** [sortClips] *)

(** [Array.prototype.sort(compareFn)].  The language fixes the result for a
    consistent comparator: the sort is stable.  It is modelled by the
    insertion sort that puts each element, taken from the right, before the
    first element it does not follow. *)
Fixpoint sort_insert {A} (compareFn : A -> A -> Q) (x : A) (l : list A) : list A :=
  match l with
  | [] => [x]
  | y :: r =>
      if leb (compareFn x y) 0 then x :: y :: r
      else y :: sort_insert compareFn x r
  end.

Definition Array_sort {A} (compareFn : A -> A -> Q) (l : list A) : list A :=
  fold_right (sort_insert compareFn) [] l.

Definition sortClips (list : Datatypes.list VideoClip) (order : SortOrder)
  : Datatypes.list VideoClip :=
  let sorted := list in                        (* [[...list]], a copy *)
  match order with
  | viral => Array_sort (fun a b => viralityScore b - viralityScore a) sorted
  | time => Array_sort (fun a b => startTime a - startTime b) sorted
  end.

(** *** [handleFileSelect] *)

(** What the collaborators of one run answer. *)
Record Run : Type := mkRun {
  run_progress : list Q;                       (* the [onProgress] reports *)
  run_frames : outcome (list VideoFrame);      (* [extractFramesFromVideo] *)
  run_duration : Q;                            (* [videoElement.duration] *)
  run_visual : generated (list RawClip);       (* visual analysis *)
  run_now : nat;                               (* [Date.now()] *)
  run_audio : outcome string;                  (* [extractAudio] *)
  run_transcription : generated (list TranscriptSegment);
  run_embedding : nat -> string -> embedded    (* per clip index and text *)
}.

Definition textToEmbed (clip : VideoClip) : string :=
  title clip ++ " " ++ summary clip ++ " " ++ Str.join " " (tags clip) ++ " "
  ++ reasoning clip.

(** [{ ...clip, embedding }] *)
Definition with_embedding (clip : VideoClip) (e : list Q) : VideoClip :=
  {| id := id clip; startTime := startTime clip; endTime := endTime clip;
     title := title clip; summary := summary clip;
     viralityScore := viralityScore clip; reasoning := reasoning clip;
     tags := tags clip; transcriptStub := transcriptStub clip;
     embedding := Some e; score := score clip |}.

Definition embedClip (w : Run) (index : nat) (clip : VideoClip) : outcome VideoClip :=
  e ← geminiService.generateEmbedding (run_embedding w index (textToEmbed clip));
  Ok (with_embedding clip e).

Definition handleFileSelect (source : Source) (w : Run) (st0 : State) : M unit :=
  set (setAppState PROCESSING);;
  set (setClips []);;
  set (setActiveClip None);;
  set (setTranscript []);;
  set (setCommentAnalysis None);;
  set (setComments (match source with youtube => MOCK_COMMENTS | upload => [] end));;
  try_
    (set (setProgress {| stage := "Extracting frames..."; progress := 0 |});;
     set (fun st => fold_left (fun st p =>
            setProgress {| stage := "Extracting frames..."; progress := p |} st)
            (run_progress w) st);;
     frames ← await (run_frames w);
     set (setAppState ANALYZING);;
     set (setProgress {| stage := "Gemini is analyzing video content...";
                         progress := 0 |});;
     let duration := run_duration w in
     generatedClips ← await (geminiService.analyzeVideoFrames
                               (run_visual w) duration (run_now w));
     set (setProgress {| stage := "Transcribing audio..."; progress := 50 |});;
     try_
       (audioBase64 ← await (run_audio w);
        generatedTranscript ← await (geminiService.generateTranscript
                                       (run_transcription w));
        set (setTranscript generatedTranscript))
       (fun e => mret tt);;
     set (setProgress {| stage := "Indexing into vector database...";
                         progress := 90 |});;
     clipsWithEmbeddings ← await (Promise_all
                                    (map_indexed (embedClip w) 0 generatedClips));
     let sortedClips := sortClips clipsWithEmbeddings (sortOrder st0) in
     set (setClips sortedClips);;
     set (setFilteredClips sortedClips);;
     match sortedClips with
     | first :: _ => set (setActiveClip (Some first))
     | [] => mret tt
     end;;
     set (setAppState READY))
    (fun error => set (setAppState ERROR)).

(** *** [handleSearch] *)

(** [{ ...clip, score }] *)
Definition with_score (clip : VideoClip) (s : Q) : VideoClip :=
  {| id := id clip; startTime := startTime clip; endTime := endTime clip;
     title := title clip; summary := summary clip;
     viralityScore := viralityScore clip; reasoning := reasoning clip;
     tags := tags clip; transcriptStub := transcriptStub clip;
     embedding := embedding clip; score := Some s |}.

(** [clip.score] on an element of [matchedClips]; the first [map] has set
    the property on every one of them. *)
Definition get_score (clip : VideoClip) : Q :=
  match score clip with Some s => s | None => 0 end.

Definition threshold : Q := 0.3.

Section Search.

(** [String.prototype.trim] and [String.prototype.toLowerCase], as the
    engine provides them. *)
Variables (trim toLowerCase : string -> string).

(** [cosineSimilarity], imported from [utils/vectorUtils]. *)
Variable cosineSimilarity : list Q -> list Q -> Q.

(** The callback of the first [clips.map]. *)
Definition scoreClip (queryEmbedding : list Q) (clip : VideoClip) : VideoClip :=
  let score :=
    match embedding clip with
    | Some e => cosineSimilarity queryEmbedding e
    | None => 0
    end in
  with_score clip score.

(** The predicate of [matchingTranscriptSegments.some]. *)
Definition overlaps (clip : VideoClip) (seg : TranscriptSegment) : bool :=
  (geb (seg_startTime seg) (startTime clip) && ltb (seg_startTime seg) (endTime clip))
  || (gtb (seg_endTime seg) (startTime clip) && leb (seg_endTime seg) (endTime clip))
  || (geb (startTime clip) (seg_startTime seg) && leb (endTime clip) (seg_endTime seg)).

Definition matchingTranscriptSegments (queryLower : string)
    (transcript : list TranscriptSegment) : list TranscriptSegment :=
  List.filter (fun seg => Str.includes (toLowerCase (seg_text seg)) queryLower)
    transcript.

Definition hasTranscriptMatch (matching : list TranscriptSegment) (clip : VideoClip)
  : bool :=
  existsb (overlaps clip) matching.

Definition hasStubMatch (queryLower : string) (clip : VideoClip) : bool :=
  Str.includes (toLowerCase (transcriptStub clip)) queryLower.

(** The callback of the second [map]. *)
Definition boostClip (queryLower : string) (matching : list TranscriptSegment)
    (clip : VideoClip) : VideoClip :=
  if hasTranscriptMatch matching clip || hasStubMatch queryLower clip
  then with_score clip (get_score clip + 0.5)
  else clip.

(** The predicate of the final [filter]. *)
Definition relevant (queryLower : string) (c : VideoClip) : bool :=
  gtb (get_score c) threshold
  || Str.includes (toLowerCase (transcriptStub c)) queryLower.

(** The body of the [try] block, up to [finalClips]. *)
Definition rankClips (queryEmbedding : list Q) (st0 : State) : list VideoClip :=
  let matchedClips := List.map (scoreClip queryEmbedding) (clips st0) in
  let queryLower := toLowerCase (searchQuery st0) in
  let matching := matchingTranscriptSegments queryLower (transcript st0) in
  let matchedClips := List.map (boostClip queryLower matching) matchedClips in
  let finalFiltered := List.filter (relevant queryLower) matchedClips in
  sortClips finalFiltered (sortOrder st0).

(** The [catch] block. *)
Definition searchFallback (st0 : State) : list VideoClip :=
  let queryLower := toLowerCase (searchQuery st0) in
  let matchedClips := List.filter (hasStubMatch queryLower) (clips st0) in
  sortClips matchedClips (sortOrder st0).

(** [backend] is the answer to the [embedContent] call for the query. *)
Definition handleSearch (backend : embedded) (st0 : State) : M unit :=
  if Str.falsy (trim (searchQuery st0)) then
    set (setFilteredClips (sortClips (clips st0) (sortOrder st0)))
  else
    set (setIsSearching true);;
    finally_
      (try_
         (queryEmbedding ← await (geminiService.generateEmbedding backend);
          let finalClips := rankClips queryEmbedding st0 in
          set (setFilteredClips finalClips);;
          match activeSidebarTab st0 with
          | tab_clips => mret tt
          | _ => set (setActiveSidebarTab tab_clips)
          end)
         (fun e => set (setFilteredClips (searchFallback st0))))
      (set (setIsSearching false)).

End Search.

(** *** Effects *)

(** [useEffect(..., [filteredClips, appState])]: the first displayed clip
    becomes the active one. *)
Definition autoSelect (st : State) : State :=
  match appState st, filteredClips st with
  | READY, first :: _ => setActiveClip (Some first) st
  | _, _ => st
  end.

(** [useEffect(..., [sortOrder])] after [setSortOrder(order)]. *)
Definition changeSortOrder (order : SortOrder) (st : State) : State :=
  let st := setSortOrder order st in
  setFilteredClips (sortClips (filteredClips st) (sortOrder st)) st.

(** [handleTranscriptSegmentClick(time)] *)
Definition handleTranscriptSegmentClick (t : Q) (st : State) : State :=
  match List.find (fun c => geb t (startTime c) && ltb t (endTime c)) (clips st) with
  | Some clipAtTime => setActiveClip (Some clipAtTime) st
  | None => st
  end.

End App.

(* ================================================================== *)
(** ** The same search over a store of objects

    The handlers above treat clips as values.  In the running program a clip
    is an object and an array is a mutable cell: spreading copies the
    references to [tags] and [embedding], [sort] works in place, and the
    state holds references.  This section runs [sortClips] and
    [handleSearch] over an explicit store, to show what they write. *)

Module Store.
Import App.
Local Open Scope Q_scope.

Definition loc : Type := positive.

(** A clip object; [tags] and [embedding] are references to arrays. *)
Record ClipObject : Type := mkObject {
  obj_id : string;
  obj_startTime : Q;
  obj_endTime : Q;
  obj_title : string;
  obj_summary : string;
  obj_viralityScore : Q;
  obj_reasoning : string;
  obj_tags : loc;
  obj_transcriptStub : string;
  obj_embedding : option loc;
  obj_score : option Q
}.

Inductive cell : Type :=
| Numbers (values : list Q)          (* [number[]] *)
| Strings (values : list string)     (* [string[]] *)
| Clip (object : ClipObject)         (* a clip object *)
| Clips (elems : list loc).          (* [VideoClip[]] *)

Abbreviation heap := (gmap loc cell).

(** The part of the component's state that a search reads or sets. *)
Record Session : Type := mkSession {
  s_clips : loc;
  s_transcript : list TranscriptSegment;
  s_searchQuery : string;
  s_isSearching : bool;
  s_filteredClips : loc;
  s_sortOrder : SortOrder;
  s_activeSidebarTab : SidebarTab
}.

Definition set_isSearching (v : bool) (s : Session) : Session :=
  {| s_clips := s_clips s; s_transcript := s_transcript s;
     s_searchQuery := s_searchQuery s; s_isSearching := v;
     s_filteredClips := s_filteredClips s; s_sortOrder := s_sortOrder s;
     s_activeSidebarTab := s_activeSidebarTab s |}.

Definition set_filteredClips (v : loc) (s : Session) : Session :=
  {| s_clips := s_clips s; s_transcript := s_transcript s;
     s_searchQuery := s_searchQuery s; s_isSearching := s_isSearching s;
     s_filteredClips := v; s_sortOrder := s_sortOrder s;
     s_activeSidebarTab := s_activeSidebarTab s |}.

Definition set_activeSidebarTab (v : SidebarTab) (s : Session) : Session :=
  {| s_clips := s_clips s; s_transcript := s_transcript s;
     s_searchQuery := s_searchQuery s; s_isSearching := s_isSearching s;
     s_filteredClips := s_filteredClips s; s_sortOrder := s_sortOrder s;
     s_activeSidebarTab := v |}.

(** Computations over the store; [None] is a read of the wrong kind of
    cell. *)
Definition H (A : Type) : Type := heap -> option (A * heap).

#[export] Instance H_ret : MRet H := fun A a h => Some (a, h).
#[export] Instance H_bind : MBind H := fun A B k m h =>
  match m h with
  | Some (a, h') => k a h'
  | None => None
  end.

Definition stuck {A} : H A := fun _ => None.

(** A new object or array. *)
Definition alloc (c : cell) : H loc := fun h =>
  let l := fresh (dom h) in Some (l, <[l := c]> h).

Definition load (l : loc) : H cell := fun h =>
  match h !! l with
  | Some c => Some (c, h)
  | None => None
  end.

(** An assignment into an existing object or array. *)
Definition store (l : loc) (c : cell) : H unit := fun h =>
  match h !! l with
  | Some _ => Some (tt, <[l := c]> h)
  | None => None
  end.

Definition snapshot : H heap := fun h => Some (h, h).

Definition load_clip (l : loc) : H ClipObject :=
  c ← load l; match c with Clip o => mret o | _ => stuck end.

Definition load_clips (l : loc) : H (list loc) :=
  c ← load l; match c with Clips elems => mret elems | _ => stuck end.

Definition load_numbers (l : loc) : H (list Q) :=
  c ← load l; match c with Numbers v => mret v | _ => stuck end.

(** [xs.map(f)] and [xs.filter(p)] with callbacks that use the store. *)
Fixpoint mapH {A B} (f : A -> H B) (xs : list A) : H (list B) :=
  match xs with
  | [] => mret []
  | x :: r => y ← f x; ys ← mapH f r; mret (y :: ys)
  end.

Fixpoint filterH {A} (p : A -> H bool) (xs : list A) : H (list A) :=
  match xs with
  | [] => mret []
  | x :: r =>
      b ← p x; ys ← filterH p r; mret (if (b : bool) then x :: ys else ys)
  end.

(** The scalar properties of an object, as a clip without tags and
    embedding: what the predicates of the search look at. *)
Definition scalars (o : ClipObject) : VideoClip :=
  {| id := obj_id o; startTime := obj_startTime o; endTime := obj_endTime o;
     title := obj_title o; summary := obj_summary o;
     viralityScore := obj_viralityScore o; reasoning := obj_reasoning o;
     tags := []; transcriptStub := obj_transcriptStub o;
     embedding := None; score := obj_score o |}.

(** [{ ...clip, score }]: the references are copied, not the arrays. *)
Definition object_with_score (clip : ClipObject) (s : Q) : ClipObject :=
  {| obj_id := obj_id clip; obj_startTime := obj_startTime clip;
     obj_endTime := obj_endTime clip; obj_title := obj_title clip;
     obj_summary := obj_summary clip;
     obj_viralityScore := obj_viralityScore clip;
     obj_reasoning := obj_reasoning clip; obj_tags := obj_tags clip;
     obj_transcriptStub := obj_transcriptStub clip;
     obj_embedding := obj_embedding clip; obj_score := Some s |}.

(** The comparators of [sortClips], reading the two objects. *)
Definition compareObjects (order : SortOrder) (h : heap) (a b : loc) : Q :=
  match h !! a, h !! b with
  | Some (Clip a), Some (Clip b) =>
      match order with
      | viral => obj_viralityScore b - obj_viralityScore a
      | time => obj_startTime a - obj_startTime b
      end
  | _, _ => 0
  end.

(** [sortClips(list, order)]: a new array, sorted in place, returned. *)
Definition sortClips (list : loc) (order : SortOrder) : H loc :=
  elems ← load_clips list;
  sorted ← alloc (Clips elems);
  _ ← mapH load_clip elems;
  h ← snapshot;
  store sorted (Clips (Array_sort (compareObjects order h) elems));;
  mret sorted.

Section Search.
Variables (trim toLowerCase : string -> string).
Variable cosineSimilarity : Datatypes.list Q -> Datatypes.list Q -> Q.

(** The callback of the first [clips.map]. *)
Definition scoreClip (queryEmbedding : loc) (l : loc) : H loc :=
  clip ← load_clip l;
  score ← match obj_embedding clip with
          | Some e =>
              a ← load_numbers queryEmbedding;
              b ← load_numbers e;
              mret (cosineSimilarity a b)
          | None => mret 0
          end;
  alloc (Clip (object_with_score clip score)).

(** The callback of the second [map]. *)
Definition boostClip (queryLower : string) (matching : Datatypes.list TranscriptSegment)
    (l : loc) : H loc :=
  clip ← load_clip l;
  if hasTranscriptMatch matching (scalars clip)
     || hasStubMatch toLowerCase queryLower (scalars clip)
  then alloc (Clip (object_with_score clip (get_score (scalars clip) + 0.5)))
  else mret l.

Definition rankClips (queryEmbedding : loc) (s0 : Session) : H loc :=
  clips ← load_clips (s_clips s0);
  matchedClips ← mapH (scoreClip queryEmbedding) clips;
  _ ← alloc (Clips matchedClips);
  let queryLower := toLowerCase (s_searchQuery s0) in
  let matching := matchingTranscriptSegments toLowerCase queryLower (s_transcript s0) in
  matchedClips ← mapH (boostClip queryLower matching) matchedClips;
  _ ← alloc (Clips matchedClips);
  finalFiltered ← filterH (fun l => c ← load_clip l;
                                    mret (relevant toLowerCase queryLower (scalars c)))
                    matchedClips;
  finalFiltered ← alloc (Clips finalFiltered);
  sortClips finalFiltered (s_sortOrder s0).

Definition searchFallback (s0 : Session) : H loc :=
  let queryLower := toLowerCase (s_searchQuery s0) in
  clips ← load_clips (s_clips s0);
  matchedClips ← filterH (fun l => c ← load_clip l;
                                   mret (hasStubMatch toLowerCase queryLower (scalars c)))
                   clips;
  matchedClips ← alloc (Clips matchedClips);
  sortClips matchedClips (s_sortOrder s0).

Definition handleSearch (backend : embedded) (s0 : Session) : H Session :=
  if Str.falsy (trim (s_searchQuery s0)) then
    sorted ← sortClips (s_clips s0) (s_sortOrder s0);
    mret (set_filteredClips sorted s0)
  else
    let s := set_isSearching true s0 in
    s ← match geminiService.generateEmbedding backend with
        | Ok values =>
            queryEmbedding ← alloc (Numbers values);
            finalClips ← rankClips queryEmbedding s0;
            let s := set_filteredClips finalClips s in
            mret (match s_activeSidebarTab s0 with
                  | tab_clips => s
                  | _ => set_activeSidebarTab tab_clips s
                  end)
        | Throw e =>
            matchedClips ← searchFallback s0;
            mret (set_filteredClips matchedClips s)
        end;
    mret (set_isSearching false s).

End Search.

(** *** Reading the store back as values *)

Definition clip_at (h : heap) (l : loc) : option VideoClip :=
  match h !! l with
  | Some (Clip o) =>
      match h !! obj_tags o with
      | Some (Strings ts) =>
          let clip e :=
            {| id := obj_id o; startTime := obj_startTime o;
               endTime := obj_endTime o; title := obj_title o;
               summary := obj_summary o;
               viralityScore := obj_viralityScore o;
               reasoning := obj_reasoning o; tags := ts;
               transcriptStub := obj_transcriptStub o;
               embedding := e; score := obj_score o |} in
          match obj_embedding o with
          | None => Some (clip None)
          | Some e =>
              match h !! e with
              | Some (Numbers v) => Some (clip (Some v))
              | _ => None
              end
          end
      | _ => None
      end
  | _ => None
  end.

Definition clips_at (h : heap) (l : loc) : option (list VideoClip) :=
  match h !! l with
  | Some (Clips elems) => mapM (clip_at h) elems
  | _ => None
  end.

(** The store and the session hold the state [st], as far as a search
    goes. *)
Definition represents (h : heap) (s : Session) (st : State) : Prop :=
  clips_at h (s_clips s) = Some (clips st)
  /\ clips_at h (s_filteredClips s) = Some (filteredClips st)
  /\ s_transcript s = transcript st
  /\ s_searchQuery s = searchQuery st
  /\ s_isSearching s = isSearching st
  /\ s_sortOrder s = sortOrder st
  /\ s_activeSidebarTab s = activeSidebarTab st.

End Store.

(* ================================================================== *)
(** ** The rest of the code around the pipeline and the search *)

(** *** More of JavaScript's numbers and strings *)

Module Js.
Local Open Scope Q_scope.

(** [Math.floor(x)] and [Math.round(x)] (halves go up). *)
Definition Math_floor (x : Q) : Z := Qfloor x.
Definition Math_round (x : Q) : Z := Qfloor (x + (1 # 2)).

(** [a % n]: the remainder has the sign of [a]. *)
Definition trunc (x : Q) : Z := if Qle_bool 0 x then Qfloor x else Qceiling x.
Definition rem (a n : Q) : Q := a - n * inject_Z (trunc (a / n)).

(** An integer in a template literal or under [toString()]. *)
Definition toString (z : Z) : string :=
  match z with
  | Zneg p => "-" ++ Str.of_nat (Pos.to_nat p)
  | _ => Str.of_nat (Z.to_nat z)
  end.

Fixpoint zeros (n : nat) : string :=
  match n with
  | O => ""
  | S n' => String "0" (zeros n')
  end.

(** [s.padStart(targetLength, '0')] *)
Definition padStart (targetLength : nat) (s : string) : string :=
  zeros (targetLength - String.length s) ++ s.

(** [s.split('\n')] with a one-character separator. *)
Fixpoint split (sep : ascii) (s : string) : list string :=
  match s with
  | EmptyString => [""]
  | String c r =>
      if Ascii.eqb c sep then "" :: split sep r
      else
        match split sep r with
        | piece :: pieces => String c piece :: pieces
        | [] => [String c ""]
        end
  end.

Definition newline : ascii := ascii_of_nat 10.

End Js.

(** *** [services/videoProcessor]: the progress reports of the sampling *)

Module Progress.
Section Reporting.
Local Open Scope Q_scope.
Variable snapshot : Q -> string.
Variables (duration intervalSeconds : Q) (maxFrames : nat).

(** The argument of [onProgress] in the [onseeked] handler.  The quotient is
    exact here; the properties below are bounds and monotonicity, which do
    not depend on how the quotient is rounded. *)
Definition report (currentTime : Q) : Q :=
  Math_min 99 (inject_Z (Js.Math_round (currentTime / duration * 100))).

(** [captureFrame] and [onseeked] once more, now with the calls of
    [onProgress] collected next to the frames. *)
Fixpoint captureFrame (fuel : nat) (currentTime : Q) (frames : list VideoFrame)
    (reports : list Q) : option (list VideoFrame * list Q) :=
  match fuel with
  | O => None
  | S fuel' =>
      if geb currentTime duration || (maxFrames <=? length frames)%nat
      then Some (frames, reports)
      else
        captureFrame fuel'
          (currentTime + videoProcessor.finalInterval duration intervalSeconds maxFrames)
          (frames ++ [ {| timestamp := currentTime; data := snapshot currentTime |} ])
          (reports ++ [report currentTime])
  end.

Definition extractFramesFromVideo (fuel : nat) : option (list VideoFrame * list Q) :=
  captureFrame fuel 0 [] [].

End Reporting.
End Progress.

(** *** [src/App.tsx]: what is shown and what is downloaded *)

Module Display.
Local Open Scope Q_scope.

(** [formatTime(time)] *)
Definition formatTime (time : Q) : string :=
  let mins := Js.Math_floor (time / 60) in
  let secs := Js.Math_floor (Js.rem time 60) in
  Js.toString mins ++ ":" ++ Js.padStart 2 (Js.toString secs).

(** A character in [a-z0-9] when case is ignored. *)
Definition alphanumeric (c : ascii) : bool :=
  let n := nat_of_ascii c in
  ((97 <=? n)%nat && (n <=? 122)%nat)
  || ((65 <=? n)%nat && (n <=? 90)%nat)
  || ((48 <=? n)%nat && (n <=? 57)%nat).

(** [title.replace(/[^a-z0-9]/gi, '_')] *)
Fixpoint replace_others (s : string) : string :=
  match s with
  | EmptyString => EmptyString
  | String c r => String (if alphanumeric c then c else "_"%char) (replace_others r)
  end.

(** The name [handleDownloadClip] gives to the file. *)
Definition downloadName (title : string) : string :=
  Str.toLowerCase (replace_others title) ++ "_opus_clip.mp4".

End Display.

(** *** Comments: [analyzeVideoComments], [handleAnalyzeComments] and the
        text box of [CommentSection] *)

Module Comments.

(** [analyzeVideoComments(comments)] *)
Definition analyzeVideoComments (backend : generated CommentAnalysis)
  : outcome CommentAnalysis :=
  try_catch
    (match backend with
     | Rejected => Throw "generateContent"
     | NoText => Throw "No response from Gemini"
     | Malformed => Throw "SyntaxError"
     | Parsed analysis => Ok analysis
     end)
    (fun error => Throw error).

(** The state [handleAnalyzeComments] works on, and the alerts it has
    raised. *)
Record CommentsState : Type := mkCommentsState {
  c_comments : list string;
  c_commentAnalysis : option CommentAnalysis;
  c_isAnalyzingComments : bool;
  c_alerts : list string
}.

Definition setIsAnalyzingComments (v : bool) (st : CommentsState) : CommentsState :=
  {| c_comments := c_comments st; c_commentAnalysis := c_commentAnalysis st;
     c_isAnalyzingComments := v; c_alerts := c_alerts st |}.

Definition setCommentAnalysis (v : option CommentAnalysis) (st : CommentsState)
  : CommentsState :=
  {| c_comments := c_comments st; c_commentAnalysis := v;
     c_isAnalyzingComments := c_isAnalyzingComments st; c_alerts := c_alerts st |}.

Definition alert (message : string) (st : CommentsState) : CommentsState :=
  {| c_comments := c_comments st; c_commentAnalysis := c_commentAnalysis st;
     c_isAnalyzingComments := c_isAnalyzingComments st;
     c_alerts := c_alerts st ++ [message] |}.

(** [handleAnalyzeComments()]; [backend] answers the one call it may make. *)
Definition handleAnalyzeComments (backend : generated CommentAnalysis)
    (st : CommentsState) : CommentsState :=
  match c_comments st with
  | [] => st
  | _ :: _ =>
      let st := setIsAnalyzingComments true st in
      let st :=
        match analyzeVideoComments backend with
        | Ok result => setCommentAnalysis (Some result) st
        | Throw e =>
            alert "Failed to analyze comments. Please check your API key." st
        end in
      setIsAnalyzingComments false st
  end.

(** What [handleTextChange] passes to [onCommentsChange]. *)
Definition commentsOfText (value : string) : list string :=
  List.filter (fun s => (0 <? String.length (Str.trim s))%nat)
    (Js.split Js.newline value).

(** The initial text of the box: [comments.join('\n')]. *)
Definition textOfComments (comments : list string) : string :=
  Str.join (String Js.newline "") comments.

End Comments.

(** *** [src/App.tsx]: the events of a session *)

Module Session.
Import App.

(** The component between two events.  [current] is the state of the latest
    render.  A handler works on the state of the render that created it, so
    the component also keeps the renders of the searches that are under
    way: [timer] is the render whose [handleSearch] the debounce timer
    holds ([useEffect] on [searchQuery]), and [searching] lists the renders
    of the searches that have started and have not set their result yet. *)
Record Component : Type := mkComponent {
  current : State;
  timer : option State;
  searching : list State
}.

(** After mounting: the effect on [searchQuery] has set the first timer. *)
Definition mounted : Component :=
  {| current := initialState; timer := Some initialState; searching := [] |}.

Definition with_current (st : State) (c : Component) : Component :=
  {| current := st; timer := timer c; searching := searching c |}.

(** What can happen to the component.  A search sets its result in one
    step, when its embedding call has answered ([SearchDone]), so the
    spinner is not followed between [TimerFired] and [SearchDone].  A run of
    the pipeline is one step too: while it is under way the screen shows
    its progress and no control, and of what a search may set meanwhile the
    run sets the displayed list only, as its last step.  The comments box
    and the download button act on state that the handlers below do not
    read, and are left out. *)
Inductive event : Type :=
| FileSelected (source : Source) (w : Run)   (* [VideoUploader] calls [handleFileSelect] *)
| Retry                                      (* "Try Again": [setAppState(AppState.IDLE)] *)
| QueryTyped (query : string)                (* the search box: [setSearchQuery] *)
| TimerFired                                 (* 500 ms have passed: [handleSearch] starts *)
| SearchDone (k : nat) (backend : embedded)  (* the [k]-th search under way ends *)
| SortChosen (order : SortOrder)             (* [setSortOrder] and its effect *)
| ClipChosen (index : nat)                   (* [onClipSelect] in the list *)
| SegmentClicked (t : Q)                     (* [handleTranscriptSegmentClick] *)
| TabChosen (tab : SidebarTab)               (* [setActiveSidebarTab] *)
| Rendered.                                  (* the selection effect *)

(** What the render shows, by [appState] and [activeSidebarTab]. *)
Definition shows_sidebar (st : State) : bool :=
  match appState st with READY => true | _ => false end.

Definition shows_search_box (st : State) : bool :=
  shows_sidebar st
  && match activeSidebarTab st with tab_comments => false | _ => true end.

Definition shows_clip_list (st : State) : bool :=
  shows_sidebar st
  && match activeSidebarTab st with tab_clips => true | _ => false end.

Definition shows_transcript (st : State) : bool :=
  shows_sidebar st
  && match activeSidebarTab st with tab_transcript => true | _ => false end.

Definition same_order (a b : SortOrder) : bool :=
  match a, b with
  | time, time | viral, viral => true
  | _, _ => false
  end.

Section Events.
Variables (trim toLowerCase : string -> string).
Variable cosineSimilarity : list Q -> list Q -> Q.

(** An event acts when the control that raises it is on the screen; a
    setter called with the value the state already has starts no render
    and no effect. *)
Definition react (e : event) (c : Component) : Component :=
  let st := current c in
  match e with
  | FileSelected source w =>
      match appState st with
      | IDLE => with_current (run (handleFileSelect source w) st) c
      | _ => c
      end
  | Retry =>
      match appState st with
      | ERROR => with_current (setAppState IDLE st) c
      | _ => c
      end
  | QueryTyped query =>
      if shows_search_box st && negb (String.eqb query (searchQuery st)) then
        let st' := setSearchQuery query st in
        {| current := st'; timer := Some st'; searching := searching c |}
      else c
  | TimerFired =>
      match timer c with
      | Some st0 =>
          {| current := st; timer := None; searching := searching c ++ [st0] |}
      | None => c
      end
  | SearchDone k backend =>
      match nth_error (searching c) k with
      | Some st0 =>
          {| current := snd (handleSearch trim toLowerCase cosineSimilarity
                               backend st0 st);
             timer := timer c;
             searching := firstn k (searching c) ++ skipn (S k) (searching c) |}
      | None => c
      end
  | SortChosen order =>
      if shows_clip_list st && negb (same_order order (sortOrder st))
      then with_current (changeSortOrder order st) c
      else c
  | ClipChosen index =>
      if shows_clip_list st then
        match nth_error (filteredClips st) index with
        | Some clip => with_current (setActiveClip (Some clip) st) c
        | None => c
        end
      else c
  | SegmentClicked t =>
      if shows_transcript st
      then with_current (handleTranscriptSegmentClick t st) c
      else c
  | TabChosen tab =>
      if shows_sidebar st then with_current (setActiveSidebarTab tab st) c else c
  | Rendered => with_current (autoSelect st) c
  end.

(** The component after a sequence of events. *)
Definition play (events : list event) (c : Component) : Component :=
  fold_left (fun c e => react e c) events c.

End Events.
End Session.

(* ================================================================== *)
(** * Properties *)

(** ** Numbers *)

Module NumFacts.
Local Open Scope Q_scope.

Lemma ltb_lt a b : ltb a b = true <-> a < b.
Proof.
  unfold ltb. rewrite negb_true_iff, <- not_true_iff_false, Qle_bool_iff.
  split; [apply Qnot_le_lt | apply Qlt_not_le].
Qed.

Lemma leb_le a b : leb a b = true <-> a <= b.
Proof. apply Qle_bool_iff. Qed.

Lemma gtb_gt a b : gtb a b = true <-> b < a.
Proof. apply ltb_lt. Qed.

Lemma geb_ge a b : geb a b = true <-> b <= a.
Proof. apply leb_le. Qed.

Lemma ltb_nlt a b : ltb a b = false <-> b <= a.
Proof.
  unfold ltb. rewrite negb_false_iff. apply Qle_bool_iff.
Qed.

Lemma Math_max_lower a b : a <= Math_max a b.
Proof.
  unfold Math_max. destruct (Qle_bool a b) eqn:E.
  - now apply Qle_bool_iff.
  - apply Qle_refl.
Qed.

Lemma Math_max_upper a b : b <= Math_max a b.
Proof.
  unfold Math_max. destruct (Qle_bool a b) eqn:E.
  - apply Qle_refl.
  - apply Qlt_le_weak, ltb_lt. unfold ltb. now rewrite E.
Qed.

Lemma Math_min_le_l a b : Math_min a b <= a.
Proof.
  unfold Math_min. destruct (Qle_bool a b) eqn:E.
  - apply Qle_refl.
  - apply Qlt_le_weak, ltb_lt. unfold ltb. now rewrite E.
Qed.

Lemma Math_min_le_r a b : Math_min a b <= b.
Proof.
  unfold Math_min. destruct (Qle_bool a b) eqn:E.
  - now apply Qle_bool_iff.
  - apply Qle_refl.
Qed.

End NumFacts.
Import NumFacts.

(** ** Clamping in [analyzeVideoFrames] *)

Module AnalyzeFacts.
Import geminiService.
Local Open Scope Q_scope.

(** What [stamp] makes of a candidate: both times clamped, every other
    property copied, no embedding and no score yet. *)
Definition clamped (videoDuration : Q) (raw : RawClip) (c : VideoClip) : Prop :=
  startTime c = Math_max 0 (raw_startTime raw)
  /\ endTime c = Math_min videoDuration (raw_endTime raw)
  /\ 0 <= startTime c
  /\ endTime c <= videoDuration
  /\ title c = raw_title raw
  /\ summary c = raw_summary raw
  /\ viralityScore c = raw_viralityScore raw
  /\ reasoning c = raw_reasoning raw
  /\ tags c = raw_tags raw
  /\ transcriptStub c = raw_transcriptStub raw
  /\ embedding c = None
  /\ score c = None.

Lemma stamp_clamped d now i raw : clamped d raw (stamp d now i raw).
Proof.
  unfold clamped, stamp; simpl.
  repeat split; auto using Math_max_lower, Math_min_le_l.
Qed.

Lemma map_indexed_Forall2 {A B} (R : A -> B -> Prop) (f : nat -> A -> B) :
  (forall i x, R x (f i x)) ->
  forall l i, Forall2 R l (map_indexed f i l).
Proof.
  intros HR l. induction l as [|x l IH]; intros i; simpl; constructor; auto.
Qed.

Lemma map_indexed_length {A B} (f : nat -> A -> B) l i :
  length (map_indexed f i l) = length l.
Proof.
  revert i. induction l as [|x l IH]; intros i; simpl; [reflexivity|].
  now rewrite IH.
Qed.

(** A candidate whose two times coincide. *)
Definition degenerate : RawClip :=
  {| raw_startTime := 5; raw_endTime := 5; raw_title := "Still";
     raw_summary := "Nothing moves"; raw_viralityScore := 10;
     raw_reasoning := "none"; raw_tags := ["still"];
     raw_transcriptStub := "" |}.

(** A run in which the backend proposes [degenerate] alone. *)
Definition still : App.Run :=
  {| App.run_progress := [0];
     App.run_frames := Ok [ {| timestamp := 0; data := "" |} ];
     App.run_duration := 10;
     App.run_visual := Parsed [degenerate];
     App.run_now := 17;
     App.run_audio := Ok "audio";
     App.run_transcription := Parsed [];
     App.run_embedding := fun _ _ => EmbedResponse (Some (Some [1; 0])) |}.

(** C1, as stated, fails: with a duration of 10 seconds the candidate
    [degenerate] has [startTime = endTime = 5] after clamping,
    [analyzeVideoFrames] returns it, and the run publishes it. *)
Lemma analyzeVideoFrames_returns_degenerate :
  exists c,
    analyzeVideoFrames (Parsed [degenerate]) 10 17 = Ok [c]
    /\ startTime c = 5 /\ endTime c = 5
    /\ endTime c <= startTime c
    /\ List.map (fun c => (title c, startTime c, endTime c))
         (App.clips (App.run (App.handleFileSelect App.upload still) App.initialState))
       = [("Still", 5, 5)].
Proof.
  eexists. split; [reflexivity|]. simpl. repeat split. discriminate.
Qed.

(** The spec's clamping example: a candidate from -5 to 100 seconds past the
    end is stored from 0 to the end. *)
Example analyzeVideoFrames_clamps_both_ends :
  match analyzeVideoFrames
          (Parsed [ {| raw_startTime := -5; raw_endTime := 60 + 100;
                       raw_title := ""; raw_summary := "";
                       raw_viralityScore := 1; raw_reasoning := "";
                       raw_tags := []; raw_transcriptStub := "" |} ]) 60 17 with
  | Ok [c] => startTime c = 0 /\ endTime c = 60
  | _ => False
  end.
Proof. split; reflexivity. Qed.

(** C1 (amended).  [analyzeVideoFrames] clamps and keeps: for a parsed
    response it returns exactly one clip per candidate, in the order of the
    response, with [startTime] raised to at least 0, [endTime] lowered to at
    most [videoDuration] and every other property copied.  No candidate is
    dropped, whatever the order of its two clamped times. *)
Theorem analyzeVideoFrames_clamps_and_keeps (rawClips : list RawClip)
    (videoDuration : Q) (now : nat) :
  exists clips,
    analyzeVideoFrames (Parsed rawClips) videoDuration now = Ok clips
    /\ length clips = length rawClips
    /\ Forall2 (clamped videoDuration) rawClips clips.
Proof.
  exists (map_indexed (stamp videoDuration now) 0 rawClips).
  split; [reflexivity|]. split.
  - apply map_indexed_length.
  - apply map_indexed_Forall2. intros i x. apply stamp_clamped.
Qed.

End AnalyzeFacts.

(** ** The sampling schedule of [extractFramesFromVideo] *)

Module SamplingFacts.
Import videoProcessor.
Local Open Scope Q_scope.

Section Schedule.
Variable snapshot : Q -> string.
Variables (duration intervalSeconds : Q) (maxFrames : nat).

Local Abbreviation capture := (captureFrame snapshot duration intervalSeconds maxFrames).
Local Abbreviation step := (finalInterval duration intervalSeconds maxFrames).

(** Timestamps strictly increasing along the list. *)
Definition increasing (frames : list VideoFrame) : Prop :=
  StronglySorted (fun a b => timestamp a < timestamp b) frames.

(** Every timestamp in [[0, duration)]. *)
Definition in_range (frames : list VideoFrame) : Prop :=
  Forall (fun f => 0 <= timestamp f /\ timestamp f < duration) frames.

Lemma increasing_snoc frames f :
  increasing frames ->
  Forall (fun g => timestamp g < timestamp f) frames ->
  increasing (frames ++ [f]).
Proof.
  unfold increasing. induction frames as [|g frames IH]; intros Hs Hlt; simpl.
  - constructor; constructor.
  - inversion Hs; subst. inversion Hlt; subst.
    constructor; [now apply IH|].
    apply Forall_app; split; [assumption|]. constructor; [assumption|constructor].
Qed.

Lemma finalInterval_pos :
  0 < duration -> (0 < maxFrames)%nat -> 0 < step.
Proof.
  intros Hd Hm. unfold finalInterval.
  apply Qlt_le_trans with (neededInterval duration maxFrames);
    [|apply Math_max_upper].
  unfold neededInterval. apply Qlt_shift_div_l.
  - replace 0 with (inject_Z 0) by reflexivity. rewrite <- Zlt_Qlt. lia.
  - now rewrite Qmult_0_l.
Qed.

(** More fuel does not change a resolved run. *)
Lemma captureFrame_more_fuel fuel fuel' currentTime frames out :
  (fuel <= fuel')%nat ->
  capture fuel currentTime frames = Some out ->
  capture fuel' currentTime frames = Some out.
Proof.
  revert fuel' currentTime frames.
  induction fuel as [|fuel IH]; intros fuel' currentTime frames Hle Hrun;
    [discriminate|].
  destruct fuel' as [|fuel']; [lia|].
  simpl in *.
  destruct (geb currentTime duration || (maxFrames <=? length frames)%nat);
    [assumption|].
  apply IH; [lia|assumption].
Qed.

(** The loop invariant: the run resolves once the fuel covers the frames
    still allowed, and the frames it resolves with extend the ones already
    taken, stay in range and keep increasing. *)
Lemma captureFrame_resolves fuel :
  0 < step ->
  forall currentTime frames,
    (maxFrames - length frames < fuel)%nat ->
    (length frames <= maxFrames)%nat ->
    0 <= currentTime ->
    in_range frames ->
    increasing frames ->
    Forall (fun g => timestamp g < currentTime) frames ->
    exists rest,
      capture fuel currentTime frames = Some (frames ++ rest)
      /\ (length (frames ++ rest) <= maxFrames)%nat
      /\ in_range (frames ++ rest)
      /\ increasing (frames ++ rest).
Proof.
  intros Hstep.
  induction fuel as [|fuel IH];
    intros currentTime frames Hfuel Hlen Hct Hrange Hinc Hbelow; [lia|].
  simpl.
  destruct (geb currentTime duration) eqn:Hend; simpl.
  { exists []. rewrite app_nil_r. auto. }
  destruct (maxFrames <=? length frames)%nat eqn:Hfull.
  { exists []. rewrite app_nil_r. auto. }
  apply Nat.leb_gt in Hfull.
  assert (Hlt : currentTime < duration).
  { apply ltb_lt. unfold ltb. unfold geb, leb in Hend. now rewrite Hend. }
  set (f := {| timestamp := currentTime; data := snapshot currentTime |}).
  destruct (IH (currentTime + step) (frames ++ [f])) as (rest & Hrun & H1 & H2 & H3).
  - rewrite length_app; simpl. lia.
  - rewrite length_app; simpl. lia.
  - apply Qle_trans with (currentTime + 0).
    + rewrite Qplus_0_r. assumption.
    + apply Qplus_le_r. now apply Qlt_le_weak.
  - apply Forall_app; split; [assumption|].
    constructor; [|constructor]. simpl. split; assumption.
  - apply increasing_snoc; assumption.
  - assert (Hadv : currentTime < currentTime + step).
    { apply Qle_lt_trans with (currentTime + 0).
      - rewrite Qplus_0_r. apply Qle_refl.
      - apply Qplus_lt_r. assumption. }
    apply Forall_app; split.
    + eapply Forall_impl; [exact Hbelow|]. simpl. intros g Hg.
      eapply Qlt_trans; eassumption.
    + constructor; [exact Hadv|constructor].
  - exists (f :: rest). rewrite <- app_assoc in *. simpl in *. auto.
Qed.

End Schedule.

(** C2.  For a positive duration and a positive frame limit the sampling run
    resolves (with any fuel above [maxFrames], always with the same frames),
    and the frames it resolves with are at most [maxFrames], have their
    timestamps in [[0, duration)] and strictly increasing, and start with
    the timestamp 0. *)
Theorem extractFramesFromVideo_schedule (snapshot : Q -> string)
    (duration intervalSeconds : Q) (maxFrames : nat) :
  0 < duration ->
  (0 < maxFrames)%nat ->
  exists first rest,
    (forall fuel, (maxFrames < fuel)%nat ->
       extractFramesFromVideo snapshot duration intervalSeconds maxFrames fuel
       = Some (first :: rest))
    /\ (length (first :: rest) <= maxFrames)%nat
    /\ in_range duration (first :: rest)
    /\ increasing (first :: rest)
    /\ timestamp first = 0.
Proof.
  intros Hd Hm.
  pose proof (finalInterval_pos duration intervalSeconds maxFrames Hd Hm) as Hstep.
  set (f := {| timestamp := 0; data := snapshot 0 |}).
  destruct (captureFrame_resolves snapshot duration intervalSeconds maxFrames
              maxFrames Hstep (0 + finalInterval duration intervalSeconds maxFrames)
              [f])
    as (rest & Hrun & Hlen & Hrange & Hinc).
  - simpl. lia.
  - simpl. lia.
  - rewrite Qplus_0_l. now apply Qlt_le_weak.
  - constructor; [|constructor]. simpl. split; [apply Qle_refl|assumption].
  - constructor; constructor.
  - constructor; [|constructor]. simpl. now rewrite Qplus_0_l.
  - exists f, rest. simpl in *. repeat split; try assumption.
    intros fuel Hfuel. unfold extractFramesFromVideo.
    apply captureFrame_more_fuel with (fuel := S maxFrames); [lia|].
    simpl.
    assert (Hge : geb 0 duration = false).
    { unfold geb, leb. apply not_true_is_false. rewrite Qle_bool_iff.
      now apply Qlt_not_le. }
    rewrite Hge. simpl.
    assert (Hfull : (maxFrames <=? 0)%nat = false) by (apply Nat.leb_gt; lia).
    rewrite Hfull. exact Hrun.
Qed.

(** The schedule of the call in [handleFileSelect] on a 10-second video. *)
Lemma extractFramesFromVideo_schedule_witness :
  exists first rest,
    (forall fuel, (45 < fuel)%nat ->
       extractFramesFromVideo (fun _ => "") 10 4 45 fuel = Some (first :: rest))
    /\ (length (first :: rest) <= 45)%nat
    /\ in_range 10 (first :: rest)
    /\ increasing (first :: rest)
    /\ timestamp first = 0.
Proof.
  apply (extractFramesFromVideo_schedule (fun _ => "") 10 4 45).
  - reflexivity.
  - lia.
Defined.

Example schedule_10s :
  option_map (List.map timestamp)
    (extractFramesFromVideo (fun _ => "") 10 4 45 46) = Some [0; 0 + 4; 0 + 4 + 4].
Proof. reflexivity. Qed.

Example schedule_short :
  option_map (List.map timestamp)
    (extractFramesFromVideo (fun _ => "") 3 4 45 46) = Some [0].
Proof. reflexivity. Qed.

End SamplingFacts.

(** ** [sortClips]: a stable sort under both orders *)

Module SortFacts.
Import App.
Local Open Scope Q_scope.

Section StableSort.
Context {A : Type}.
Variable compareFn : A -> A -> Q.

(** The comparator orders by a numeric key. *)
Variable key : A -> Q.
Hypothesis compare_key : forall x y, compareFn x y <= 0 <-> key x <= key y.

(** Ascending in the key. *)
Definition ordered (l : list A) : Prop :=
  StronglySorted (fun a b => key a <= key b) l.

(** The elements whose key is [k], in the order of the list. *)
Definition tied (k : Q) (l : list A) : list A :=
  List.filter (fun c => Qeq_bool (key c) k) l.

Lemma sort_insert_perm x l : Permutation (sort_insert compareFn x l) (x :: l).
Proof.
  induction l as [|y r IH]; simpl; [reflexivity|].
  destruct (leb (compareFn x y) 0); [reflexivity|].
  rewrite IH. apply perm_swap.
Qed.

Lemma Array_sort_perm l : Permutation (Array_sort compareFn l) l.
Proof.
  induction l as [|x l IH]; simpl; [reflexivity|].
  rewrite sort_insert_perm. now constructor.
Qed.

Lemma sort_insert_ordered x l : ordered l -> ordered (sort_insert compareFn x l).
Proof.
  unfold ordered. induction l as [|y r IH]; intros Hs; simpl.
  - constructor; constructor.
  - inversion Hs as [|? ? Hr Hy]; subst.
    destruct (leb (compareFn x y) 0) eqn:E.
    + apply leb_le, compare_key in E.
      constructor; [assumption|]. constructor; [assumption|].
      eapply Forall_impl; [exact Hy|]. simpl. intros z Hz.
      eapply Qle_trans; eassumption.
    + assert (Hyx : key y <= key x).
      { apply Qlt_le_weak, Qnot_le_lt. intros Hle.
        apply compare_key, leb_le in Hle. congruence. }
      constructor; [now apply IH|].
      eapply Permutation_Forall; [symmetry; apply sort_insert_perm|].
      constructor; assumption.
Qed.

Lemma Array_sort_ordered l : ordered (Array_sort compareFn l).
Proof.
  induction l as [|x l IH]; simpl; [constructor|].
  now apply sort_insert_ordered.
Qed.

(** Inserting passes only elements with a strictly smaller key, so the
    elements that share a key keep their order. *)
Lemma tied_sort_insert k x l :
  tied k (sort_insert compareFn x l) = tied k (x :: l).
Proof.
  unfold tied. induction l as [|y r IH]; simpl; [reflexivity|].
  destruct (leb (compareFn x y) 0) eqn:E; [reflexivity|].
  simpl in *. rewrite IH.
  destruct (Qeq_bool (key x) k) eqn:Ex; [|reflexivity].
  destruct (Qeq_bool (key y) k) eqn:Ey; [|reflexivity].
  apply Qeq_bool_iff in Ex, Ey.
  assert (Hle : key x <= key y) by (rewrite Ex, Ey; apply Qle_refl).
  apply compare_key, leb_le in Hle. congruence.
Qed.

Lemma Array_sort_stable k l : tied k (Array_sort compareFn l) = tied k l.
Proof.
  induction l as [|x l IH]; simpl; [reflexivity|].
  rewrite tied_sort_insert. unfold tied in *. simpl. now rewrite IH.
Qed.

(** The contract fixes the result: two rearrangements of the same elements
    that are both ascending and keep the order of tied elements are equal.
    So every stable sort by this key returns what [Array_sort] returns. *)
Lemma stable_sort_unique (out1 out2 : list A) :
  ordered out1 -> ordered out2 ->
  Permutation out1 out2 ->
  (forall k, tied k out1 = tied k out2) ->
  out1 = out2.
Proof.
  revert out2. induction out1 as [|x r1 IH]; intros out2 Ho1 Ho2 Hperm Htied.
  - apply Permutation_nil in Hperm. now subst.
  - destruct out2 as [|y r2];
      [symmetry in Hperm; now apply Permutation_nil_cons in Hperm|].
    unfold ordered in *.
    inversion Ho1 as [|? ? Hr1 Hx]; subst.
    inversion Ho2 as [|? ? Hr2 Hy]; subst.
    assert (Hxy : key x <= key y).
    { assert (Hin : In y (x :: r1))
        by (eapply Permutation_in; [symmetry; exact Hperm|now left]).
      destruct Hin as [->|Hin]; [apply Qle_refl|].
      rewrite List.Forall_forall in Hx. now apply Hx. }
    assert (Hyx : key y <= key x).
    { assert (Hin : In x (y :: r2))
        by (eapply Permutation_in; [exact Hperm|now left]).
      destruct Hin as [->|Hin]; [apply Qle_refl|].
      rewrite List.Forall_forall in Hy. now apply Hy. }
    assert (Hk : key y == key x) by now apply Qle_antisym.
    assert (Heq : x = y).
    { specialize (Htied (key x)). unfold tied in Htied. simpl in Htied.
      rewrite (proj2 (Qeq_bool_iff (key x) (key x)) (Qeq_refl _)) in Htied.
      rewrite (proj2 (Qeq_bool_iff (key y) (key x)) Hk) in Htied.
      now injection Htied. }
    subst y. f_equal. apply IH; try assumption.
    + eapply Permutation_cons_inv. exact Hperm.
    + intros k. specialize (Htied k). unfold tied in *. simpl in Htied.
      destruct (Qeq_bool (key x) k); [now injection Htied|assumption].
Qed.

Lemma Array_sort_characterized (l out : list A) :
  ordered out -> Permutation out l -> (forall k, tied k out = tied k l) ->
  out = Array_sort compareFn l.
Proof.
  intros Ho Hp Ht. apply stable_sort_unique.
  - assumption.
  - apply Array_sort_ordered.
  - rewrite Hp. symmetry. apply Array_sort_perm.
  - intros k. rewrite Ht. symmetry. apply Array_sort_stable.
Qed.

End StableSort.

(** The two keys: the start time, and the virality score counted
    downwards. *)
Definition chronological (c : VideoClip) : Q := startTime c.
Definition virality (c : VideoClip) : Q := - viralityScore c.

Definition sortKey (order : SortOrder) : VideoClip -> Q :=
  match order with
  | time => chronological
  | viral => virality
  end.

Lemma compare_time x y :
  startTime x - startTime y <= 0 <-> chronological x <= chronological y.
Proof. unfold chronological. split; intros H; lra. Qed.

Lemma compare_viral x y :
  viralityScore y - viralityScore x <= 0 <-> virality x <= virality y.
Proof. unfold virality. split; intros H; lra. Qed.

Lemma sortClips_perm l order : Permutation (sortClips l order) l.
Proof. destruct order; apply Array_sort_perm. Qed.

Lemma sortClips_ordered l order : ordered (sortKey order) (sortClips l order).
Proof.
  destruct order; simpl.
  - apply Array_sort_ordered. exact compare_time.
  - apply Array_sort_ordered. exact compare_viral.
Qed.

Lemma sortClips_tied l order k :
  tied (sortKey order) k (sortClips l order) = tied (sortKey order) k l.
Proof.
  destruct order; simpl.
  - apply Array_sort_stable. exact compare_time.
  - apply Array_sort_stable. exact compare_viral.
Qed.

Lemma sortClips_In l order c : In c (sortClips l order) <-> In c l.
Proof.
  split; apply Permutation_in; [|symmetry]; apply sortClips_perm.
Qed.

Lemma sortClips_length l order : length (sortClips l order) = length l.
Proof. apply Permutation_length, sortClips_perm. Qed.

Lemma tied_virality l k :
  tied virality (- k) l = List.filter (fun c => Qeq_bool (viralityScore c) k) l.
Proof.
  unfold tied, virality. apply filter_ext. intros c.
  destruct (Qeq_bool (viralityScore c) k) eqn:E.
  - apply Qeq_bool_iff. apply Qeq_bool_iff in E. lra.
  - apply not_true_is_false. intros H. apply Qeq_bool_iff in H.
    apply Qeq_bool_neq in E. apply E. lra.
Qed.

Lemma StronglySorted_weaken {A} (R R' : A -> A -> Prop) l :
  (forall a b, R a b -> R' a b) -> StronglySorted R l -> StronglySorted R' l.
Proof.
  intros HR Hs. induction Hs as [|a l Hs IH Ha]; constructor; [assumption|].
  eapply Forall_impl; [exact Ha|]. intros b. apply HR.
Qed.

Lemma leb_false a : 0 < a -> leb a 0 = false.
Proof.
  intros H. apply not_true_is_false. intros E. apply leb_le in E. lra.
Qed.

Lemma leb_true a : a <= 0 -> leb a 0 = true.
Proof. apply leb_le. Qed.

(** C8.  Both orders of [sortClips] are total, and the sort is stable under
    each: the result is a rearrangement of the input, ascending by
    [startTime] under [time] and descending by [viralityScore] under
    [viral], and the clips that share a key stand in the order they had in
    the input.  Three clips with the scores 90, 40 and 90 come out as first,
    third, second. *)
Theorem sortClips_total_and_stable (list : Datatypes.list VideoClip) :
  (forall a b : VideoClip,
      startTime a <= startTime b \/ startTime b <= startTime a)
  /\ (forall a b : VideoClip,
      viralityScore b <= viralityScore a \/ viralityScore a <= viralityScore b)
  /\ Permutation (sortClips list time) list
  /\ StronglySorted (fun a b => startTime a <= startTime b) (sortClips list time)
  /\ (forall k,
        List.filter (fun c => Qeq_bool (startTime c) k) (sortClips list time)
        = List.filter (fun c => Qeq_bool (startTime c) k) list)
  /\ Permutation (sortClips list viral) list
  /\ StronglySorted (fun a b => viralityScore b <= viralityScore a)
       (sortClips list viral)
  /\ (forall k,
        List.filter (fun c => Qeq_bool (viralityScore c) k) (sortClips list viral)
        = List.filter (fun c => Qeq_bool (viralityScore c) k) list)
  /\ (forall clip0 clip1 clip2,
        viralityScore clip0 == 90 ->
        viralityScore clip1 == 40 ->
        viralityScore clip2 == 90 ->
        sortClips [clip0; clip1; clip2] viral = [clip0; clip2; clip1]).
Proof.
  split; [|split; [|split; [|split; [|split; [|split; [|split; [|split]]]]]]].
  - intros a b. destruct (Qlt_le_dec (startTime b) (startTime a)) as [H|H];
      [right; now apply Qlt_le_weak | now left].
  - intros a b. destruct (Qlt_le_dec (viralityScore a) (viralityScore b)) as [H|H];
      [right; now apply Qlt_le_weak | now left].
  - apply sortClips_perm.
  - apply (sortClips_ordered list time).
  - intros k. apply (sortClips_tied list time k).
  - apply sortClips_perm.
  - pose proof (sortClips_ordered list viral) as H. unfold ordered in H.
    eapply StronglySorted_weaken; [|exact H].
    simpl. unfold virality. intros a b Hab. lra.
  - intros k. rewrite <- !tied_virality. apply (sortClips_tied list viral).
  - intros clip0 clip1 clip2 H0 H1 H2. unfold sortClips, Array_sort. simpl.
    rewrite (leb_false (viralityScore clip2 - viralityScore clip1)) by lra.
    simpl.
    rewrite (leb_true (viralityScore clip2 - viralityScore clip0)) by lra.
    reflexivity.
Qed.

(** The spec's example on three concrete clips. *)
Definition scored (name : string) (start v : Q) : VideoClip :=
  {| id := name; startTime := start; endTime := start + 5; title := "";
     summary := ""; viralityScore := v; reasoning := ""; tags := [];
     transcriptStub := ""; embedding := None; score := None |}.

Example sortClips_90_40_90 :
  List.map id (sortClips [scored "clip0" 0 90; scored "clip1" 10 40;
                          scored "clip2" 20 90] viral)
  = ["clip0"; "clip2"; "clip1"].
Proof. reflexivity. Qed.

Example sortClips_time_ties :
  List.map id (sortClips [scored "b" 10 1; scored "a" 0 2; scored "c" 10 3;
                          scored "d" 0 4] time)
  = ["a"; "d"; "b"; "c"].
Proof. reflexivity. Qed.

End SortFacts.

(** ** The pipeline: [generateEmbedding], [generateTranscript],
       [handleFileSelect] *)

Module PipelineFacts.
Import App geminiService.
Local Open Scope Q_scope.

(** The vector [generateEmbedding] answers with: the backend's values when
    it sent some, the empty vector otherwise. *)
Definition embedding_values (backend : embedded) : list Q :=
  match backend with
  | EmbedResponse (Some (Some values)) => values
  | _ => []
  end.

Lemma generateEmbedding_total backend :
  generateEmbedding backend = Ok (embedding_values backend).
Proof. destruct backend as [|[[values|]|]]; reflexivity. Qed.

(** The transcript [generateTranscript] answers with. *)
Definition transcript_segments (backend : generated (list TranscriptSegment))
  : list TranscriptSegment :=
  match backend with
  | Parsed segments => segments
  | _ => []
  end.

Lemma generateTranscript_total backend :
  generateTranscript backend = Ok (transcript_segments backend).
Proof. destruct backend; reflexivity. Qed.

(** The clip published for the candidate at [index]. *)
Definition embedded_clip (w : Run) (index : nat) (clip : VideoClip) : VideoClip :=
  with_embedding clip (embedding_values (run_embedding w index (textToEmbed clip))).

Lemma embedClip_total w index clip :
  embedClip w index clip = Ok (embedded_clip w index clip).
Proof.
  unfold embedClip, embedded_clip. now rewrite generateEmbedding_total.
Qed.

(** The fan-in never rejects: every callback resolves. *)
Lemma Promise_all_embedClip w clips index :
  Promise_all (map_indexed (embedClip w) index clips)
  = Ok (map_indexed (embedded_clip w) index clips).
Proof.
  revert index. induction clips as [|c clips IH]; intros index; simpl;
    [reflexivity|].
  now rewrite embedClip_total, IH.
Qed.

Lemma progress_reports (stage : string) ps pr st :
  exists pr',
    fold_left (fun st p => setProgress {| stage := stage; progress := p |} st) ps
      (setProgress pr st)
    = setProgress pr' st.
Proof.
  revert pr. induction ps as [|p ps IH]; intros pr; [now exists pr|].
  cbn [fold_left].
  change (setProgress {| stage := stage; progress := p |} (setProgress pr st))
    with (setProgress {| stage := stage; progress := p |} st).
  apply IH.
Qed.

(** The transcript a run stores: empty unless both the audio extraction and
    the transcription answered. *)
Definition stored_transcript (w : Run) : list TranscriptSegment :=
  match run_audio w with
  | Ok _ => transcript_segments (run_transcription w)
  | Throw _ => []
  end.

(** The clips a run publishes from the candidates [rawClips]. *)
Definition published (w : Run) (order : SortOrder) (rawClips : list RawClip)
  : list VideoClip :=
  sortClips
    (map_indexed (embedded_clip w) 0
       (map_indexed (stamp (run_duration w) (run_now w)) 0 rawClips))
    order.

(** The state after a run whose frames were extracted and whose visual
    analysis answered with candidates. *)
Lemma handleFileSelect_completes source w st frames rawClips :
  run_frames w = Ok frames ->
  run_visual w = Parsed rawClips ->
  run (handleFileSelect source w) st =
    {| appState := READY;
       clips := published w (sortOrder st) rawClips;
       activeClip := hd_error (published w (sortOrder st) rawClips);
       progressState := {| stage := "Indexing into vector database...";
                           progress := 90 |};
       transcript := stored_transcript w;
       searchQuery := searchQuery st;
       isSearching := isSearching st;
       filteredClips := published w (sortOrder st) rawClips;
       sortOrder := sortOrder st;
       activeSidebarTab := activeSidebarTab st;
       comments := match source with youtube => MOCK_COMMENTS | upload => [] end;
       commentAnalysis := None |}.
Proof.
  intros Hframes Hvisual.
  unfold run, handleFileSelect, mbind, M_bind, try_, set, await, mret, M_ret.
  cbn. rewrite Hframes, Hvisual. cbn.
  rewrite generateTranscript_total, Promise_all_embedClip.
  match goal with
  | |- context [fold_left ?f ?ps (setProgress ?pr ?s)] =>
      destruct (progress_reports "Extracting frames..." ps pr s) as [pr' Hpr];
      cbn in Hpr; rewrite Hpr
  end.
  unfold stored_transcript, published.
  destruct (run_audio w); cbn;
    destruct (sortClips _ (sortOrder st)); reflexivity.
Qed.

(** The same run with other answers from the audio extraction and the
    transcription. *)
Definition with_transcription (w : Run) (audio : outcome string)
    (transcription : generated (list TranscriptSegment)) : Run :=
  {| run_progress := run_progress w; run_frames := run_frames w;
     run_duration := run_duration w; run_visual := run_visual w;
     run_now := run_now w; run_audio := audio;
     run_transcription := transcription; run_embedding := run_embedding w |}.

(** The transcription step fails: the audio extraction throws, the backend
    call throws, or its answer does not parse. *)
Definition transcription_fails (w : Run) : Prop :=
  (exists e, run_audio w = Throw e)
  \/ run_transcription w = Rejected
  \/ run_transcription w = Malformed.

Lemma stored_transcript_failed w : transcription_fails w -> stored_transcript w = [].
Proof.
  unfold stored_transcript.
  intros [[e He]|[H|H]]; [now rewrite He| |]; rewrite H; now destruct (run_audio w).
Qed.

(** C5.  When the transcription step fails in a run that got its frames and
    its clip candidates, the run still completes: the handler does not
    reject, the transcript is empty, the state is [READY], and the clips
    published are the ones any other answer of the transcription step would
    have given. *)
Theorem transcription_failure_absorbed (source : Source) (w : Run) (st : State)
    (frames : list VideoFrame) (rawClips : list RawClip) :
  run_frames w = Ok frames ->
  run_visual w = Parsed rawClips ->
  transcription_fails w ->
  let st' := run (handleFileSelect source w) st in
  rejects (handleFileSelect source w) st = false
  /\ transcript st' = []
  /\ appState st' = READY
  /\ clips st' = published w (sortOrder st) rawClips
  /\ filteredClips st' = clips st'
  /\ (forall audio transcription,
        clips (run (handleFileSelect source (with_transcription w audio transcription)) st)
        = clips st').
Proof.
  intros Hframes Hvisual Hfail st'.
  assert (Hst : st' = run (handleFileSelect source w) st) by reflexivity.
  rewrite (handleFileSelect_completes source w st frames rawClips Hframes Hvisual)
    in Hst.
  split.
  { unfold rejects, handleFileSelect, mbind, M_bind, try_, set, await, mret, M_ret.
    cbn. rewrite Hframes, Hvisual. cbn.
    rewrite generateTranscript_total, Promise_all_embedClip.
    destruct (run_audio w); cbn;
      destruct (sortClips _ (sortOrder st)); reflexivity. }
  rewrite Hst. cbn.
  split; [now apply stored_transcript_failed|].
  repeat split.
  intros audio transcription.
  rewrite (handleFileSelect_completes source _ st frames rawClips); auto.
Qed.

(** C6.  When the visual-analysis call throws, the run ends in [ERROR] with
    the values the handler reset at its start: no clip, no active clip, no
    transcript; the selection effect leaves that state alone. *)
Theorem visual_failure_aborts (source : Source) (w : Run) (st : State) :
  run_visual w = Rejected ->
  let st' := run (handleFileSelect source w) st in
  appState st' = ERROR
  /\ clips st' = []
  /\ activeClip st' = None
  /\ transcript st' = []
  /\ autoSelect st' = st'.
Proof.
  intros Hvisual st'. subst st'.
  unfold run, handleFileSelect, mbind, M_bind, try_, set, await, mret, M_ret.
  cbn. rewrite Hvisual.
  match goal with
  | |- context [fold_left ?f ?ps (setProgress ?pr ?s)] =>
      destruct (progress_reports "Extracting frames..." ps pr s) as [pr' Hpr];
      cbn in Hpr; rewrite Hpr
  end.
  destruct (run_frames w); cbn; repeat split.
Qed.

Lemma map_indexed_Forall {A B} (P : B -> Prop) (f : nat -> A -> B) :
  (forall i x, P (f i x)) -> forall l i, Forall P (map_indexed f i l).
Proof.
  intros HP l. induction l as [|x l IH]; intros i; simpl; constructor; auto.
Qed.

(** C10.  [generateEmbedding] answers with a vector whatever the backend
    does: the backend's values when it sent some, the empty vector when the
    call throws or the answer carries no values.  So the fan-in over the
    clips resolves, and a run that got its frames and candidates reaches
    [READY] with one published clip per candidate, each carrying an
    embedding. *)
Theorem generateEmbedding_total_pipeline_safe :
  (forall backend, generateEmbedding backend = Ok (embedding_values backend))
  /\ (forall values, generateEmbedding (EmbedResponse (Some (Some values))) = Ok values)
  /\ generateEmbedding EmbedRejected = Ok []
  /\ generateEmbedding (EmbedResponse None) = Ok []
  /\ generateEmbedding (EmbedResponse (Some None)) = Ok []
  /\ (forall w generatedClips,
        exists clipsWithEmbeddings,
          Promise_all (map_indexed (embedClip w) 0 generatedClips)
          = Ok clipsWithEmbeddings
          /\ length clipsWithEmbeddings = length generatedClips)
  /\ (forall source w st frames rawClips,
        run_frames w = Ok frames ->
        run_visual w = Parsed rawClips ->
        let st' := run (handleFileSelect source w) st in
        rejects (handleFileSelect source w) st = false
        /\ appState st' = READY
        /\ length (clips st') = length rawClips
        /\ Forall (fun c => exists e, embedding c = Some e) (clips st')).
Proof.
  split; [exact generateEmbedding_total|].
  do 4 (split; [reflexivity|]).
  split.
  { intros w generatedClips. eexists. split; [apply Promise_all_embedClip|].
    apply AnalyzeFacts.map_indexed_length. }
  intros source w st frames rawClips Hframes Hvisual st'.
  assert (Hst : st' = run (handleFileSelect source w) st) by reflexivity.
  rewrite (handleFileSelect_completes source w st frames rawClips Hframes Hvisual)
    in Hst.
  split.
  { unfold rejects, handleFileSelect, mbind, M_bind, try_, set, await, mret, M_ret.
    cbn. rewrite Hframes, Hvisual. cbn.
    rewrite generateTranscript_total, Promise_all_embedClip.
    destruct (run_audio w); cbn;
      destruct (sortClips _ (sortOrder st)); reflexivity. }
  rewrite Hst. cbn. split; [reflexivity|]. unfold published. split.
  - rewrite SortFacts.sortClips_length.
    now rewrite !AnalyzeFacts.map_indexed_length.
  - eapply Permutation_Forall; [symmetry; apply SortFacts.sortClips_perm|].
    apply map_indexed_Forall. intros i c. eexists. reflexivity.
Qed.

(** *** Runs to try the pipeline on *)

Definition candidate (start finish v : Q) (name : string) : RawClip :=
  {| raw_startTime := start; raw_endTime := finish; raw_title := name;
     raw_summary := "summary"; raw_viralityScore := v; raw_reasoning := "why";
     raw_tags := ["a"; "b"]; raw_transcriptStub := "stub" |}.

Definition five : list RawClip :=
  [ candidate 0 5 10 "one"; candidate 5 10 20 "two"; candidate 10 15 30 "three";
    candidate 15 20 40 "four"; candidate 20 25 50 "five" ].

(** Frames and candidates arrive; the audio extraction throws; the third
    embedding call throws. *)
Definition lossy : Run :=
  {| run_progress := [0; 50; 99];
     run_frames := Ok [ {| timestamp := 0; data := "" |} ];
     run_duration := 30;
     run_visual := Parsed five;
     run_now := 17;
     run_audio := Throw "ffmpeg";
     run_transcription := Rejected;
     run_embedding := fun index _ =>
       if (index =? 2)%nat then EmbedRejected
       else EmbedResponse (Some (Some [1; 0])) |}.

(** The visual analysis throws. *)
Definition blind : Run :=
  {| run_progress := [0; 50; 99];
     run_frames := Ok [ {| timestamp := 0; data := "" |} ];
     run_duration := 30;
     run_visual := Rejected;
     run_now := 17;
     run_audio := Ok "audio";
     run_transcription := Parsed [];
     run_embedding := fun _ _ => EmbedResponse (Some (Some [1; 0])) |}.

(** A session that is over: one clip shown, one transcript segment. *)
Definition previous : State :=
  let old := {| id := "old"; startTime := 0; endTime := 1; title := "";
                summary := ""; viralityScore := 1; reasoning := ""; tags := [];
                transcriptStub := ""; embedding := Some []; score := None |} in
  {| appState := READY; clips := [old]; activeClip := Some old;
     progressState := {| stage := "Indexing into vector database...";
                         progress := 90 |};
     transcript := [ {| seg_startTime := 0; seg_endTime := 1; seg_text := "hi" |} ];
     searchQuery := ""; isSearching := false; filteredClips := [old];
     sortOrder := time; activeSidebarTab := tab_clips; comments := [];
     commentAnalysis := None |}.

Lemma transcription_failure_absorbed_witness :
  rejects (handleFileSelect upload lossy) previous = false
  /\ transcript (run (handleFileSelect upload lossy) previous) = []
  /\ appState (run (handleFileSelect upload lossy) previous) = READY
  /\ clips (run (handleFileSelect upload lossy) previous)
     = published lossy (sortOrder previous) five
  /\ filteredClips (run (handleFileSelect upload lossy) previous)
     = clips (run (handleFileSelect upload lossy) previous)
  /\ (forall audio transcription,
        clips (run (handleFileSelect upload
                      (with_transcription lossy audio transcription)) previous)
        = clips (run (handleFileSelect upload lossy) previous)).
Proof.
  apply (transcription_failure_absorbed upload lossy previous
           [ {| timestamp := 0; data := "" |} ] five).
  - reflexivity.
  - reflexivity.
  - left. exists "ffmpeg". reflexivity.
Defined.

Lemma visual_failure_aborts_witness :
  appState (run (handleFileSelect upload blind) previous) = ERROR
  /\ clips (run (handleFileSelect upload blind) previous) = []
  /\ activeClip (run (handleFileSelect upload blind) previous) = None
  /\ transcript (run (handleFileSelect upload blind) previous) = []
  /\ autoSelect (run (handleFileSelect upload blind) previous)
     = run (handleFileSelect upload blind) previous.
Proof.
  apply (visual_failure_aborts upload blind previous). reflexivity.
Defined.

(** Five candidates, the third embedding call failing: five clips are
    published, the third with the empty vector. *)
Example five_clips_one_failed_embedding :
  appState (run (handleFileSelect upload lossy) previous) = READY
  /\ List.map (fun c => (title c, embedding c))
       (clips (run (handleFileSelect upload lossy) previous))
     = [ ("one", Some [1; 0]); ("two", Some [1; 0]); ("three", Some []);
         ("four", Some [1; 0]); ("five", Some [1; 0]) ].
Proof. split; reflexivity. Qed.

(** The list shown before a failed run is not reset by the handler; it is
    rendered in [READY] only. *)
Example visual_failure_keeps_filteredClips :
  filteredClips (run (handleFileSelect upload blind) previous)
  = filteredClips previous.
Proof. reflexivity. Qed.

End PipelineFacts.

(** ** Search: [handleSearch] *)

Module SearchFacts.
Import App geminiService.
Local Open Scope Q_scope.

Lemma falsy_false s : Str.falsy s = false <-> s <> "".
Proof. destruct s; simpl; split; congruence. Qed.

Lemma get_score_with_score c s : get_score (with_score c s) = s.
Proof. reflexivity. Qed.

Lemma prefix_refl s : String.prefix s s = true.
Proof.
  induction s as [|a s IH]; simpl; [reflexivity|].
  destruct (ascii_dec a a); [assumption|congruence].
Qed.

Lemma includes_refl s : Str.includes s s = true.
Proof.
  pose proof (prefix_refl s) as H.
  destruct s; [reflexivity|]. unfold Str.includes; fold Str.includes.
  now rewrite H.
Qed.

Section Ranking.
Variables (trim toLowerCase : string -> string).
Variable cosineSimilarity : list Q -> list Q -> Q.

Local Abbreviation scoreClip := (App.scoreClip cosineSimilarity).
Local Abbreviation boostClip := (App.boostClip toLowerCase).
Local Abbreviation relevant := (App.relevant toLowerCase).
Local Abbreviation hasStubMatch := (App.hasStubMatch toLowerCase).
Local Abbreviation matchingTranscriptSegments :=
  (App.matchingTranscriptSegments toLowerCase).
Local Abbreviation rankClips := (App.rankClips toLowerCase cosineSimilarity).
Local Abbreviation searchFallback := (App.searchFallback toLowerCase).
Local Abbreviation handleSearch :=
  (App.handleSearch trim toLowerCase cosineSimilarity).

(** [text.toLowerCase().includes(query.toLowerCase())]: the query occurs in
    the text when letter case is ignored. *)
Definition contains_ci (text query : string) : bool :=
  Str.includes (toLowerCase text) (toLowerCase query).

Lemma contains_ci_refl s : contains_ci s s = true.
Proof. apply includes_refl. Qed.

(** The base score of a clip: what the first [map] stores. *)
Definition baseScore (queryEmbedding : list Q) (clip : VideoClip) : Q :=
  get_score (scoreClip queryEmbedding clip).

(** The ranked copy of a clip: scored, then boosted. *)
Definition rankedClip (queryEmbedding : list Q) (st : State) (clip : VideoClip)
  : VideoClip :=
  let queryLower := toLowerCase (searchQuery st) in
  boostClip queryLower (matchingTranscriptSegments queryLower (transcript st))
    (scoreClip queryEmbedding clip).

(** The final score of a clip. *)
Definition finalScore (queryEmbedding : list Q) (st : State) (clip : VideoClip) : Q :=
  get_score (rankedClip queryEmbedding st clip).

Lemma baseScore_cosine queryEmbedding c :
  baseScore queryEmbedding c
  = match embedding c with
    | Some e => cosineSimilarity queryEmbedding e
    | None => 0
    end.
Proof. reflexivity. Qed.

Lemma rankClips_unfold queryEmbedding st :
  rankClips queryEmbedding st
  = sortClips
      (List.filter (relevant (toLowerCase (searchQuery st)))
         (List.map (rankedClip queryEmbedding st) (clips st)))
      (sortOrder st).
Proof.
  unfold App.rankClips, rankedClip. now rewrite List.map_map.
Qed.

Lemma boostClip_stub queryLower matching c :
  transcriptStub (boostClip queryLower matching c) = transcriptStub c.
Proof.
  unfold App.boostClip.
  now destruct (hasTranscriptMatch matching c || hasStubMatch queryLower c).
Qed.

Lemma rankedClip_stub queryEmbedding st c :
  transcriptStub (rankedClip queryEmbedding st c) = transcriptStub c.
Proof. unfold rankedClip. now rewrite boostClip_stub. Qed.

(** A ranked copy differs from its clip in the score only. *)
Lemma rankedClip_with_score queryEmbedding st c :
  rankedClip queryEmbedding st c
  = with_score c (finalScore queryEmbedding st c).
Proof.
  unfold finalScore, rankedClip, App.boostClip.
  destruct (hasTranscriptMatch _ _ || hasStubMatch _ _); reflexivity.
Qed.

Lemma relevant_rankedClip queryEmbedding st c :
  relevant (toLowerCase (searchQuery st)) (rankedClip queryEmbedding st c) = true
  <-> threshold < finalScore queryEmbedding st c
      \/ contains_ci (transcriptStub c) (searchQuery st) = true.
Proof.
  unfold App.relevant. rewrite orb_true_iff, gtb_gt, rankedClip_stub. reflexivity.
Qed.

(** *** The handler of one render, run from another state

    [handleSearch] reads the render [st0] that created it and sets its
    result on the state [st] of the day. *)

(** [if (activeSidebarTab !== 'clips') setActiveSidebarTab('clips')] *)
Definition open_clips_tab (st0 st : State) : State :=
  match activeSidebarTab st0 with
  | tab_clips => st
  | _ => setActiveSidebarTab tab_clips st
  end.

Lemma handleSearch_closure backend st0 st :
  trim (searchQuery st0) <> "" ->
  handleSearch backend st0 st
  = (Ok tt,
     setIsSearching false
       (open_clips_tab st0
          (setFilteredClips
             (rankClips (PipelineFacts.embedding_values backend) st0)
             (setIsSearching true st)))).
Proof.
  intros Hq. apply falsy_false in Hq.
  unfold App.handleSearch. rewrite Hq.
  unfold mbind, M_bind, finally_, try_, set, await, mret, M_ret.
  rewrite PipelineFacts.generateEmbedding_total.
  unfold open_clips_tab. destruct (activeSidebarTab st0); reflexivity.
Qed.

Lemma handleSearch_closure_blank backend st0 st :
  trim (searchQuery st0) = "" ->
  handleSearch backend st0 st
  = (Ok tt, setFilteredClips (sortClips (clips st0) (sortOrder st0)) st).
Proof.
  intros Hq. unfold App.handleSearch. rewrite Hq. reflexivity.
Qed.

Lemma closure_results backend st0 st :
  trim (searchQuery st0) <> "" ->
  filteredClips (snd (handleSearch backend st0 st))
  = rankClips (PipelineFacts.embedding_values backend) st0.
Proof.
  intros Hq. rewrite handleSearch_closure by assumption.
  unfold open_clips_tab. now destruct (activeSidebarTab st0).
Qed.

Lemma closure_results_blank backend st0 st :
  trim (searchQuery st0) = "" ->
  filteredClips (snd (handleSearch backend st0 st))
  = sortClips (clips st0) (sortOrder st0).
Proof.
  intros Hq. now rewrite handleSearch_closure_blank by assumption.
Qed.

(** The handler sets the displayed list, the spinner and the tab, and
    nothing else; the list it sets is a function of its own render. *)
Lemma closure_frame backend st0 st :
  let st' := snd (handleSearch backend st0 st) in
  appState st' = appState st
  /\ clips st' = clips st
  /\ transcript st' = transcript st
  /\ activeClip st' = activeClip st
  /\ sortOrder st' = sortOrder st
  /\ searchQuery st' = searchQuery st
  /\ filteredClips st'
     = if Str.falsy (trim (searchQuery st0))
       then sortClips (clips st0) (sortOrder st0)
       else rankClips (PipelineFacts.embedding_values backend) st0.
Proof.
  destruct (Str.falsy (trim (searchQuery st0))) eqn:Hq; cbv zeta.
  - rewrite handleSearch_closure_blank
      by (destruct (trim (searchQuery st0)); [reflexivity|discriminate]).
    repeat split.
  - rewrite handleSearch_closure by now apply falsy_false.
    unfold open_clips_tab. destruct (activeSidebarTab st0); repeat split.
Qed.

(** What a search leaves behind for a query that is not blank, when it runs
    from the state of its own render. *)
Lemma handleSearch_ranks backend st :
  trim (searchQuery st) <> "" ->
  handleSearch backend st st
  = (Ok tt,
     setIsSearching false
       (setActiveSidebarTab tab_clips
          (setFilteredClips
             (rankClips (PipelineFacts.embedding_values backend) st) st))).
Proof.
  intros Hq. rewrite handleSearch_closure by assumption.
  unfold open_clips_tab.
  destruct st as [a c ac p t q i f o tab cm ca]. cbn.
  destruct tab; reflexivity.
Qed.

(** What a search leaves behind for a blank query. *)
Lemma handleSearch_blank backend st :
  trim (searchQuery st) = "" ->
  handleSearch backend st st
  = (Ok tt, setFilteredClips (sortClips (clips st) (sortOrder st)) st).
Proof. apply handleSearch_closure_blank. Qed.

Lemma search_results backend st :
  trim (searchQuery st) <> "" ->
  filteredClips (run (handleSearch backend) st)
  = rankClips (PipelineFacts.embedding_values backend) st.
Proof.
  intros Hq. unfold run. now rewrite handleSearch_ranks.
Qed.

(** Membership of a ranked copy in the result. *)
Lemma In_rankClips queryEmbedding st c :
  In c (clips st) ->
  In (rankedClip queryEmbedding st c) (rankClips queryEmbedding st)
  <-> relevant (toLowerCase (searchQuery st)) (rankedClip queryEmbedding st c)
      = true.
Proof.
  intros Hc. rewrite rankClips_unfold, SortFacts.sortClips_In, filter_In.
  split; [tauto|]. intros H. split; [|assumption].
  apply in_map. assumption.
Qed.

(** The result holds the ranked copies of the clips that pass the filter,
    and nothing else. *)
Lemma rankClips_members queryEmbedding st r :
  In r (rankClips queryEmbedding st)
  <-> exists c, In c (clips st)
                /\ r = with_score c (finalScore queryEmbedding st c)
                /\ (threshold < finalScore queryEmbedding st c
                    \/ contains_ci (transcriptStub c) (searchQuery st) = true).
Proof.
  rewrite rankClips_unfold, SortFacts.sortClips_In, filter_In, in_map_iff.
  split.
  - intros [(c & Heq & Hc) Hrel]. subst r. exists c. split; [assumption|].
    split; [apply rankedClip_with_score|]. now apply relevant_rankedClip.
  - intros (c & Hc & Heq & Hkeep). rewrite <- rankedClip_with_score in Heq.
    subst r. split; [exists c; split; [reflexivity|assumption]|].
    now apply relevant_rankedClip.
Qed.

(** *** Retention *)

(** C3 (amended).  Let the handler of the render [st0] run, from any state.
    When the query is not blank (not empty once trimmed), the search keeps
    the ranked copy of a clip of the session exactly when its final score
    exceeds 0.3 or its [transcriptStub] contains the query, letter case
    ignored; so a clip whose stub contains the query is kept whatever its
    embedding and base score; and nothing but ranked copies of the session's
    clips is kept.  When the query is blank (white space only, or empty) no
    filter is applied: the result is the sorted list of all the clips. *)
Theorem search_retains_relevant (backend : embedded) (st0 st : State)
    (c : VideoClip) :
  In c (clips st0) ->
  let queryEmbedding := PipelineFacts.embedding_values backend in
  let results := filteredClips (snd (handleSearch backend st0 st)) in
  threshold == 0.3
  /\ (trim (searchQuery st0) <> "" ->
      (In (rankedClip queryEmbedding st0 c) results
       <-> threshold < finalScore queryEmbedding st0 c
           \/ contains_ci (transcriptStub c) (searchQuery st0) = true)
      /\ (contains_ci (transcriptStub c) (searchQuery st0) = true ->
          In (rankedClip queryEmbedding st0 c) results)
      /\ (forall r, In r results ->
            exists c', In c' (clips st0) /\ r = rankedClip queryEmbedding st0 c'))
  /\ (trim (searchQuery st0) = "" ->
      results = sortClips (clips st0) (sortOrder st0)
      /\ In c results
      /\ (forall r, In r results <-> In r (clips st0))).
Proof.
  intros Hc queryEmbedding results. split; [reflexivity|].
  split; intros Hq.
  - assert (Hres : results = rankClips queryEmbedding st0)
      by (apply closure_results; assumption).
    rewrite Hres.
    assert (Hiff : In (rankedClip queryEmbedding st0 c) (rankClips queryEmbedding st0)
                   <-> threshold < finalScore queryEmbedding st0 c
                       \/ contains_ci (transcriptStub c) (searchQuery st0) = true).
    { rewrite In_rankClips by assumption. apply relevant_rankedClip. }
    split; [exact Hiff|]. split.
    + intros Hstub. apply Hiff. now right.
    + intros r Hr. rewrite rankClips_unfold, SortFacts.sortClips_In in Hr.
      apply filter_In in Hr. destruct Hr as [Hr _].
      apply in_map_iff in Hr. destruct Hr as (c' & Heq & Hc').
      exists c'. split; [assumption|now symmetry].
  - assert (Hres : results = sortClips (clips st0) (sortOrder st0))
      by (apply closure_results_blank; assumption).
    rewrite Hres. split; [reflexivity|]. split.
    + now apply SortFacts.sortClips_In.
    + intros r. apply SortFacts.sortClips_In.
Qed.

(** *** The boost *)

(** The segment and the clip overlap: the segment starts inside the clip's
    span, or ends inside it, or covers it. *)
Definition overlap (clip : VideoClip) (seg : TranscriptSegment) : Prop :=
  (startTime clip <= seg_startTime seg /\ seg_startTime seg < endTime clip)
  \/ (startTime clip < seg_endTime seg /\ seg_endTime seg <= endTime clip)
  \/ (seg_startTime seg <= startTime clip /\ endTime clip <= seg_endTime seg).

(** The two grounds for a boost. *)
Definition boosted (query : string) (transcript : list TranscriptSegment)
    (clip : VideoClip) : Prop :=
  (exists seg, In seg transcript
               /\ contains_ci (seg_text seg) query = true
               /\ overlap clip seg)
  \/ contains_ci (transcriptStub clip) query = true.

Lemma overlaps_overlap clip seg : overlaps clip seg = true <-> overlap clip seg.
Proof.
  unfold overlaps, overlap.
  rewrite !orb_true_iff, !andb_true_iff, !geb_ge, !leb_le, ltb_lt, gtb_gt.
  tauto.
Qed.

Lemma hasTranscriptMatch_iff query transcript clip :
  hasTranscriptMatch
    (matchingTranscriptSegments (toLowerCase query) transcript) clip = true
  <-> exists seg, In seg transcript
                  /\ contains_ci (seg_text seg) query = true
                  /\ overlap clip seg.
Proof.
  unfold hasTranscriptMatch, App.matchingTranscriptSegments.
  rewrite existsb_exists. split.
  - intros (seg & Hin & Hov). apply filter_In in Hin. destruct Hin as [Hin Htext].
    exists seg. repeat split; [assumption|assumption|now apply overlaps_overlap].
  - intros (seg & Hin & Htext & Hov). exists seg. split.
    + apply filter_In. split; assumption.
    + now apply overlaps_overlap.
Qed.

Lemma boost_condition queryEmbedding st c :
  hasTranscriptMatch
    (matchingTranscriptSegments (toLowerCase (searchQuery st)) (transcript st))
    (scoreClip queryEmbedding c)
  || hasStubMatch (toLowerCase (searchQuery st)) (scoreClip queryEmbedding c)
  = true
  <-> boosted (searchQuery st) (transcript st) c.
Proof.
  rewrite orb_true_iff. unfold boosted.
  rewrite <- hasTranscriptMatch_iff. reflexivity.
Qed.

Lemma finalScore_boosted queryEmbedding st c :
  boosted (searchQuery st) (transcript st) c ->
  finalScore queryEmbedding st c = baseScore queryEmbedding c + 0.5.
Proof.
  intros Hb. apply boost_condition with (queryEmbedding := queryEmbedding) in Hb.
  unfold finalScore, rankedClip, App.boostClip, baseScore. now rewrite Hb.
Qed.

Lemma finalScore_plain queryEmbedding st c :
  ~ boosted (searchQuery st) (transcript st) c ->
  finalScore queryEmbedding st c = baseScore queryEmbedding c.
Proof.
  intros Hb. rewrite <- (boost_condition queryEmbedding) in Hb.
  apply not_true_is_false in Hb.
  unfold finalScore, rankedClip, App.boostClip, baseScore. now rewrite Hb.
Qed.

Lemma boosted_dec query transcript c :
  boosted query transcript c \/ ~ boosted query transcript c.
Proof.
  pose (st := setTranscript transcript (setSearchQuery query initialState)).
  pose proof (boost_condition [] st c) as H. cbn in H.
  destruct (_ || _) in H; [left; now apply H|right].
  intros Hb. apply H in Hb. discriminate.
Qed.

Lemma finalScore_step queryEmbedding st c :
  finalScore queryEmbedding st c - baseScore queryEmbedding c == 0.5
  <-> boosted (searchQuery st) (transcript st) c.
Proof.
  destruct (boosted_dec (searchQuery st) (transcript st) c) as [Hb|Hb].
  - rewrite (finalScore_boosted _ _ _ Hb). split; [tauto|]. intros _. lra.
  - rewrite (finalScore_plain _ _ _ Hb). split; [|tauto]. intros H.
    exfalso. assert (H0 : 0 == 0.5) by lra. discriminate H0.
Qed.

(** A clip of the session is in the result, with its final score, exactly
    when it passes the filter. *)
Lemma ranked_member queryEmbedding st c s :
  In c (clips st) ->
  finalScore queryEmbedding st c = s ->
  In (with_score c s) (rankClips queryEmbedding st)
  <-> threshold < s \/ contains_ci (transcriptStub c) (searchQuery st) = true.
Proof.
  intros Hc <-. rewrite <- rankedClip_with_score.
  rewrite In_rankClips by assumption. apply relevant_rankedClip.
Qed.

(** C4 (amended).  Let the handler of the render [st0] run, from any state.
    When the query is not blank, the score of a clip is its base score (the
    cosine similarity with the query, 0 without an embedding) plus 0.5,
    added once, exactly when a transcript segment whose text contains the
    query overlaps the clip (starts inside its span, ends inside it, or
    covers it) or the clip's own [transcriptStub] contains the query,
    letter case ignored; otherwise it is the base score.  The result of the
    search holds the clips that pass the filter (a score above 0.3, or the
    query in the stub), each with that score, and nothing else: a boosted
    clip is in it with its base score plus 0.5, a clip that is not boosted
    with its base score.  With the segment from 10 to 20 saying "launch", a clip
    spanning 5 to 15 is boosted by a search for "launch".  When the query is
    blank nothing is scored or boosted: the result holds the clips as they
    are stored. *)
Theorem boost_is_half_once (backend : embedded) (st0 st : State) :
  let queryEmbedding := PipelineFacts.embedding_values backend in
  let results := filteredClips (snd (handleSearch backend st0 st)) in
  (trim (searchQuery st0) <> "" ->
   (forall c,
      baseScore queryEmbedding c
      = match embedding c with
        | Some e => cosineSimilarity queryEmbedding e
        | None => 0
        end
      /\ (boosted (searchQuery st0) (transcript st0) c ->
          finalScore queryEmbedding st0 c = baseScore queryEmbedding c + 0.5)
      /\ (~ boosted (searchQuery st0) (transcript st0) c ->
          finalScore queryEmbedding st0 c = baseScore queryEmbedding c)
      /\ (finalScore queryEmbedding st0 c - baseScore queryEmbedding c == 0.5
          <-> boosted (searchQuery st0) (transcript st0) c))
   /\ (forall c,
         In c (clips st0) ->
         (boosted (searchQuery st0) (transcript st0) c ->
          (In (with_score c (baseScore queryEmbedding c + 0.5)) results
           <-> threshold < baseScore queryEmbedding c + 0.5
               \/ contains_ci (transcriptStub c) (searchQuery st0) = true))
         /\ (~ boosted (searchQuery st0) (transcript st0) c ->
             (In (with_score c (baseScore queryEmbedding c)) results
              <-> threshold < baseScore queryEmbedding c)))
   /\ (forall r,
         In r results
         <-> exists c,
               In c (clips st0)
               /\ r = with_score c (finalScore queryEmbedding st0 c)
               /\ (threshold < finalScore queryEmbedding st0 c
                   \/ contains_ci (transcriptStub c) (searchQuery st0) = true))
   /\ (searchQuery st0 = "launch" ->
       transcript st0 = [ {| seg_startTime := 10; seg_endTime := 20;
                             seg_text := "launch" |} ] ->
       forall c,
         In c (clips st0) -> startTime c == 5 -> endTime c == 15 ->
         finalScore queryEmbedding st0 c = baseScore queryEmbedding c + 0.5
         /\ (threshold < baseScore queryEmbedding c + 0.5 ->
             In (with_score c (baseScore queryEmbedding c + 0.5)) results)))
  /\ (trim (searchQuery st0) = "" ->
      results = sortClips (clips st0) (sortOrder st0)
      /\ (forall r, In r results <-> In r (clips st0))).
Proof.
  intros queryEmbedding results. split; intros Hq.
  - assert (Hres : results = rankClips queryEmbedding st0)
      by (apply closure_results; assumption).
    split; [|split; [|split]].
    + intros c. split; [reflexivity|]. split; [apply finalScore_boosted|].
      split; [apply finalScore_plain|apply finalScore_step].
    + intros c Hc. rewrite Hres. split; intros Hb.
      * apply ranked_member; [assumption|now apply finalScore_boosted].
      * rewrite ranked_member;
          [|assumption|now apply finalScore_plain].
        split; [|now left]. intros [Hs|Hstub]; [assumption|].
        exfalso. apply Hb. now right.
    + intros r. rewrite Hres. apply rankClips_members.
    + intros Hquery Ht c Hc Hs He.
      assert (Hb : boosted (searchQuery st0) (transcript st0) c).
      { left. rewrite Hquery, Ht.
        eexists. split; [left; reflexivity|]. split; [apply contains_ci_refl|].
        unfold overlap. simpl. left. split; lra. }
      pose proof (finalScore_boosted queryEmbedding st0 c Hb) as Hfinal.
      split; [exact Hfinal|]. intros Hkeep.
      rewrite Hres. apply rankClips_members. exists c.
      split; [assumption|]. rewrite Hfinal. split; [reflexivity|now left].
  - assert (Hres : results = sortClips (clips st0) (sortOrder st0))
      by (apply closure_results_blank; assumption).
    rewrite Hres. split; [reflexivity|]. intros r. apply SortFacts.sortClips_In.
Qed.

(** *** A failed query embedding *)

(** The query embedding could not be had: the call threw, or the answer
    carries no values. *)
Definition embedding_fails (backend : embedded) : Prop :=
  backend = EmbedRejected
  \/ backend = EmbedResponse None
  \/ backend = EmbedResponse (Some None).

Lemma embedding_fails_values backend :
  embedding_fails backend -> PipelineFacts.embedding_values backend = [].
Proof. intros [H|[H|H]]; now rewrite H. Qed.

(** When the embedding of a query that is not blank cannot be had the
    handler does not reach its [catch] block: [generateEmbedding] has
    answered with the empty vector and the [try] block ranks with it.  A
    clip with an embedding [e] that a matching segment overlaps is scored
    [cosineSimilarity [] e + 0.5], and is kept when that exceeds 0.3,
    whatever its stub says. *)
Lemma embedding_failure_ranks backend st0 st :
  embedding_fails backend ->
  trim (searchQuery st0) <> "" ->
  let st' := snd (handleSearch backend st0 st) in
  fst (handleSearch backend st0 st) = Ok tt
  /\ isSearching st' = false
  /\ filteredClips st' = rankClips [] st0
  /\ SortFacts.ordered (SortFacts.sortKey (sortOrder st0)) (filteredClips st')
  /\ (forall c, In c (clips st0) ->
        contains_ci (transcriptStub c) (searchQuery st0) = true ->
        In (rankedClip [] st0 c) (filteredClips st'))
  /\ (forall c e seg,
        In c (clips st0) -> embedding c = Some e ->
        In seg (transcript st0) ->
        contains_ci (seg_text seg) (searchQuery st0) = true ->
        overlap c seg ->
        threshold < cosineSimilarity [] e + 0.5 ->
        In (with_score c (cosineSimilarity [] e + 0.5)) (filteredClips st')).
Proof.
  intros Hfail Hq st'.
  pose proof (handleSearch_closure backend st0 st Hq) as Hrun.
  pose proof (closure_results backend st0 st Hq) as Hres.
  rewrite (embedding_fails_values backend Hfail) in Hrun, Hres.
  subst st'. rewrite Hres. rewrite Hrun. cbn [fst snd].
  split; [reflexivity|]. split; [reflexivity|]. split; [reflexivity|].
  split; [unfold App.rankClips; apply SortFacts.sortClips_ordered|]. split.
  - intros c Hc Hstub. apply In_rankClips; [assumption|].
    apply relevant_rankedClip. now right.
  - intros c e seg Hc He Hseg Htext Hov Hkeep.
    assert (Hb : boosted (searchQuery st0) (transcript st0) c)
      by (left; exists seg; auto).
    pose proof (finalScore_boosted [] st0 c Hb) as Hfinal.
    rewrite baseScore_cosine, He in Hfinal.
    apply rankClips_members. exists c. split; [assumption|].
    rewrite Hfinal. split; [reflexivity|now left].
Qed.

End Ranking.

(** *** Sessions to run the search on

    Each session is what [handleFileSelect] leaves when the run succeeds,
    with a query typed in afterwards. *)

Definition candidate (start finish : Q) (stub : string) : RawClip :=
  {| raw_startTime := start; raw_endTime := finish; raw_title := "title";
     raw_summary := "summary"; raw_viralityScore := 50; raw_reasoning := "why";
     raw_tags := []; raw_transcriptStub := stub |}.

(** A run of the pipeline on a video of one minute: the visual analysis
    answers [raws], the transcription [ts], and the embedding call of the
    clip at each index answers [e index]. *)
Definition filmed (raws : list RawClip) (ts : list TranscriptSegment)
    (e : nat -> list Q) : Run :=
  {| run_progress := [0; 50];
     run_frames := Ok [ {| timestamp := 0; data := "" |} ];
     run_duration := 60;
     run_visual := Parsed raws;
     run_now := 0;
     run_audio := Ok "audio";
     run_transcription := Parsed ts;
     run_embedding := fun index _ => EmbedResponse (Some (Some (e index))) |}.

Definition session (query : string) (raws : list RawClip)
    (ts : list TranscriptSegment) (e : nat -> list Q) : State :=
  setSearchQuery query
    (run (handleFileSelect upload (filmed raws ts e)) initialState).

(** The clip the pipeline stores for the candidate at [index]. *)
Definition stored (index : nat) (raw : RawClip) (e : list Q) : VideoClip :=
  with_embedding (stamp 60 0 index raw) e.

Definition answered : embedded := EmbedResponse (Some (Some [1; 0])).

(** A zero embedding. *)
Definition clipA : VideoClip := stored 0 (candidate 0 5 "exact phrase here") [0; 0].
Definition sessionA : State :=
  session "exact phrase" [candidate 0 5 "exact phrase here"] [] (fun _ => [0; 0]).

Definition clipB : VideoClip := stored 0 (candidate 0 5 "abc") [0; 1].
Definition sessionBlank : State :=
  session " " [candidate 0 5 "abc"] [] (fun _ => [0; 1]).

Definition clipS : VideoClip := stored 0 (candidate 0 5 "a b") [0; 1].
Definition sessionSpace : State :=
  session " " [candidate 0 5 "a b"] [] (fun _ => [0; 1]).

Definition launchSegment : TranscriptSegment :=
  {| seg_startTime := 10; seg_endTime := 20; seg_text := "launch" |}.
Definition clipL : VideoClip := stored 0 (candidate 5 15 "the intro") [0; 1].
Definition sessionLaunch : State :=
  session "launch" [candidate 5 15 "the intro"] [launchSegment] (fun _ => [0; 1]).

Example sessions_hold_their_clips :
  clips sessionA = [clipA] /\ appState sessionA = READY
  /\ clips sessionBlank = [clipB] /\ appState sessionBlank = READY
  /\ clips sessionSpace = [clipS] /\ appState sessionSpace = READY
  /\ clips sessionLaunch = [clipL] /\ appState sessionLaunch = READY
  /\ transcript sessionLaunch = [launchSegment].
Proof. repeat split. Qed.

Local Abbreviation search :=
  (App.handleSearch Str.trim Str.toLowerCase vectorUtils.cosineSimilarity).
Local Abbreviation ranked :=
  (rankedClip Str.toLowerCase vectorUtils.cosineSimilarity).
Local Abbreviation final :=
  (finalScore Str.toLowerCase vectorUtils.cosineSimilarity).
Local Abbreviation base := (baseScore vectorUtils.cosineSimilarity).
Local Abbreviation contains := (contains_ci Str.toLowerCase).

(** The spec's example for C3: a stub hit with a zero embedding. *)
Lemma search_retains_relevant_witness :
  In clipA (clips sessionA)
  /\ Str.trim (searchQuery sessionA) <> ""
  /\ base [1; 0] clipA == 0
  /\ contains (transcriptStub clipA) (searchQuery sessionA) = true
  /\ In (ranked [1; 0] sessionA clipA)
        (filteredClips (snd (search answered sessionA sessionA))).
Proof.
  assert (Hc : In clipA (clips sessionA)) by (left; reflexivity).
  assert (Hq : Str.trim (searchQuery sessionA) <> "") by (vm_compute; discriminate).
  assert (Hstub : contains (transcriptStub clipA) (searchQuery sessionA) = true)
    by reflexivity.
  split; [exact Hc|]. split; [exact Hq|]. split; [reflexivity|].
  split; [exact Hstub|].
  destruct (search_retains_relevant Str.trim Str.toLowerCase
              vectorUtils.cosineSimilarity answered sessionA sessionA clipA Hc)
    as (_ & Hranked & _).
  destruct (Hranked Hq) as (_ & Hkept & _). exact (Hkept Hstub).
Defined.

Example clipA_base_score_zero : base [1; 0] clipA == 0.
Proof. reflexivity. Qed.

(** C3, as stated, fails on a query of one space: the query is not empty,
    the clip's stub holds no space, the clip carries no score and the
    ranking would give it 0, and the search keeps the clip. *)
Lemma blank_query_keeps_every_clip :
  searchQuery sessionBlank = " "
  /\ searchQuery sessionBlank <> ""
  /\ In clipB (clips sessionBlank)
  /\ filteredClips (snd (search answered sessionBlank sessionBlank)) = [clipB]
  /\ score clipB = None
  /\ ~ (threshold < final [1; 0] sessionBlank clipB)
  /\ contains (transcriptStub clipB) (searchQuery sessionBlank) = false.
Proof.
  split; [reflexivity|]. split; [discriminate|]. split; [left; reflexivity|].
  split; [reflexivity|]. split; [reflexivity|]. split; [|reflexivity].
  vm_compute. discriminate.
Qed.

(** The spec's example for C4, run through the search: the segment from 10
    to 20 says "launch", the clip spans 5 to 15 and its stub does not hold
    the word. *)
Lemma boost_is_half_once_witness :
  Str.trim (searchQuery sessionLaunch) <> ""
  /\ In clipL (clips sessionLaunch)
  /\ final [1; 0] sessionLaunch clipL = base [1; 0] clipL + 0.5
  /\ In (with_score clipL (base [1; 0] clipL + 0.5))
        (filteredClips (snd (search answered sessionLaunch sessionLaunch))).
Proof.
  assert (Hq : Str.trim (searchQuery sessionLaunch) <> "")
    by (vm_compute; discriminate).
  assert (Hc : In clipL (clips sessionLaunch)) by (left; reflexivity).
  split; [exact Hq|]. split; [exact Hc|].
  destruct (boost_is_half_once Str.trim Str.toLowerCase
              vectorUtils.cosineSimilarity answered sessionLaunch sessionLaunch)
    as [Hranked _].
  destruct (Hranked Hq) as (_ & _ & _ & Hlaunch).
  destruct (Hlaunch eq_refl eq_refl clipL Hc) as [Hfinal Hkept];
    [reflexivity|reflexivity|].
  split; [exact Hfinal|]. apply Hkept. reflexivity.
Defined.

Example search_launch_boosts :
  List.map (fun c => (id c, Qeq_bool (get_score c) 0.5))
    (filteredClips (snd (search answered sessionLaunch sessionLaunch)))
  = [("clip-0-0", true)].
Proof. reflexivity. Qed.

(** C4, as stated, fails on a query of one space: the query is not empty
    and the clip's stub contains it, which is ground (b) for a boost, and
    the search leaves the clip as it is stored, without a score. *)
Lemma blank_query_boosts_nothing :
  searchQuery sessionSpace = " "
  /\ searchQuery sessionSpace <> ""
  /\ In clipS (clips sessionSpace)
  /\ contains (transcriptStub clipS) (searchQuery sessionSpace) = true
  /\ boosted Str.toLowerCase (searchQuery sessionSpace) (transcript sessionSpace)
       clipS
  /\ filteredClips (snd (search answered sessionSpace sessionSpace)) = [clipS]
  /\ score clipS = None.
Proof.
  split; [reflexivity|]. split; [discriminate|]. split; [left; reflexivity|].
  split; [reflexivity|]. split; [right; reflexivity|].
  split; reflexivity.
Qed.

(** C7.  The code does not do what the claim says.  The session holds one
    clip, from 5 to 15, with an embedding and a stub that does not hold the
    word "launch"; the transcript holds a segment from 10 to 20 that says
    it.  The query "launch" is typed and the embedding call throws.  The
    stub-only filter of the [catch] block would return no clip; the handler
    does not reach it and returns the clip, scored 0 + 0.5 by the [try]
    block ([cosineSimilarity] is the spec's, 0 against the empty vector).
    Whatever [trim], [toLowerCase] and [cosineSimilarity] are, a failed
    embedding of a query that is not blank ends without an error, with the
    spinner off and the result of the [try] block run on the empty
    vector. *)
Theorem embedding_failure_skips_fallback :
  (sessionLaunch
   = setSearchQuery "launch"
       (run (handleFileSelect upload
               (filmed [candidate 5 15 "the intro"] [launchSegment]
                  (fun _ => [0; 1])))
          initialState)
   /\ clips sessionLaunch = [clipL]
   /\ embedding clipL = Some [0; 1]
   /\ contains (transcriptStub clipL) (searchQuery sessionLaunch) = false
   /\ App.searchFallback Str.toLowerCase sessionLaunch = []
   /\ fst (search EmbedRejected sessionLaunch sessionLaunch) = Ok tt
   /\ filteredClips (snd (search EmbedRejected sessionLaunch sessionLaunch))
      = [with_score clipL (0 + 0.5)])
  /\ (forall (trim toLowerCase : string -> string)
             (cosineSimilarity : list Q -> list Q -> Q)
             (backend : embedded) (st0 st : State),
        embedding_fails backend ->
        trim (searchQuery st0) <> "" ->
        let st' := snd (App.handleSearch trim toLowerCase cosineSimilarity
                          backend st0 st) in
        fst (App.handleSearch trim toLowerCase cosineSimilarity backend st0 st)
        = Ok tt
        /\ isSearching st' = false
        /\ filteredClips st' = App.rankClips toLowerCase cosineSimilarity [] st0
        /\ (forall c e seg,
              In c (clips st0) -> embedding c = Some e ->
              In seg (transcript st0) ->
              contains_ci toLowerCase (seg_text seg) (searchQuery st0) = true ->
              overlap c seg ->
              threshold < cosineSimilarity [] e + 0.5 ->
              In (with_score c (cosineSimilarity [] e + 0.5)) (filteredClips st'))).
Proof.
  split; [repeat split|].
  intros trim toLowerCase cosineSimilarity backend st0 st Hfail Hq.
  destruct (embedding_failure_ranks trim toLowerCase cosineSimilarity
              backend st0 st Hfail Hq)
    as (Hok & Hspin & Hres & _ & _ & Hkept).
  cbv zeta. repeat split; assumption.
Qed.

End SearchFacts.

(** ** The search over the store: what it writes *)

Module StoreFacts.
Import App Store.
Local Open Scope Q_scope.

(** [m] runs from [h] without getting stuck and ends in a result and a
    store that satisfy [Q]. *)
Definition wp {A} (m : H A) (h : heap) (Q : A -> heap -> Prop) : Prop :=
  exists a h', m h = Some (a, h') /\ Q a h'.

Lemma wp_ret {A} (a : A) h (Q : A -> heap -> Prop) : Q a h -> wp (mret a) h Q.
Proof. intros HQ. exists a, h. split; [reflexivity|assumption]. Qed.

Lemma wp_bind {A B} (m : H A) (k : A -> H B) h (Q : B -> heap -> Prop) :
  wp m h (fun a h' => wp (k a) h' Q) -> wp (m ≫= k) h Q.
Proof.
  intros (a & h' & Hm & b & h'' & Hk & HQ). exists b, h''.
  split; [|assumption]. unfold mbind, H_bind. now rewrite Hm.
Qed.

Lemma wp_mono {A} (m : H A) h (Q Q' : A -> heap -> Prop) :
  (forall a h', Q a h' -> Q' a h') -> wp m h Q -> wp m h Q'.
Proof. intros HQ (a & h' & Hm & Ha). exists a, h'. auto. Qed.

Lemma wp_alloc c h (Q : loc -> heap -> Prop) :
  (forall l, h !! l = None -> Q l (<[l := c]> h)) -> wp (alloc c) h Q.
Proof.
  intros HQ. exists (fresh (dom h)), (<[fresh (dom h) := c]> h).
  split; [reflexivity|]. apply HQ. apply not_elem_of_dom, is_fresh.
Qed.

Lemma wp_load l c h (Q : cell -> heap -> Prop) :
  h !! l = Some c -> Q c h -> wp (load l) h Q.
Proof.
  intros Hl HQ. exists c, h. split; [|assumption]. unfold load. now rewrite Hl.
Qed.

Lemma wp_store l c c0 h (Q : unit -> heap -> Prop) :
  h !! l = Some c0 -> Q tt (<[l := c]> h) -> wp (store l c) h Q.
Proof.
  intros Hl HQ. exists tt, (<[l := c]> h). split; [|assumption].
  unfold store. now rewrite Hl.
Qed.

Lemma wp_snapshot h (Q : heap -> heap -> Prop) : Q h h -> wp snapshot h Q.
Proof. intros HQ. exists h, h. split; [reflexivity|assumption]. Qed.

Lemma wp_load_clip l o h (Q : ClipObject -> heap -> Prop) :
  h !! l = Some (Clip o) -> Q o h -> wp (load_clip l) h Q.
Proof.
  intros Hl HQ. apply wp_bind. eapply wp_load; [eassumption|]. now apply wp_ret.
Qed.

Lemma wp_load_clips l elems h (Q : list loc -> heap -> Prop) :
  h !! l = Some (Clips elems) -> Q elems h -> wp (load_clips l) h Q.
Proof.
  intros Hl HQ. apply wp_bind. eapply wp_load; [eassumption|]. now apply wp_ret.
Qed.

Lemma wp_load_numbers l v h (Q : list Q -> heap -> Prop) :
  h !! l = Some (Numbers v) -> Q v h -> wp (load_numbers l) h Q.
Proof.
  intros Hl HQ. apply wp_bind. eapply wp_load; [eassumption|]. now apply wp_ret.
Qed.

(** *** Reading back *)

(** The object at [l], with the arrays it refers to. *)
Definition holds (h : heap) (l : loc) (o : ClipObject) (c : VideoClip) : Prop :=
  h !! l = Some (Clip o)
  /\ exists ts e,
       h !! obj_tags o = Some (Strings ts)
       /\ match obj_embedding o with
          | None => e = None
          | Some el => exists v, h !! el = Some (Numbers v) /\ e = Some v
          end
       /\ c = {| id := obj_id o; startTime := obj_startTime o;
                 endTime := obj_endTime o; title := obj_title o;
                 summary := obj_summary o;
                 viralityScore := obj_viralityScore o;
                 reasoning := obj_reasoning o; tags := ts;
                 transcriptStub := obj_transcriptStub o;
                 embedding := e; score := obj_score o |}.

Lemma clip_at_holds h l c :
  clip_at h l = Some c <-> exists o, holds h l o c.
Proof.
  unfold clip_at, holds. split.
  - destruct (h !! l) as [[| |o|]|] eqn:Hl; try discriminate.
    destruct (h !! obj_tags o) as [[|ts| |]|] eqn:Ht; try discriminate.
    destruct (obj_embedding o) as [el|] eqn:He.
    + destruct (h !! el) as [[v| | |]|] eqn:Hel; try discriminate.
      intros [= <-]. exists o. split; [reflexivity|].
      exists ts, (Some v). rewrite He. repeat split; eauto.
    + intros [= <-]. exists o. split; [reflexivity|].
      exists ts, None. rewrite He. repeat split; eauto.
  - intros (o & Hl & ts & e & Ht & He & ->). rewrite Hl, Ht.
    destruct (obj_embedding o) as [el|].
    + destruct He as (v & Hel & ->). now rewrite Hel.
    + now subst e.
Qed.

Lemma holds_weaken h h' l o c : h ⊆ h' -> holds h l o c -> holds h' l o c.
Proof.
  intros Hsub (Hl & ts & e & Ht & He & Hc). split.
  - eapply lookup_weaken; eassumption.
  - exists ts, e. split; [eapply lookup_weaken; eassumption|]. split; [|assumption].
    destruct (obj_embedding o); [|assumption].
    destruct He as (v & Hel & ->). exists v. split; [|reflexivity].
    eapply lookup_weaken; eassumption.
Qed.

Lemma clip_at_weaken h h' l c :
  h ⊆ h' -> clip_at h l = Some c -> clip_at h' l = Some c.
Proof.
  intros Hsub Hc. apply clip_at_holds in Hc. destruct Hc as [o Ho].
  apply clip_at_holds. exists o. eapply holds_weaken; eassumption.
Qed.

(** The references [ls] read as the clips [cs]. *)
Definition reps (h : heap) (ls : list loc) (cs : list VideoClip) : Prop :=
  Forall2 (fun l c => clip_at h l = Some c) ls cs.

Lemma reps_weaken h h' ls cs : h ⊆ h' -> reps h ls cs -> reps h' ls cs.
Proof.
  intros Hsub Hr. unfold reps in *. eapply Forall2_impl; [exact Hr|].
  intros l c. now apply clip_at_weaken.
Qed.

Lemma clips_at_reps h a cs :
  clips_at h a = Some cs <-> exists ls, h !! a = Some (Clips ls) /\ reps h ls cs.
Proof.
  unfold clips_at, reps. split.
  - destruct (h !! a) as [[| | |ls]|]; try discriminate.
    intros Hm. apply mapM_Some in Hm. eauto.
  - intros (ls & -> & Hr). now apply mapM_Some.
Qed.

Lemma clips_at_weaken h h' a cs :
  h ⊆ h' -> clips_at h a = Some cs -> clips_at h' a = Some cs.
Proof.
  intros Hsub Hc. apply clips_at_reps in Hc. destruct Hc as (ls & Ha & Hr).
  apply clips_at_reps. exists ls. split.
  - eapply lookup_weaken; eassumption.
  - eapply reps_weaken; eassumption.
Qed.

Lemma reps_In h ls cs l : reps h ls cs -> In l ls -> exists c, clip_at h l = Some c.
Proof.
  unfold reps. induction 1 as [|l0 c0 ls cs H0 Hr IH]; simpl; [tauto|].
  intros [<-|Hin]; eauto.
Qed.

(** *** [map] and [filter] with callbacks on the store *)

Section MapOnStore.
Context {A B : Type}.
Variable f : A -> H B.
Variable h0 : heap.
Variable P : heap -> A -> Prop.
Variable R : heap -> A -> B -> Prop.
Hypothesis P_weaken : forall h h' x, h ⊆ h' -> P h x -> P h' x.
Hypothesis R_weaken : forall h h' x y, h ⊆ h' -> R h x y -> R h' x y.
Hypothesis f_spec : forall h x,
  h0 ⊆ h -> P h x -> wp (f x) h (fun y h' => h ⊆ h' /\ R h' x y).

Lemma wp_mapH xs : forall h,
  h0 ⊆ h -> Forall (P h) xs ->
  wp (mapH f xs) h (fun ys h' => h ⊆ h' /\ Forall2 (R h') xs ys).
Proof.
  induction xs as [|x xs IH]; intros h Hh HP; simpl.
  - apply wp_ret. split; [reflexivity|constructor].
  - inversion HP as [|? ? Hx Hxs]; subst.
    apply wp_bind. eapply wp_mono; [|apply f_spec; assumption].
    intros y h1 [Hsub1 Hy]. cbn beta.
    apply wp_bind. eapply wp_mono; [|apply IH].
    + intros ys h2 [Hsub2 Hys]. cbn beta. apply wp_ret. split.
      * etrans; eassumption.
      * constructor; [|assumption]. eapply R_weaken; eassumption.
    + etrans; eassumption.
    + eapply Forall_impl; [exact Hxs|]. intros z. now apply P_weaken.
Qed.

End MapOnStore.

Lemma wp_filterH (p : loc -> H bool) (pb : VideoClip -> bool) h :
  (forall l c, clip_at h l = Some c -> wp (p l) h (fun b h' => h' = h /\ b = pb c)) ->
  forall ls cs,
    reps h ls cs ->
    wp (filterH p ls) h
      (fun ls' h' => h' = h /\ reps h ls' (List.filter pb cs)
                     /\ forall l, In l ls' -> In l ls).
Proof.
  intros Hp ls cs Hr. unfold reps in *.
  induction Hr as [|l c ls cs Hl Hr IH]; simpl.
  - apply wp_ret. repeat split; [constructor|tauto].
  - apply wp_bind. eapply wp_mono; [|apply (Hp l c Hl)].
    intros b h1 [-> ->]. cbn beta.
    apply wp_bind. eapply wp_mono; [|exact IH].
    intros ls' h1 (-> & Hr' & Hin). cbn beta. apply wp_ret.
    split; [reflexivity|]. destruct (pb c); split.
    + constructor; assumption.
    + intros l' [<-|Hl']; [now left|right; auto].
    + assumption.
    + intros l' Hl'. right. auto.
Qed.

(** A callback that reads one object and decides on its scalars. *)
Lemma wp_decide (pb : VideoClip -> bool) h l c :
  (forall o, holds h l o c -> pb (scalars o) = pb c) ->
  clip_at h l = Some c ->
  wp (o ← load_clip l; mret (pb (scalars o))) h (fun b h' => h' = h /\ b = pb c).
Proof.
  intros Hpb Hc. apply clip_at_holds in Hc. destruct Hc as [o Ho].
  apply wp_bind. eapply wp_load_clip; [apply Ho|].
  apply wp_ret. split; [reflexivity|]. now apply Hpb.
Qed.

Lemma relevant_scalars toLowerCase queryLower h l o c :
  holds h l o c ->
  relevant toLowerCase queryLower (scalars o) = relevant toLowerCase queryLower c.
Proof. intros (_ & ts & e & _ & _ & ->). reflexivity. Qed.

Lemma hasStubMatch_scalars toLowerCase queryLower h l o c :
  holds h l o c ->
  hasStubMatch toLowerCase queryLower (scalars o)
  = hasStubMatch toLowerCase queryLower c.
Proof. intros (_ & ts & e & _ & _ & ->). reflexivity. Qed.

Lemma hasTranscriptMatch_scalars matching h l o c :
  holds h l o c ->
  hasTranscriptMatch matching (scalars o) = hasTranscriptMatch matching c.
Proof. intros (_ & ts & e & _ & _ & ->). reflexivity. Qed.

(** *** [sortClips] on the store *)

Lemma sort_insert_Forall2 {A B} (R : A -> B -> Prop) cmp1 cmp2 :
  (forall a b a' b', R a a' -> R b b' -> cmp1 a b = cmp2 a' b') ->
  forall x y l l',
    R x y -> Forall2 R l l' ->
    Forall2 R (sort_insert cmp1 x l) (sort_insert cmp2 y l').
Proof.
  intros Hcmp x y l l' Hxy Hl.
  induction Hl as [|a b l l' Hab Hl IH]; simpl.
  - constructor; [assumption|constructor].
  - rewrite (Hcmp x a y b Hxy Hab).
    destruct (leb (cmp2 y b) 0).
    + constructor; [assumption|]. constructor; assumption.
    + constructor; assumption.
Qed.

Lemma Array_sort_Forall2 {A B} (R : A -> B -> Prop) cmp1 cmp2 :
  (forall a b a' b', R a a' -> R b b' -> cmp1 a b = cmp2 a' b') ->
  forall l l', Forall2 R l l' -> Forall2 R (Array_sort cmp1 l) (Array_sort cmp2 l').
Proof.
  intros Hcmp l l' Hl. induction Hl as [|a b l l' Hab Hl IH]; simpl.
  - constructor.
  - now apply sort_insert_Forall2.
Qed.

Lemma sort_insert_In {A} (cmp : A -> A -> Q) x l y :
  In y (sort_insert cmp x l) -> y = x \/ In y l.
Proof.
  induction l as [|a l IH]; simpl.
  - intros [<-|[]]. now left.
  - destruct (leb (cmp x a) 0); simpl.
    + intros [<-|[<-|H]]; auto.
    + intros [<-|H]; [auto|]. destruct (IH H); auto.
Qed.

Lemma Array_sort_In {A} (cmp : A -> A -> Q) l y :
  In y (Array_sort cmp l) -> In y l.
Proof.
  induction l as [|a l IH]; simpl; [tauto|].
  intros H. apply sort_insert_In in H. destruct H as [->|H]; auto.
Qed.

Lemma mapH_load_clip h ls cs :
  reps h ls cs -> wp (mapH load_clip ls) h (fun _ h' => h' = h).
Proof.
  unfold reps. induction 1 as [|l c ls cs Hl Hr IH]; simpl.
  - now apply wp_ret.
  - apply clip_at_holds in Hl. destruct Hl as (o & Hl & _).
    apply wp_bind. eapply wp_load_clip; [eassumption|].
    apply wp_bind. eapply wp_mono; [|exact IH].
    intros os h' ->. now apply wp_ret.
Qed.

Lemma compareObjects_agree order h a b ca cb :
  clip_at h a = Some ca -> clip_at h b = Some cb ->
  compareObjects order h a b
  = match order with
    | viral => viralityScore cb - viralityScore ca
    | time => startTime ca - startTime cb
    end.
Proof.
  intros Ha Hb. apply clip_at_holds in Ha, Hb.
  destruct Ha as (oa & Ha & ? & ? & _ & _ & ->).
  destruct Hb as (ob & Hb & ? & ? & _ & _ & ->).
  unfold compareObjects. rewrite Ha, Hb. reflexivity.
Qed.

Lemma wp_sortClips a order ls cs h :
  h !! a = Some (Clips ls) ->
  reps h ls cs ->
  wp (sortClips a order) h
    (fun a' h' =>
       h ⊆ h' /\ h !! a' = None
       /\ exists ls', h' !! a' = Some (Clips ls')
                      /\ (forall l, In l ls' -> In l ls)
                      /\ reps h' ls' (App.sortClips cs order)).
Proof.
  intros Ha Hr. unfold sortClips.
  apply wp_bind. eapply wp_load_clips; [eassumption|].
  apply wp_bind. apply wp_alloc. intros a' Hfresh.
  set (h1 := <[a' := Clips ls]> h).
  assert (Hsub1 : h ⊆ h1) by now apply insert_subseteq.
  assert (Hr1 : reps h1 ls cs) by (eapply reps_weaken; eassumption).
  apply wp_bind. eapply wp_mono; [|apply (mapH_load_clip h1 ls cs Hr1)].
  intros os h' ->. cbn beta.
  apply wp_bind. apply wp_snapshot.
  apply wp_bind. eapply wp_store; [apply lookup_insert_eq|].
  apply wp_ret.
  set (sorted := Array_sort (compareObjects order h1) ls).
  assert (Hh2 : <[a' := Clips sorted]> h1 = <[a' := Clips sorted]> h)
    by apply insert_insert_eq.
  rewrite Hh2.
  assert (Hsub2 : h ⊆ <[a' := Clips sorted]> h) by now apply insert_subseteq.
  split; [assumption|]. split; [assumption|].
  exists sorted. split; [apply lookup_insert_eq|]. split.
  - intros l. apply Array_sort_In.
  - eapply reps_weaken; [exact Hsub2|].
    unfold reps, sorted, App.sortClips.
    destruct order.
    + apply Array_sort_Forall2; [|assumption].
      intros x y cx cy Hx Hy.
      apply (compareObjects_agree time h1 x y cx cy);
        eapply clip_at_weaken; eassumption.
    + apply Array_sort_Forall2; [|assumption].
      intros x y cx cy Hx Hy.
      apply (compareObjects_agree viral h1 x y cx cy);
        eapply clip_at_weaken; eassumption.
Qed.

(** *** The callbacks of the search *)

Lemma reps_through h ls ls' cs (g : VideoClip -> VideoClip) :
  reps h ls cs ->
  Forall2 (fun l l' => exists c, clip_at h l = Some c /\ clip_at h l' = Some (g c))
    ls ls' ->
  reps h ls' (List.map g cs).
Proof.
  unfold reps. intros Hr. revert ls'.
  induction Hr as [|l c ls cs Hl Hr IH]; intros ls' Hg;
    inversion Hg as [|? l' ? ls'' (c0 & Hc0 & Hgc) Hrest]; subst; simpl;
    constructor.
  - rewrite Hl in Hc0. injection Hc0 as <-. assumption.
  - now apply IH.
Qed.

Section SearchOnStore.
Variables (trim toLowerCase : string -> string).
Variable cosineSimilarity : list Q -> list Q -> Q.

Lemma wp_scoreClip h0 queryEmbedding v h l :
  h0 ⊆ h ->
  h !! queryEmbedding = Some (Numbers v) ->
  (exists c, clip_at h l = Some c) ->
  wp (scoreClip cosineSimilarity queryEmbedding l) h
    (fun l' h' =>
       h ⊆ h'
       /\ h0 !! l' = None
       /\ exists c, clip_at h' l = Some c
                    /\ clip_at h' l' = Some (App.scoreClip cosineSimilarity v c)).
Proof.
  intros H0 Hq [c Hc].
  pose proof Hc as Hc'. apply clip_at_holds in Hc'.
  destruct Hc' as (o & Hl & ts & e & Ht & He & Hceq).
  unfold scoreClip.
  apply wp_bind. eapply wp_load_clip; [eassumption|].
  assert (Halloc : forall s,
    s = match e with Some b => cosineSimilarity v b | None => 0 end ->
    wp (alloc (Clip (object_with_score o s))) h
      (fun l' h' =>
         h ⊆ h' /\ h0 !! l' = None
         /\ exists c, clip_at h' l = Some c
                      /\ clip_at h' l' = Some (App.scoreClip cosineSimilarity v c))).
  { intros s Hs. apply wp_alloc. intros l' Hfresh.
    assert (Hsub : h ⊆ <[l' := Clip (object_with_score o s)]> h)
      by now apply insert_subseteq.
    split; [assumption|]. split; [eapply lookup_weaken_None; eassumption|].
    exists c. split; [eapply clip_at_weaken; eassumption|].
    apply clip_at_holds. exists (object_with_score o s). split.
    - apply lookup_insert_eq.
    - exists ts, e. split; [eapply lookup_weaken; eassumption|]. split.
      + simpl. destruct (obj_embedding o); [|assumption].
        destruct He as (b & Hb & ->). exists b. split; [|reflexivity].
        eapply lookup_weaken; eassumption.
      + subst c s. unfold App.scoreClip, with_score. simpl. reflexivity. }
  destruct (obj_embedding o) as [el|].
  - destruct He as (b & Hb & ->).
    apply wp_bind. apply wp_bind. eapply wp_load_numbers; [eassumption|].
    apply wp_bind. eapply wp_load_numbers; [eassumption|].
    apply wp_ret. now apply Halloc.
  - subst e. apply wp_bind. apply wp_ret. now apply Halloc.
Qed.

Lemma wp_boostClip h0 queryLower matching h l :
  h0 ⊆ h ->
  h0 !! l = None /\ (exists c, clip_at h l = Some c) ->
  wp (boostClip toLowerCase queryLower matching l) h
    (fun l' h' =>
       h ⊆ h'
       /\ h0 !! l' = None
       /\ exists c, clip_at h' l = Some c
                    /\ clip_at h' l' = Some (App.boostClip toLowerCase queryLower matching c)).
Proof.
  intros H0 [Hl0 [c Hc]].
  pose proof Hc as Hc'. apply clip_at_holds in Hc'. destruct Hc' as [o Ho].
  pose proof Ho as (Hl & ts & e & Ht & He & Hceq).
  unfold boostClip.
  apply wp_bind. eapply wp_load_clip; [eassumption|].
  rewrite (hasTranscriptMatch_scalars matching h l o c Ho).
  rewrite (hasStubMatch_scalars toLowerCase queryLower h l o c Ho).
  destruct (hasTranscriptMatch matching c || hasStubMatch toLowerCase queryLower c) eqn:Hcond.
  - apply wp_alloc. intros l' Hfresh.
    set (o' := object_with_score o (get_score (scalars o) + 0.5)).
    assert (Hsub : h ⊆ <[l' := Clip o']> h) by now apply insert_subseteq.
    split; [assumption|]. split; [eapply lookup_weaken_None; eassumption|].
    exists c. split; [eapply clip_at_weaken; eassumption|].
    unfold App.boostClip. rewrite Hcond.
    apply clip_at_holds. exists o'. split.
    + apply lookup_insert_eq.
    + exists ts, e. split; [eapply lookup_weaken; eassumption|]. split.
      * simpl. destruct (obj_embedding o); [|assumption].
        destruct He as (b & Hb & ->). exists b. split; [|reflexivity].
        eapply lookup_weaken; eassumption.
      * subst c. reflexivity.
  - apply wp_ret. split; [reflexivity|]. split; [assumption|].
    exists c. split; [assumption|]. unfold App.boostClip. now rewrite Hcond.
Qed.

Lemma Forall2_right {A B} (R : A -> B -> Prop) (P : B -> Prop) l k :
  (forall x y, R x y -> P y) -> Forall2 R l k -> Forall P k.
Proof. intros HR. induction 1; constructor; eauto. Qed.

Lemma reps_Forall h ls cs (P : loc -> Prop) :
  (forall l c, clip_at h l = Some c -> P l) -> reps h ls cs -> Forall P ls.
Proof. intros HP. induction 1; constructor; eauto. Qed.

Lemma wp_rankClips queryEmbedding v s st ls h :
  h !! queryEmbedding = Some (Numbers v) ->
  h !! s_clips s = Some (Clips ls) ->
  reps h ls (clips st) ->
  s_transcript s = transcript st ->
  s_searchQuery s = searchQuery st ->
  s_sortOrder s = sortOrder st ->
  wp (rankClips toLowerCase cosineSimilarity queryEmbedding s) h
    (fun a h' =>
       h ⊆ h' /\ h !! a = None
       /\ exists ls', h' !! a = Some (Clips ls')
                      /\ Forall (fun l => h !! l = None) ls'
                      /\ reps h' ls' (App.rankClips toLowerCase cosineSimilarity v st)).
Proof.
  intros Hq Ha Hr Htr Hsq Hso. unfold rankClips. rewrite Htr, Hsq, Hso.
  set (queryLower := toLowerCase (searchQuery st)).
  set (matching := matchingTranscriptSegments toLowerCase queryLower (transcript st)).
  apply wp_bind. eapply wp_load_clips; [eassumption|].
  (* the first map *)
  apply wp_bind.
  eapply wp_mono;
    [|apply (wp_mapH (scoreClip cosineSimilarity queryEmbedding) h
               (fun h' x => h' !! queryEmbedding = Some (Numbers v)
                            /\ exists c, clip_at h' x = Some c)
               (fun h' l l' =>
                  h !! l' = None
                  /\ exists c, clip_at h' l = Some c
                     /\ clip_at h' l' = Some (App.scoreClip cosineSimilarity v c)))].
  2:{ intros h1 h2 x Hsub [Hq1 [c Hc]]. split.
      - eapply lookup_weaken; eassumption.
      - exists c. eapply clip_at_weaken; eassumption. }
  2:{ intros h1 h2 l l' Hsub [Hf (c & Hc & Hc')]. split; [assumption|].
      exists c. split; eapply clip_at_weaken; eassumption. }
  2:{ intros h1 x Hsub [Hq1 Hx]. now apply wp_scoreClip with (h0 := h). }
  2:{ reflexivity. }
  2:{ eapply reps_Forall; [|eassumption]. intros l c Hc. eauto. }
  intros ls1 h1 [Hsub1 Hls1]. cbn beta.
  assert (Hr1 : reps h1 ls1 (List.map (App.scoreClip cosineSimilarity v) (clips st))).
  { eapply reps_through; [eapply reps_weaken; eassumption|].
    eapply Forall2_impl; [exact Hls1|]. intros l l' [_ Hc]. exact Hc. }
  assert (Hfresh1 : Forall (fun l => h !! l = None) ls1).
  { eapply Forall2_right; [|exact Hls1]. intros l l' [Hf _]. exact Hf. }
  apply wp_bind. apply wp_alloc. intros a1 Ha1.
  set (h2 := <[a1 := Clips ls1]> h1).
  assert (Hsub2 : h1 ⊆ h2) by now apply insert_subseteq.
  (* the second map *)
  apply wp_bind.
  eapply wp_mono;
    [|apply (wp_mapH (boostClip toLowerCase queryLower matching) h
               (fun h' x => h !! x = None /\ exists c, clip_at h' x = Some c)
               (fun h' l l' =>
                  h !! l' = None
                  /\ exists c, clip_at h' l = Some c
                     /\ clip_at h' l' = Some (App.boostClip toLowerCase queryLower matching c))
               ) with (h := h2)].
  2:{ intros h3 h4 x Hsub [Hf [c Hc]]. split; [assumption|].
      exists c. eapply clip_at_weaken; eassumption. }
  2:{ intros h3 h4 l l' Hsub [Hf (c & Hc & Hc')]. split; [assumption|].
      exists c. split; eapply clip_at_weaken; eassumption. }
  2:{ intros h3 x Hsub Hx. now apply wp_boostClip with (h0 := h). }
  2:{ etrans; eassumption. }
  2:{ assert (Hr2 : reps h2 ls1 (List.map (App.scoreClip cosineSimilarity v) (clips st)))
        by (eapply reps_weaken; eassumption).
      apply List.Forall_forall. intros l Hl. split.
      - rewrite List.Forall_forall in Hfresh1. now apply Hfresh1.
      - eapply reps_In; eassumption. }
  intros ls2 h3 [Hsub3 Hls2]. cbn beta.
  assert (Hr3 : reps h3 ls2
                  (List.map (App.boostClip toLowerCase queryLower matching)
                     (List.map (App.scoreClip cosineSimilarity v) (clips st)))).
  { eapply reps_through.
    - eapply reps_weaken; [|exact Hr1]. etrans; eassumption.
    - eapply Forall2_impl; [exact Hls2|]. intros l l' [_ Hc]. exact Hc. }
  assert (Hfresh2 : Forall (fun l => h !! l = None) ls2).
  { eapply Forall2_right; [|exact Hls2]. intros l l' [Hf _]. exact Hf. }
  apply wp_bind. apply wp_alloc. intros a2 Ha2.
  set (h4 := <[a2 := Clips ls2]> h3).
  assert (Hsub4 : h3 ⊆ h4) by now apply insert_subseteq.
  assert (Hr4 : reps h4 ls2
                  (List.map (App.boostClip toLowerCase queryLower matching)
                     (List.map (App.scoreClip cosineSimilarity v) (clips st))))
    by (eapply reps_weaken; eassumption).
  (* the filter *)
  apply wp_bind.
  eapply wp_mono;
    [|apply (wp_filterH _ (relevant toLowerCase queryLower) h4); [|exact Hr4]].
  2:{ intros l c Hc. apply wp_decide; [|assumption].
      intros o Ho. eapply relevant_scalars; eassumption. }
  intros ls3 h5 (-> & Hr5 & Hin3). cbn beta.
  apply wp_bind. apply wp_alloc. intros a3 Ha3.
  set (h5 := <[a3 := Clips ls3]> h4).
  assert (Hsub5 : h4 ⊆ h5) by now apply insert_subseteq.
  (* the sort *)
  eapply wp_mono;
    [|eapply (wp_sortClips a3 (sortOrder st) ls3);
      [apply lookup_insert_eq|eapply reps_weaken; [exact Hsub5|exact Hr5]]].
  intros a h6 (Hsub6 & Ha6 & ls' & Hls' & Hin' & Hr6).
  assert (Hsub : h ⊆ h5).
  { etrans; [exact Hsub1|]. etrans; [exact Hsub2|]. etrans; [exact Hsub3|].
    etrans; [exact Hsub4|]. exact Hsub5. }
  split; [etrans; eassumption|].
  split; [eapply lookup_weaken_None; eassumption|].
  exists ls'. split; [assumption|]. split.
  - apply List.Forall_forall. intros l Hl. apply Hin', Hin3 in Hl.
    rewrite List.Forall_forall in Hfresh2. now apply Hfresh2.
  - exact Hr6.
Qed.

(** The run of [handleSearch] on the store: nothing that was in the store
    changes, and the session it returns reads as the state the handler on
    values computes. *)
Lemma wp_handleSearch backend s st h :
  represents h s st ->
  wp (handleSearch trim toLowerCase cosineSimilarity backend s) h
    (fun s' h' =>
       h ⊆ h'
       /\ s_clips s' = s_clips s
       /\ represents h' s' (run (App.handleSearch trim toLowerCase cosineSimilarity backend) st)
       /\ (trim (searchQuery st) <> "" ->
           exists ls', h' !! s_filteredClips s' = Some (Clips ls')
                       /\ Forall (fun l => h !! l = None) ls')).
Proof.
  intros (Hclips & Hfiltered & Htr & Hsq & His & Hso & Htab).
  pose proof Hclips as Hc. apply clips_at_reps in Hc. destruct Hc as (ls & Ha & Hr).
  unfold handleSearch, run. rewrite Hsq.
  destruct (Str.falsy (trim (searchQuery st))) eqn:Hblank.
  - (* a blank query *)
    assert (Hq : trim (searchQuery st) = "")
      by (destruct (trim (searchQuery st)); [reflexivity|discriminate]).
    rewrite (SearchFacts.handleSearch_blank trim toLowerCase cosineSimilarity backend st Hq).
    cbn [snd].
    apply wp_bind. rewrite Hso.
    eapply wp_mono; [|eapply wp_sortClips; eassumption].
    intros a h' (Hsub & Hfresh & ls' & Hls' & Hin & Hr'). cbn beta.
    apply wp_ret. split; [assumption|]. split; [reflexivity|]. split.
    + unfold represents. cbn. repeat split; try assumption.
      * eapply clips_at_weaken; eassumption.
      * apply clips_at_reps. eauto.
    + intros Hne. congruence.
  - (* ranking *)
    assert (Hq : trim (searchQuery st) <> "") by now apply SearchFacts.falsy_false.
    rewrite (SearchFacts.handleSearch_ranks trim toLowerCase cosineSimilarity backend st Hq).
    cbn [snd].
    rewrite PipelineFacts.generateEmbedding_total.
    set (v := PipelineFacts.embedding_values backend).
    apply wp_bind. apply wp_bind. apply wp_alloc. intros qe Hqe.
    set (h1 := <[qe := Numbers v]> h).
    assert (Hsub1 : h ⊆ h1) by now apply insert_subseteq.
    apply wp_bind.
    eapply wp_mono;
      [|eapply (wp_rankClips qe v s st ls h1);
        [apply lookup_insert_eq
        |eapply lookup_weaken; eassumption
        |eapply reps_weaken; eassumption
        |assumption|assumption|assumption]].
    intros a h' (Hsub & Hfresh & ls' & Hls' & Hfr & Hr'). cbn beta.
    apply wp_ret. apply wp_ret.
    assert (Hsub' : h ⊆ h') by (etrans; eassumption).
    split; [assumption|]. split; [now destruct (s_activeSidebarTab s)|]. split.
    + unfold represents.
      destruct (s_activeSidebarTab s) eqn:E; cbn; rewrite ?E;
        repeat split; try assumption;
        try (eapply clips_at_weaken; eassumption);
        try (apply clips_at_reps; eauto).
    + intros _. exists ls'. split; [now destruct (s_activeSidebarTab s)|].
      eapply Forall_impl; [exact Hfr|]. intros l Hl. cbn beta in Hl.
      exact (lookup_weaken_None h h1 l Hl Hsub1).
Qed.

End SearchOnStore.

(** C9.  A search leaves the session's store as it found it, for every
    query: run from a store and session that hold the state [st], it ends;
    every object and array of the old store is unchanged, so the stored clip
    sequence is the same array and reads as the same clips, field by field,
    embedding and score included; and when the query is not blank the
    result array holds new objects only, so the scores sit on copies.  The
    session returned reads as the state the handler on values computes,
    whose clips and transcript are those of [st]. *)
Theorem search_leaves_session_untouched
    (trim toLowerCase : string -> string)
    (cosineSimilarity : list Q -> list Q -> Q) (backend : embedded)
    (h : heap) (s : Session) (st : State) :
  represents h s st ->
  let st' := run (App.handleSearch trim toLowerCase cosineSimilarity backend) st in
  exists s' h',
    handleSearch trim toLowerCase cosineSimilarity backend s h = Some (s', h')
    /\ (forall l c, h !! l = Some c -> h' !! l = Some c)
    /\ s_clips s' = s_clips s
    /\ clips_at h' (s_clips s') = Some (clips st)
    /\ represents h' s' st'
    /\ clips st' = clips st
    /\ transcript st' = transcript st
    /\ (trim (searchQuery st) <> "" ->
        exists ls', h' !! s_filteredClips s' = Some (Clips ls')
                    /\ Forall (fun l => h !! l = None) ls').
Proof.
  intros Hrep st'. subst st'.
  destruct (wp_handleSearch trim toLowerCase cosineSimilarity backend s st h Hrep)
    as (s' & h' & Hrun & Hsub & Hsame & Hrep' & Hnew).
  exists s', h'. split; [assumption|]. split.
  { intros l c Hl. eapply lookup_weaken; eassumption. }
  split; [assumption|]. split.
  { rewrite Hsame. eapply clips_at_weaken; [eassumption|]. apply Hrep. }
  split; [assumption|].
  assert (Hpure :
    clips (run (App.handleSearch trim toLowerCase cosineSimilarity backend) st)
    = clips st
    /\ transcript
         (run (App.handleSearch trim toLowerCase cosineSimilarity backend) st)
       = transcript st).
  { unfold run.
    destruct (trim (searchQuery st)) eqn:Hq.
    - rewrite (SearchFacts.handleSearch_blank trim toLowerCase cosineSimilarity
                 backend st Hq).
      split; reflexivity.
    - rewrite (SearchFacts.handleSearch_ranks trim toLowerCase cosineSimilarity
                 backend st)
        by (rewrite Hq; discriminate).
      split; reflexivity. }
  destruct Hpure as [Hc Ht]. split; [assumption|]. split; [assumption|].
  assumption.
Qed.

(** *** A store to run the search on

    The store after a run of the pipeline that produced two clips: each
    clip has its own array of tags and its own embedding. *)

Definition objectL : ClipObject :=
  {| obj_id := "clip-0-0"; obj_startTime := 5; obj_endTime := 15;
     obj_title := "title"; obj_summary := "summary"; obj_viralityScore := 50;
     obj_reasoning := "why"; obj_tags := 1%positive;
     obj_transcriptStub := "the intro";
     obj_embedding := Some 2%positive; obj_score := None |}.

Definition objectM : ClipObject :=
  {| obj_id := "clip-0-1"; obj_startTime := 30; obj_endTime := 40;
     obj_title := "title"; obj_summary := "summary"; obj_viralityScore := 50;
     obj_reasoning := "why"; obj_tags := 3%positive;
     obj_transcriptStub := "launch it";
     obj_embedding := Some 4%positive; obj_score := None |}.

(** Cells 1 and 2 hold the tags and the embedding of the first clip, cells 3
    and 4 those of the second, cells 5 and 6 the clips, cell 7 the array in
    [clips] and in [filteredClips]. *)
Definition shelf : heap :=
  <[7%positive := Clips [5%positive; 6%positive]]>
    (<[6%positive := Clip objectM]>
       (<[5%positive := Clip objectL]>
          (<[4%positive := Numbers [0; 1]]>
             (<[3%positive := Strings []]>
                (<[2%positive := Numbers [1; 0]]>
                   (<[1%positive := Strings []]> ∅)))))).

Definition desk (query : string) : Session :=
  {| s_clips := 7%positive;
     s_transcript := [SearchFacts.launchSegment];
     s_searchQuery := query; s_isSearching := false;
     s_filteredClips := 7%positive; s_sortOrder := time;
     s_activeSidebarTab := tab_clips |}.

(** The state the pipeline leaves for those two clips, with the query
    typed in. *)
Definition deskState (query : string) : State :=
  SearchFacts.session query
    [ SearchFacts.candidate 5 15 "the intro";
      SearchFacts.candidate 30 40 "launch it" ]
    [SearchFacts.launchSegment]
    (fun index => match index with O => [1; 0] | _ => [0; 1] end).

Lemma shelf_represents query : represents shelf (desk query) (deskState query).
Proof. repeat split. Qed.

(** The search of the examples: the ASCII tables and the spec's cosine. *)
Local Abbreviation search :=
  (App.handleSearch Str.trim Str.toLowerCase vectorUtils.cosineSimilarity).
Local Abbreviation search_on_store :=
  (handleSearch Str.trim Str.toLowerCase vectorUtils.cosineSimilarity).

Lemma search_leaves_session_untouched_witness :
  let st' := run (search SearchFacts.answered) (deskState "launch") in
  exists s' h',
    search_on_store SearchFacts.answered (desk "launch") shelf = Some (s', h')
    /\ (forall l c, shelf !! l = Some c -> h' !! l = Some c)
    /\ s_clips s' = s_clips (desk "launch")
    /\ clips_at h' (s_clips s') = Some (clips (deskState "launch"))
    /\ represents h' s' st'
    /\ clips st' = clips (deskState "launch")
    /\ transcript st' = transcript (deskState "launch")
    /\ (Str.trim (searchQuery (deskState "launch")) <> "" ->
        exists ls', h' !! s_filteredClips s' = Some (Clips ls')
                    /\ Forall (fun l => shelf !! l = None) ls').
Proof.
  apply (search_leaves_session_untouched Str.trim Str.toLowerCase
           vectorUtils.cosineSimilarity
           SearchFacts.answered shelf (desk "launch") (deskState "launch")).
  unfold represents. repeat split; reflexivity.
Defined.

(** After the search for "launch" the two stored objects are as before, and
    the scores sit on two new objects. *)
Example search_launch_on_shelf :
  match search_on_store SearchFacts.answered (desk "launch") shelf with
  | Some (s', h') =>
      (h' !! 5%positive, h' !! 6%positive, h' !! 7%positive)
      = (Some (Clip objectL), Some (Clip objectM),
         Some (Clips [5%positive; 6%positive]))
      /\ option_map
           (List.map (fun c => (id c, match score c with
                                      | Some _ => true
                                      | None => false
                                      end)))
           (clips_at h' (s_filteredClips s'))
         = Some [("clip-0-0", true); ("clip-0-1", true)]
      /\ s_filteredClips s' <> s_clips s'
  | None => False
  end.
Proof. vm_compute. repeat split. discriminate. Qed.

(** With a blank query the result is a new array of the stored objects
    themselves. *)
Example search_blank_on_shelf :
  match search_on_store SearchFacts.answered (desk " ") shelf with
  | Some (s', h') =>
      h' !! s_filteredClips s' = Some (Clips [5%positive; 6%positive])
      /\ s_filteredClips s' <> s_clips s'
      /\ h' !! 7%positive = Some (Clips [5%positive; 6%positive])
  | None => False
  end.
Proof. vm_compute. repeat split. discriminate. Qed.

End StoreFacts.

(** * Further properties of the code *)

(** ** The sampling schedule: short videos, nothing to sample, progress *)

Module SamplingMore.
Import videoProcessor SamplingFacts.
Local Open Scope Q_scope.

(** A video no longer than the base interval gets exactly one frame, taken
    at 0. *)
Theorem extractFramesFromVideo_short_video (snapshot : Q -> string)
    (duration intervalSeconds : Q) (maxFrames fuel : nat) :
  0 < duration ->
  duration <= intervalSeconds ->
  (0 < maxFrames)%nat ->
  (2 <= fuel)%nat ->
  extractFramesFromVideo snapshot duration intervalSeconds maxFrames fuel
  = Some [ {| timestamp := 0; data := snapshot 0 |} ].
Proof.
  intros Hd Hshort Hm Hfuel.
  destruct fuel as [|[|fuel]]; try lia.
  unfold extractFramesFromVideo. simpl.
  assert (H0 : geb 0 duration = false).
  { unfold geb, leb. apply not_true_is_false. rewrite Qle_bool_iff.
    now apply Qlt_not_le. }
  rewrite H0. simpl.
  assert (Hfull : (maxFrames <=? 0)%nat = false) by (apply Nat.leb_gt; lia).
  rewrite Hfull.
  assert (H1 : geb (0 + finalInterval duration intervalSeconds maxFrames) duration
               = true).
  { apply geb_ge. rewrite Qplus_0_l.
    apply Qle_trans with intervalSeconds; [assumption|].
    unfold finalInterval. apply Math_max_lower. }
  rewrite H1. reflexivity.
Qed.

Lemma extractFramesFromVideo_short_video_witness :
  extractFramesFromVideo (fun _ => "jpeg") 3 4 45 46
  = Some [ {| timestamp := 0; data := "jpeg" |} ].
Proof.
  apply (extractFramesFromVideo_short_video (fun _ => "jpeg") 3 4 45 46).
  - reflexivity.
  - discriminate.
  - lia.
  - lia.
Defined.

(** Without a duration or without a frame budget no frame is taken: the
    promise resolves at once with the empty list. *)
Theorem extractFramesFromVideo_nothing_to_sample (snapshot : Q -> string)
    (duration intervalSeconds : Q) (maxFrames fuel : nat) :
  duration <= 0 \/ maxFrames = O ->
  (1 <= fuel)%nat ->
  extractFramesFromVideo snapshot duration intervalSeconds maxFrames fuel = Some [].
Proof.
  intros Hnone Hfuel. destruct fuel as [|fuel]; [lia|].
  unfold extractFramesFromVideo. simpl.
  destruct Hnone as [Hd| ->].
  - apply geb_ge in Hd. now rewrite Hd.
  - now rewrite orb_true_r.
Qed.

Lemma extractFramesFromVideo_nothing_to_sample_witness :
  extractFramesFromVideo (fun _ => "") 0 4 45 1 = Some [].
Proof.
  apply (extractFramesFromVideo_nothing_to_sample (fun _ => "") 0 4 45 1).
  - left. discriminate.
  - lia.
Defined.

(** *** The progress reports *)

Section Reports.
Variable snapshot : Q -> string.
Variables (duration intervalSeconds : Q) (maxFrames : nat).

Local Abbreviation step := (finalInterval duration intervalSeconds maxFrames).
Local Abbreviation report := (Progress.report duration).

(** The reporting run takes the frames of the plain run and reports once
    per frame, on the frame's timestamp. *)
Lemma reporting_run fuel : forall currentTime frames reports,
  Progress.captureFrame snapshot duration intervalSeconds maxFrames
    fuel currentTime frames reports
  = match captureFrame snapshot duration intervalSeconds maxFrames
            fuel currentTime frames with
    | Some out =>
        Some (out, reports
                   ++ List.map (fun f => report (timestamp f))
                        (skipn (length frames) out))
    | None => None
    end.
Proof.
  induction fuel as [|fuel IH]; intros currentTime frames reports; simpl;
    [reflexivity|].
  destruct (geb currentTime duration || (maxFrames <=? length frames)%nat).
  - rewrite skipn_all. simpl. now rewrite app_nil_r.
  - rewrite IH.
    destruct (captureFrame snapshot duration intervalSeconds maxFrames fuel
                (currentTime + step)
                (frames ++ [ {| timestamp := currentTime;
                                data := snapshot currentTime |} ])) as [out|] eqn:Hrun;
      [|reflexivity].
    f_equal. f_equal. rewrite <- app_assoc. f_equal.
    rewrite length_app. simpl.
    assert (Hpre : exists rest,
               out = (frames ++ [ {| timestamp := currentTime;
                                     data := snapshot currentTime |} ]) ++ rest).
    { clear - Hrun. revert Hrun.
      generalize (frames ++ [ {| timestamp := currentTime;
                                 data := snapshot currentTime |} ]) as fs.
      generalize (currentTime + step) as ct.
      induction fuel as [|fuel IH]; intros ct fs Hrun; [discriminate|].
      simpl in Hrun.
      destruct (geb ct duration || (maxFrames <=? length fs)%nat).
      - injection Hrun as <-. exists []. now rewrite app_nil_r.
      - apply IH in Hrun. destruct Hrun as [rest ->].
        eexists. rewrite <- app_assoc. reflexivity. }
    destruct Hpre as [rest ->].
    rewrite <- !app_assoc.
    rewrite (skipn_app (length frames)), skipn_all, Nat.sub_diag. simpl.
    rewrite (skipn_app (length frames + 1)).
    rewrite skipn_all2 by lia.
    replace (length frames + 1 - length frames)%nat with 1%nat by lia.
    reflexivity.
Qed.

Lemma Math_round_mono x y : x <= y -> (Js.Math_round x <= Js.Math_round y)%Z.
Proof.
  intros H. unfold Js.Math_round. apply Qfloor_resp_le. lra.
Qed.

Lemma report_mono t t' : 0 < duration -> t <= t' -> report t <= report t'.
Proof.
  intros Hd Ht. unfold Progress.report.
  assert (Hr : inject_Z (Js.Math_round (t / duration * 100))
               <= inject_Z (Js.Math_round (t' / duration * 100))).
  { rewrite <- Zle_Qle. apply Math_round_mono.
    apply Qmult_le_compat_r; [|discriminate].
    unfold Qdiv. apply Qmult_le_compat_r; [assumption|].
    apply Qlt_le_weak, Qinv_lt_0_compat. assumption. }
  revert Hr.
  generalize (inject_Z (Js.Math_round (t / duration * 100))) as a.
  generalize (inject_Z (Js.Math_round (t' / duration * 100))) as b.
  intros b a Hr. unfold Math_min.
  destruct (Qle_bool 99 a) eqn:E1; destruct (Qle_bool 99 b) eqn:E2.
  - apply Qle_refl.
  - apply Qle_bool_iff in E1. apply not_true_iff_false in E2.
    exfalso. apply E2. apply Qle_bool_iff. lra.
  - apply not_true_iff_false in E1. apply Qlt_le_weak, Qnot_le_lt.
    now rewrite <- Qle_bool_iff.
  - exact Hr.
Qed.

Lemma report_bounds t : 0 < duration -> 0 <= t -> 0 <= report t /\ report t <= 99.
Proof.
  intros Hd Ht. split; [|apply Math_min_le_l].
  unfold Progress.report, Math_min.
  destruct (Qle_bool 99 _); [discriminate|].
  replace 0 with (inject_Z 0) by reflexivity. rewrite <- Zle_Qle.
  unfold Js.Math_round.
  replace 0%Z with (Qfloor 0) by reflexivity. apply Qfloor_resp_le.
  assert (0 <= t / duration * 100).
  { apply Qmult_le_0_compat; [|discriminate].
    unfold Qdiv. apply Qmult_le_0_compat; [assumption|].
    apply Qlt_le_weak, Qinv_lt_0_compat. assumption. }
  lra.
Qed.

End Reports.

Lemma reports_sorted duration frames :
  0 < duration ->
  increasing frames ->
  StronglySorted Qle (List.map (fun f => Progress.report duration (timestamp f)) frames).
Proof.
  intros Hd Hinc. unfold increasing in Hinc.
  induction Hinc as [|f frames Hs IH Hf]; simpl; constructor; [assumption|].
  apply List.Forall_forall. intros r Hr. apply in_map_iff in Hr.
  destruct Hr as (g & <- & Hg). rewrite List.Forall_forall in Hf.
  apply report_mono; [assumption|]. apply Qlt_le_weak. now apply Hf.
Qed.

(** The sampling reports its progress once per frame: there are as many
    reports as frames, every report lies between 0 and 99, and the reports
    never go down. *)
Theorem extractFramesFromVideo_progress (snapshot : Q -> string)
    (duration intervalSeconds : Q) (maxFrames : nat) :
  0 < duration ->
  (0 < maxFrames)%nat ->
  exists frames reports,
    Progress.extractFramesFromVideo snapshot duration intervalSeconds maxFrames
      (S maxFrames) = Some (frames, reports)
    /\ extractFramesFromVideo snapshot duration intervalSeconds maxFrames
         (S maxFrames) = Some frames
    /\ length reports = length frames
    /\ Forall (fun r => 0 <= r /\ r <= 99) reports
    /\ StronglySorted Qle reports.
Proof.
  intros Hd Hm.
  pose proof (finalInterval_pos duration intervalSeconds maxFrames Hd Hm) as Hstep.
  destruct (captureFrame_resolves snapshot duration intervalSeconds maxFrames
              (S maxFrames) Hstep 0 [])
    as (frames & Hrun & _ & Hrange & Hinc);
    [simpl; lia|simpl; lia|apply Qle_refl|constructor|constructor|constructor|].
  simpl app in *.
  exists frames, (List.map (fun f => Progress.report duration (timestamp f)) frames).
  split.
  { unfold Progress.extractFramesFromVideo. rewrite reporting_run, Hrun.
    reflexivity. }
  split; [exact Hrun|]. split; [apply length_map|]. split.
  - apply List.Forall_forall. intros r Hr. apply in_map_iff in Hr.
    destruct Hr as (f & <- & Hf).
    unfold in_range in Hrange. rewrite List.Forall_forall in Hrange.
    apply report_bounds; [assumption|]. now apply Hrange.
  - now apply reports_sorted.
Qed.

Lemma extractFramesFromVideo_progress_witness :
  exists frames reports,
    Progress.extractFramesFromVideo (fun _ => "") 10 4 45 46 = Some (frames, reports)
    /\ extractFramesFromVideo (fun _ => "") 10 4 45 46 = Some frames
    /\ length reports = length frames
    /\ Forall (fun r => 0 <= r /\ r <= 99) reports
    /\ StronglySorted Qle reports.
Proof.
  apply (extractFramesFromVideo_progress (fun _ => "") 10 4 45).
  - reflexivity.
  - lia.
Defined.

End SamplingMore.

(** ** [analyzeVideoFrames]: identifiers and the effect of clamping *)

Module AnalyzeMore.
Import App geminiService.
Local Open Scope Q_scope.

Lemma of_nat_inj n m : Str.of_nat n = Str.of_nat m -> n = m.
Proof.
  unfold Str.of_nat. intros H.
  apply DecimalNat.Unsigned.to_uint_inj.
  assert (Hs : Some (Nat.to_uint n) = Some (Nat.to_uint m))
    by now rewrite <- !DecimalString.NilEmpty.usu, H.
  now injection Hs.
Qed.

Lemma append_inj_r (p s t : string) : (p ++ s = p ++ t)%string -> s = t.
Proof.
  induction p as [|c p IH]; simpl; [tauto|]. intros H. injection H. exact IH.
Qed.

Lemma stamp_id_inj d now i j raw raw' :
  id (stamp d now i raw) = id (stamp d now j raw') -> i = j.
Proof.
  unfold stamp. simpl. intros H.
  apply (append_inj_r "clip-") in H. apply append_inj_r in H.
  apply (append_inj_r "-") in H. now apply of_nat_inj.
Qed.

Lemma map_indexed_In {A B} (f : nat -> A -> B) l : forall k y,
  In y (map_indexed f k l) -> exists i x, (k <= i)%nat /\ y = f i x.
Proof.
  induction l as [|x l IH]; intros k y; simpl; [tauto|].
  intros [<-|Hin].
  - exists k, x. split; [lia|reflexivity].
  - apply IH in Hin. destruct Hin as (i & x' & Hi & ->).
    exists i, x'. split; [lia|reflexivity].
Qed.

Lemma stamp_ids_distinct d now raws : forall k,
  List.NoDup (List.map id (map_indexed (stamp d now) k raws)).
Proof.
  induction raws as [|raw raws IH]; intros k; simpl.
  - constructor.
  - constructor; [|apply IH].
    intros Hin. apply in_map_iff in Hin. destruct Hin as (c & Hid & Hc).
    apply map_indexed_In in Hc. destruct Hc as (i & raw' & Hi & ->).
    apply (stamp_id_inj d now i k raw' raw) in Hid. lia.
Qed.

Lemma embedded_ids w l : forall k,
  List.map id (map_indexed (PipelineFacts.embedded_clip w) k l) = List.map id l.
Proof.
  induction l as [|c l IH]; intros k; simpl; [reflexivity|]. now rewrite IH.
Qed.

(** The clips of one response carry pairwise different identifiers, and so
    do the clips a completed run publishes. *)
Theorem clip_ids_distinct (source : Source) (w : Run) (st : State)
    (frames : list VideoFrame) (rawClips : list RawClip) :
  run_frames w = Ok frames ->
  run_visual w = Parsed rawClips ->
  (exists generatedClips,
      analyzeVideoFrames (run_visual w) (run_duration w) (run_now w)
      = Ok generatedClips
      /\ List.NoDup (List.map id generatedClips))
  /\ List.NoDup (List.map id (clips (run (handleFileSelect source w) st)))
  /\ List.NoDup (List.map id (filteredClips (run (handleFileSelect source w) st))).
Proof.
  intros Hframes Hvisual. split.
  { rewrite Hvisual. eexists. split; [reflexivity|]. apply stamp_ids_distinct. }
  rewrite (PipelineFacts.handleFileSelect_completes source w st frames rawClips
             Hframes Hvisual). cbn [clips filteredClips].
  assert (Hpub : List.NoDup (List.map id
                   (PipelineFacts.published w (sortOrder st) rawClips))).
  { unfold PipelineFacts.published.
    eapply Permutation_NoDup.
    - apply Permutation_map. symmetry. apply SortFacts.sortClips_perm.
    - rewrite embedded_ids. apply stamp_ids_distinct. }
  split; exact Hpub.
Qed.

Lemma clip_ids_distinct_witness :
  (exists generatedClips,
      analyzeVideoFrames (run_visual PipelineFacts.lossy)
        (run_duration PipelineFacts.lossy) (run_now PipelineFacts.lossy)
      = Ok generatedClips
      /\ List.NoDup (List.map id generatedClips))
  /\ List.NoDup (List.map id
       (clips (run (handleFileSelect upload PipelineFacts.lossy)
                 PipelineFacts.previous)))
  /\ List.NoDup (List.map id
       (filteredClips (run (handleFileSelect upload PipelineFacts.lossy)
                         PipelineFacts.previous))).
Proof.
  apply (clip_ids_distinct upload PipelineFacts.lossy PipelineFacts.previous
           [ {| timestamp := 0; data := "" |} ] PipelineFacts.five);
    reflexivity.
Defined.

Lemma Math_max_cases a b :
  (a <= b /\ Math_max a b = b) \/ (b < a /\ Math_max a b = a).
Proof.
  unfold Math_max. destruct (Qle_bool a b) eqn:E.
  - left. split; [now apply Qle_bool_iff|reflexivity].
  - right. split; [|reflexivity]. apply ltb_lt. unfold ltb. now rewrite E.
Qed.

Lemma Math_min_cases a b :
  (a <= b /\ Math_min a b = a) \/ (b < a /\ Math_min a b = b).
Proof.
  unfold Math_min. destruct (Qle_bool a b) eqn:E.
  - left. split; [now apply Qle_bool_iff|reflexivity].
  - right. split; [|reflexivity]. apply ltb_lt. unfold ltb. now rewrite E.
Qed.

(** What clamping does to a candidate. *)
Definition clamp_effect (videoDuration : Q) (raw : RawClip) (c : VideoClip) : Prop :=
  (0 <= raw_startTime raw -> startTime c == raw_startTime raw)
  /\ (raw_endTime raw <= videoDuration -> endTime c == raw_endTime raw)
  /\ (startTime c < endTime c
      <-> raw_startTime raw < raw_endTime raw
          /\ 0 < raw_endTime raw
          /\ raw_startTime raw < videoDuration
          /\ 0 < videoDuration).

Lemma stamp_clamp_effect d now i raw : clamp_effect d raw (stamp d now i raw).
Proof.
  unfold clamp_effect, stamp. simpl.
  destruct (Math_max_cases 0 (raw_startTime raw)) as [[H1 ->]|[H1 ->]];
    destruct (Math_min_cases d (raw_endTime raw)) as [[H2 ->]|[H2 ->]];
    repeat split; intros; try lra; try tauto.
Qed.

(** A candidate inside the video keeps its times, and a clip comes out with
    [startTime < endTime] exactly when its candidate is not empty and meets
    the video: it starts before it ends, ends after 0 and starts before the
    end of a video of positive length. *)
Theorem analyzeVideoFrames_clamp_effect (rawClips : list RawClip)
    (videoDuration : Q) (now : nat) :
  exists clips,
    analyzeVideoFrames (Parsed rawClips) videoDuration now = Ok clips
    /\ Forall2 (clamp_effect videoDuration) rawClips clips.
Proof.
  eexists. split; [reflexivity|].
  apply AnalyzeFacts.map_indexed_Forall2. intros i raw. apply stamp_clamp_effect.
Qed.

End AnalyzeMore.

(** ** [handleFileSelect]: when a run completes, and what it keeps *)

Module PipelineMore.
Import App geminiService PipelineFacts.
Local Open Scope Q_scope.

Ltac run_handler :=
  unfold run, rejects, handleFileSelect, mbind, M_bind, try_, set, await, mret, M_ret;
  cbn;
  repeat match goal with
  | |- context [fold_left ?f ?ps (setProgress ?pr ?s)] =>
      let pr' := fresh "pr" in
      let Hpr := fresh "Hpr" in
      destruct (progress_reports "Extracting frames..." ps pr s) as [pr' Hpr];
      cbn in Hpr; rewrite Hpr; clear Hpr
  end.

(** The state after a run that did not get its frames or its candidates. *)
Lemma handleFileSelect_fails source w st :
  (exists e, run_frames w = Throw e) \/ (forall rawClips, run_visual w <> Parsed rawClips) ->
  rejects (handleFileSelect source w) st = false
  /\ appState (run (handleFileSelect source w) st) = ERROR
  /\ clips (run (handleFileSelect source w) st) = []
  /\ activeClip (run (handleFileSelect source w) st) = None
  /\ transcript (run (handleFileSelect source w) st) = []
  /\ filteredClips (run (handleFileSelect source w) st) = filteredClips st.
Proof.
  intros Hfail. run_handler.
  destruct (run_frames w) as [frames|e] eqn:Hframes; cbn.
  - destruct Hfail as [[e He]|Hvisual]; [discriminate|].
    destruct (run_visual w) as [| | |rawClips] eqn:Hv;
      [| | |exfalso; now apply (Hvisual rawClips)]; cbn; repeat split.
  - repeat split.
Qed.

(** A run never rejects.  It ends in [READY] exactly when the frames were
    extracted and the visual analysis answered with a list of candidates, be
    it empty; every other run ends in [ERROR] with no clip, no active clip
    and no transcript, and with the displayed list of the previous session
    still in [filteredClips]. *)
Theorem handleFileSelect_outcome (source : Source) (w : Run) (st : State) :
  rejects (handleFileSelect source w) st = false
  /\ (appState (run (handleFileSelect source w) st) = READY
      <-> (exists frames, run_frames w = Ok frames)
          /\ (exists rawClips, run_visual w = Parsed rawClips))
  /\ (appState (run (handleFileSelect source w) st) <> READY ->
      appState (run (handleFileSelect source w) st) = ERROR
      /\ clips (run (handleFileSelect source w) st) = []
      /\ activeClip (run (handleFileSelect source w) st) = None
      /\ transcript (run (handleFileSelect source w) st) = []
      /\ filteredClips (run (handleFileSelect source w) st) = filteredClips st)
  /\ (run_visual w = Parsed [] ->
      appState (run (handleFileSelect source w) st) = READY ->
      clips (run (handleFileSelect source w) st) = []
      /\ filteredClips (run (handleFileSelect source w) st) = []
      /\ activeClip (run (handleFileSelect source w) st) = None).
Proof.
  destruct (run_frames w) as [frames|e] eqn:Hframes;
    [destruct (run_visual w) as [| | |rawClips] eqn:Hvisual|].
  5:{ destruct (handleFileSelect_fails source w st) as (Hr & Ha & Hc & Hac & Ht & Hf);
        [left; eauto|].
      split; [assumption|]. rewrite Ha. split; [|split].
      - split; [discriminate|]. intros [[? ?] _]. discriminate.
      - intros _. auto.
      - intros _ H. discriminate. }
  4:{ pose proof (handleFileSelect_completes source w st frames rawClips
                    Hframes Hvisual) as Hrun.
      split.
      { run_handler. rewrite Hframes, Hvisual. cbn.
        rewrite generateTranscript_total, Promise_all_embedClip.
        destruct (run_audio w); cbn;
          destruct (sortClips _ (sortOrder st)); reflexivity. }
      rewrite Hrun. cbn. split; [|split].
      - split; [eauto|reflexivity].
      - intros H. congruence.
      - intros Hnil _. injection Hnil as ->.
        unfold published. destruct (sortOrder st); repeat split. }
  all: destruct (handleFileSelect_fails source w st) as (Hr & Ha & Hc & Hac & Ht & Hf);
    [right; intros rawClips; rewrite Hvisual; discriminate|];
    (split; [assumption|]); rewrite Ha; (split; [|split]);
    [ split; [discriminate|]; intros [_ [? ?]]; discriminate
    | intros _; auto
    | intros H; discriminate ].
Qed.

(** A completed run replaces the session: what it leaves in [clips],
    [filteredClips], [activeClip], [transcript], the progress, the comments
    and their analysis is the same from any two previous states with the same
    sort order.  The clips are one per candidate, in that sort order, the
    displayed list is the clip list and the active clip is its first
    element. *)
Theorem handleFileSelect_replaces_session (source : Source) (w : Run)
    (st1 st2 : State) (frames : list VideoFrame) (rawClips : list RawClip) :
  run_frames w = Ok frames ->
  run_visual w = Parsed rawClips ->
  sortOrder st1 = sortOrder st2 ->
  let st1' := run (handleFileSelect source w) st1 in
  let st2' := run (handleFileSelect source w) st2 in
  (clips st1', filteredClips st1', activeClip st1', transcript st1',
   appState st1', progressState st1', comments st1', commentAnalysis st1')
  = (clips st2', filteredClips st2', activeClip st2', transcript st2',
     appState st2', progressState st2', comments st2', commentAnalysis st2')
  /\ length (clips st1') = length rawClips
  /\ SortFacts.ordered (SortFacts.sortKey (sortOrder st1)) (clips st1')
  /\ filteredClips st1' = clips st1'
  /\ activeClip st1' = hd_error (clips st1').
Proof.
  intros Hframes Hvisual Horder st1' st2'. subst st1' st2'.
  rewrite !(handleFileSelect_completes source w _ frames rawClips Hframes Hvisual).
  cbn. rewrite Horder. split; [reflexivity|]. split; [|split; [|split]].
  - unfold published. rewrite SortFacts.sortClips_length.
    now rewrite !AnalyzeFacts.map_indexed_length.
  - unfold published. apply SortFacts.sortClips_ordered.
  - reflexivity.
  - reflexivity.
Qed.

Lemma handleFileSelect_replaces_session_witness :
  (clips (run (handleFileSelect upload lossy) previous),
   filteredClips (run (handleFileSelect upload lossy) previous),
   activeClip (run (handleFileSelect upload lossy) previous),
   transcript (run (handleFileSelect upload lossy) previous),
   appState (run (handleFileSelect upload lossy) previous),
   progressState (run (handleFileSelect upload lossy) previous),
   comments (run (handleFileSelect upload lossy) previous),
   commentAnalysis (run (handleFileSelect upload lossy) previous))
  = (clips (run (handleFileSelect upload lossy) initialState),
     filteredClips (run (handleFileSelect upload lossy) initialState),
     activeClip (run (handleFileSelect upload lossy) initialState),
     transcript (run (handleFileSelect upload lossy) initialState),
     appState (run (handleFileSelect upload lossy) initialState),
     progressState (run (handleFileSelect upload lossy) initialState),
     comments (run (handleFileSelect upload lossy) initialState),
     commentAnalysis (run (handleFileSelect upload lossy) initialState))
  /\ length (clips (run (handleFileSelect upload lossy) previous)) = length five
  /\ SortFacts.ordered (SortFacts.sortKey (sortOrder previous))
       (clips (run (handleFileSelect upload lossy) previous))
  /\ filteredClips (run (handleFileSelect upload lossy) previous)
     = clips (run (handleFileSelect upload lossy) previous)
  /\ activeClip (run (handleFileSelect upload lossy) previous)
     = hd_error (clips (run (handleFileSelect upload lossy) previous)).
Proof.
  apply (handleFileSelect_replaces_session upload lossy previous initialState
           [ {| timestamp := 0; data := "" |} ] five); reflexivity.
Defined.

Lemma handleFileSelect_frame source w st :
  sortOrder (run (handleFileSelect source w) st) = sortOrder st
  /\ searchQuery (run (handleFileSelect source w) st) = searchQuery st.
Proof.
  run_handler.
  destruct (run_frames w); cbn; [|split; reflexivity].
  destruct (analyzeVideoFrames _ _ _); cbn; [|split; reflexivity].
  destruct (run_audio w); cbn;
    [destruct (generateTranscript _); cbn|];
    rewrite Promise_all_embedClip; cbn;
    destruct (sortClips _ (sortOrder st)); split; reflexivity.
Qed.

End PipelineMore.

(** ** [sortClips] once more: sorting what is sorted *)

Module SortMore.
Import App SortFacts.
Local Open Scope Q_scope.

Lemma sortClips_ordered_id l order :
  ordered (sortKey order) l -> sortClips l order = l.
Proof.
  intros Ho. symmetry. destruct order; simpl in *.
  - apply (Array_sort_characterized _ chronological compare_time);
      [assumption|reflexivity|reflexivity].
  - apply (Array_sort_characterized _ virality compare_viral);
      [assumption|reflexivity|reflexivity].
Qed.

Lemma sortClips_twice l order : sortClips (sortClips l order) order = sortClips l order.
Proof. apply sortClips_ordered_id, sortClips_ordered. Qed.

(** Choosing a sort order rearranges the displayed clips and nothing else:
    the list holds the same clips, in the chosen order, with tied clips in
    the order they were displayed in; the stored clips, the active clip and
    the query stay.  Choosing the same order again changes nothing. *)
Theorem changeSortOrder_rearranges (order : SortOrder) (st : State) :
  sortOrder (changeSortOrder order st) = order
  /\ Permutation (filteredClips (changeSortOrder order st)) (filteredClips st)
  /\ ordered (sortKey order) (filteredClips (changeSortOrder order st))
  /\ (forall k, tied (sortKey order) k (filteredClips (changeSortOrder order st))
                = tied (sortKey order) k (filteredClips st))
  /\ clips (changeSortOrder order st) = clips st
  /\ activeClip (changeSortOrder order st) = activeClip st
  /\ searchQuery (changeSortOrder order st) = searchQuery st
  /\ changeSortOrder order (changeSortOrder order st) = changeSortOrder order st
  /\ (ordered (sortKey order) (filteredClips st) ->
      filteredClips (changeSortOrder order st) = filteredClips st).
Proof.
  unfold changeSortOrder. cbn.
  split; [reflexivity|]. split; [apply sortClips_perm|].
  split; [apply sortClips_ordered|]. split; [intros k; apply sortClips_tied|].
  split; [reflexivity|]. split; [reflexivity|]. split; [reflexivity|]. split.
  - unfold setFilteredClips, setSortOrder. cbn. now rewrite sortClips_twice.
  - apply sortClips_ordered_id.
Qed.

End SortMore.

(** ** [handleSearch] once more: blank queries, repeated searches, the
       selection that follows *)

Module SearchMore.
Import App SearchFacts.
Local Open Scope Q_scope.

Section Search.
Variables (trim toLowerCase : string -> string).
Variable cosineSimilarity : list Q -> list Q -> Q.

Local Abbreviation handleSearch :=
  (App.handleSearch trim toLowerCase cosineSimilarity).
Local Abbreviation rankClips := (App.rankClips toLowerCase cosineSimilarity).

(** What a search leaves, for any query. *)
Lemma handleSearch_run backend st :
  run (handleSearch backend) st
  = if Str.falsy (trim (searchQuery st))
    then setFilteredClips (sortClips (clips st) (sortOrder st)) st
    else setIsSearching false
           (setActiveSidebarTab tab_clips
              (setFilteredClips
                 (rankClips (PipelineFacts.embedding_values backend) st) st)).
Proof.
  unfold run. destruct (Str.falsy (trim (searchQuery st))) eqn:Hq.
  - rewrite handleSearch_blank; [reflexivity|].
    destruct (trim (searchQuery st)); [reflexivity|discriminate].
  - rewrite handleSearch_ranks; [reflexivity|]. now apply falsy_false.
Qed.

Lemma handleSearch_never_rejects backend st :
  rejects (handleSearch backend) st = false.
Proof.
  unfold rejects. destruct (Str.falsy (trim (searchQuery st))) eqn:Hq.
  - rewrite handleSearch_blank; [reflexivity|].
    destruct (trim (searchQuery st)); [reflexivity|discriminate].
  - rewrite handleSearch_ranks; [reflexivity|]. now apply falsy_false.
Qed.

(** A blank query (empty once trimmed) shows every clip: the displayed list
    is the stored list in the active sort order, whatever the embedding
    backend would answer, and neither the spinner nor the sidebar tab is
    touched. *)
Theorem search_blank_shows_all (backend : embedded) (st : State) :
  trim (searchQuery st) = "" ->
  let st' := run (handleSearch backend) st in
  rejects (handleSearch backend) st = false
  /\ filteredClips st' = sortClips (clips st) (sortOrder st)
  /\ Permutation (filteredClips st') (clips st)
  /\ SortFacts.ordered (SortFacts.sortKey (sortOrder st)) (filteredClips st')
  /\ isSearching st' = isSearching st
  /\ activeSidebarTab st' = activeSidebarTab st
  /\ clips st' = clips st.
Proof.
  intros Hq st'. subst st'. split; [apply handleSearch_never_rejects|].
  rewrite handleSearch_run, Hq. cbn.
  split; [reflexivity|]. split; [apply SortFacts.sortClips_perm|].
  split; [apply SortFacts.sortClips_ordered|]. repeat split.
Qed.

(** A search starts from the stored clips, not from the list displayed: two
    states with the same clips, transcript, query and sort order get the
    same result, and searching twice is searching once. *)
Theorem search_ignores_displayed_list (backend : embedded) (st1 st2 : State) :
  clips st1 = clips st2 ->
  transcript st1 = transcript st2 ->
  searchQuery st1 = searchQuery st2 ->
  sortOrder st1 = sortOrder st2 ->
  filteredClips (run (handleSearch backend) st1)
  = filteredClips (run (handleSearch backend) st2)
  /\ run (handleSearch backend) (run (handleSearch backend) st1)
     = run (handleSearch backend) st1.
Proof.
  intros Hc Ht Hq Ho. split.
  - rewrite !handleSearch_run, Hq.
    destruct (Str.falsy (trim (searchQuery st2))); cbn.
    + now rewrite Hc, Ho.
    + unfold App.rankClips. now rewrite Hc, Ht, Hq, Ho.
  - rewrite (handleSearch_run backend st1).
    destruct (Str.falsy (trim (searchQuery st1))) eqn:E;
      rewrite handleSearch_run;
      change (searchQuery (setFilteredClips ?l st1)) with (searchQuery st1);
      change (searchQuery (setIsSearching ?b (setActiveSidebarTab ?t
                (setFilteredClips ?l st1)))) with (searchQuery st1);
      rewrite E; reflexivity.
Qed.

(** A search leaves these alone. *)
Lemma handleSearch_frame backend st :
  appState (run (handleSearch backend) st) = appState st
  /\ activeClip (run (handleSearch backend) st) = activeClip st
  /\ clips (run (handleSearch backend) st) = clips st
  /\ sortOrder (run (handleSearch backend) st) = sortOrder st
  /\ searchQuery (run (handleSearch backend) st) = searchQuery st
  /\ transcript (run (handleSearch backend) st) = transcript st.
Proof.
  rewrite handleSearch_run.
  destruct (Str.falsy (trim (searchQuery st))); repeat split.
Qed.

Lemma handleSearch_ordered backend st :
  SortFacts.ordered (SortFacts.sortKey (sortOrder st))
    (filteredClips (run (handleSearch backend) st)).
Proof.
  rewrite handleSearch_run.
  destruct (Str.falsy (trim (searchQuery st))); cbn;
    apply SortFacts.sortClips_ordered.
Qed.

(** After a search in [READY] the selection effect makes the first result
    the active clip, and no result sorts before it; when nothing is found the
    active clip stays the one it was, though it is not displayed. *)
Theorem search_selects_first_result (backend : embedded) (st : State) :
  appState st = READY ->
  let found := run (handleSearch backend) st in
  filteredClips (autoSelect found) = filteredClips found
  /\ match filteredClips found with
     | [] => activeClip (autoSelect found) = activeClip st
     | first :: rest =>
         activeClip (autoSelect found) = Some first
         /\ Forall (fun c => SortFacts.sortKey (sortOrder st) first
                             <= SortFacts.sortKey (sortOrder st) c) rest
     end.
Proof.
  intros Hready found.
  pose proof (handleSearch_frame backend st) as (Ha & Hac & _).
  pose proof (handleSearch_ordered backend st) as Hord.
  fold found in Ha, Hac, Hord.
  unfold autoSelect. rewrite Ha, Hready.
  destruct (filteredClips found) as [|first rest] eqn:Hf.
  - split; [assumption|assumption].
  - cbn. split; [assumption|]. split; [reflexivity|].
    unfold SortFacts.ordered in Hord. now inversion Hord.
Qed.

End Search.

(** The search of the examples: the ASCII tables and the spec's cosine. *)
Local Abbreviation search :=
  (App.handleSearch Str.trim Str.toLowerCase vectorUtils.cosineSimilarity).

Lemma search_blank_shows_all_witness :
  let st' := run (search answered) sessionBlank in
  rejects (search answered) sessionBlank = false
  /\ filteredClips st' = sortClips (clips sessionBlank) (sortOrder sessionBlank)
  /\ Permutation (filteredClips st') (clips sessionBlank)
  /\ SortFacts.ordered (SortFacts.sortKey (sortOrder sessionBlank))
       (filteredClips st')
  /\ isSearching st' = isSearching sessionBlank
  /\ activeSidebarTab st' = activeSidebarTab sessionBlank
  /\ clips st' = clips sessionBlank.
Proof.
  apply (search_blank_shows_all Str.trim Str.toLowerCase
           vectorUtils.cosineSimilarity answered sessionBlank).
  reflexivity.
Defined.

Lemma search_ignores_displayed_list_witness :
  filteredClips (run (search answered) sessionLaunch)
  = filteredClips (run (search answered) (setFilteredClips [] sessionLaunch))
  /\ run (search answered) (run (search answered) sessionLaunch)
     = run (search answered) sessionLaunch.
Proof.
  apply (search_ignores_displayed_list Str.trim Str.toLowerCase
           vectorUtils.cosineSimilarity answered
           sessionLaunch (setFilteredClips [] sessionLaunch)); reflexivity.
Defined.

Lemma search_selects_first_result_witness :
  let found := run (search answered) sessionLaunch in
  filteredClips (autoSelect found) = filteredClips found
  /\ match filteredClips found with
     | [] => activeClip (autoSelect found) = activeClip sessionLaunch
     | first :: rest =>
         activeClip (autoSelect found) = Some first
         /\ Forall (fun c => SortFacts.sortKey (sortOrder sessionLaunch) first
                             <= SortFacts.sortKey (sortOrder sessionLaunch) c) rest
     end.
Proof.
  apply (search_selects_first_result Str.trim Str.toLowerCase
           vectorUtils.cosineSimilarity answered sessionLaunch).
  reflexivity.
Defined.

(** ** [handleTranscriptSegmentClick] *)

(** The clip spans the time: [startTime <= t < endTime]. *)
Definition spans (t : Q) (c : VideoClip) : Prop :=
  startTime c <= t /\ t < endTime c.

Lemma spans_test t c :
  geb t (startTime c) && ltb t (endTime c) = true <-> spans t c.
Proof. unfold spans. now rewrite andb_true_iff, geb_ge, ltb_lt. Qed.

(** A click on the transcript at time [t] makes the first stored clip that
    spans [t] the active one, and does nothing when no stored clip spans
    [t]; the clips and the displayed list stay as they are. *)
Theorem transcript_click_selects_first_spanning (t : Q) (st : State) :
  let st' := handleTranscriptSegmentClick t st in
  clips st' = clips st
  /\ filteredClips st' = filteredClips st
  /\ appState st' = appState st
  /\ ((forall c, In c (clips st) -> ~ spans t c) -> st' = st)
  /\ ((exists c, In c (clips st) /\ spans t c) ->
      exists before c after,
        clips st = before ++ c :: after
        /\ Forall (fun b => ~ spans t b) before
        /\ spans t c
        /\ activeClip st' = Some c).
Proof.
  intros st'. subst st'. unfold handleTranscriptSegmentClick.
  destruct (find _ (clips st)) as [c|] eqn:Hfind.
  - cbn. repeat split.
    + intros Hnone. apply find_some in Hfind. destruct Hfind as [Hin Hc].
      apply spans_test in Hc. exfalso. now apply (Hnone c).
    + intros _. clear - Hfind. induction (clips st) as [|x l IH]; [discriminate|].
      simpl in Hfind.
      destruct (geb t (startTime x) && ltb t (endTime x)) eqn:Hx.
      * injection Hfind as ->. exists [], c, l.
        repeat split; [constructor|apply spans_test; assumption..].
      * destruct (IH Hfind) as (before & c' & after & -> & Hb & Hc & Hact).
        exists (x :: before), c', after. repeat split; try apply Hc; try assumption.
        constructor; [|assumption]. intros Hs. apply spans_test in Hs. congruence.
  - repeat split.
    intros (c & Hin & Hc). exfalso.
    apply (find_none _ _ Hfind) in Hin. apply spans_test in Hc. congruence.
Qed.

End SearchMore.

(** ** What holds in every state a session can reach *)

Module SessionMore.
Import App Session SortFacts.
Local Open Scope Q_scope.

(** [r] is the stored clip [c], or a copy of it with a score. *)
Definition same_clip (c r : VideoClip) : Prop :=
  r = c \/ exists s, r = with_score c s.

(** What holds of the state on the screen. *)
Record settled (st : State) : Prop := mkSettled {
  inv_ids : List.NoDup (List.map id (clips st));
  inv_unscored : Forall (fun c => score c = None) (clips st);
  inv_embedded : Forall (fun c => exists e, embedding c = Some e) (clips st);
  inv_shown_ids : List.NoDup (List.map id (filteredClips st));
  inv_sorted : exists order, ordered (sortKey order) (filteredClips st);
  inv_shown :
    Forall (fun r => exists c, In c (clips st) /\ same_clip c r) (filteredClips st);
  inv_active :
    forall a, activeClip st = Some a -> exists c, In c (clips st) /\ same_clip c a;
  inv_not_ready :
    appState st <> READY ->
    clips st = [] /\ filteredClips st = [] /\ activeClip st = None
}.

(** What the render [st0] of a search under way holds, next to the state
    [st] on the screen: no clip at all, or the clips and the transcript of
    the session on the screen. *)
Definition anchored (st st0 : State) : Prop :=
  clips st0 = []
  \/ (appState st = READY /\ clips st0 = clips st /\ transcript st0 = transcript st).

Record invariant (c : Component) : Prop := mkInvariant {
  inv_current : settled (current c);
  inv_timer : forall st0, timer c = Some st0 -> anchored (current c) st0;
  inv_searching : Forall (anchored (current c)) (searching c)
}.

Lemma NoDup_map_filter {A B} (f : A -> B) (p : A -> bool) l :
  List.NoDup (List.map f l) -> List.NoDup (List.map f (List.filter p l)).
Proof.
  induction l as [|x l IH]; simpl; intros Hnd; [constructor|].
  inversion Hnd as [|? ? Hx Hl]; subst.
  destruct (p x); simpl; [|now apply IH].
  constructor; [|now apply IH].
  intros Hin. apply Hx. apply in_map_iff in Hin. destruct Hin as (y & Hy & Hin).
  apply in_map_iff. exists y. split; [assumption|].
  apply filter_In in Hin. tauto.
Qed.

Lemma NoDup_ids_sortClips l order :
  List.NoDup (List.map id l) -> List.NoDup (List.map id (sortClips l order)).
Proof.
  intros H. eapply Permutation_NoDup; [|exact H].
  apply Permutation_map. symmetry. apply sortClips_perm.
Qed.

Lemma map_indexed_source {A B} (f : nat -> A -> B) l : forall k y,
  In y (map_indexed f k l) -> exists i x, In x l /\ y = f i x.
Proof.
  induction l as [|x l IH]; intros k y; simpl; [tauto|].
  intros [<-|Hin]; [eauto|].
  apply IH in Hin. destruct Hin as (i & x' & Hx & ->). eauto.
Qed.

Lemma sortClips_nil order : sortClips [] order = [].
Proof. now destruct order. Qed.

Lemma settled_initial : settled initialState.
Proof.
  split; cbn; try (constructor; fail); try (intros; discriminate).
  - exists time. constructor.
  - repeat split.
Qed.

Lemma invariant_mounted : invariant mounted.
Proof.
  split; cbn.
  - apply settled_initial.
  - intros st0 [= <-]. now left.
  - constructor.
Qed.

(** *** The state on the screen, handler by handler *)

Lemma settled_file source w st :
  settled st -> appState st = IDLE ->
  settled (run (handleFileSelect source w) st).
Proof.
  intros [Hi Hu He Hsi Hs Hsh Hac Hnr] Hidle.
  destruct Hnr as (Hc0 & Hf0 & Ha0); [rewrite Hidle; discriminate|].
  assert (Hfails :
    (exists e, run_frames w = Throw e)
    \/ (forall rawClips, run_visual w <> Parsed rawClips) ->
    settled (run (handleFileSelect source w) st)).
  { intros Hfail.
    destruct (PipelineMore.handleFileSelect_fails source w st Hfail)
      as (_ & Ha & Hc & Hact & _ & Hf).
    split; rewrite ?Hf, ?Hf0, ?Hc, ?Hact; try (constructor; fail);
      try (intros; discriminate).
    - exists time. constructor.
    - intros _. repeat split. }
  destruct (run_frames w) as [frames|e] eqn:Hframes; [|apply Hfails; eauto].
  destruct (run_visual w) as [| | |rawClips] eqn:Hvisual;
    try (apply Hfails; right; intros r; discriminate).
  rewrite (PipelineFacts.handleFileSelect_completes source w st frames rawClips
             Hframes Hvisual).
  set (out := PipelineFacts.published w (sortOrder st) rawClips).
  assert (Hids : List.NoDup (List.map id out)).
  { unfold out, PipelineFacts.published. apply NoDup_ids_sortClips.
    rewrite AnalyzeMore.embedded_ids. apply AnalyzeMore.stamp_ids_distinct. }
  assert (Hall : forall P : VideoClip -> Prop,
             (forall i c, P (PipelineFacts.embedded_clip w i c)) ->
             Forall P out).
  { intros P HP. unfold out, PipelineFacts.published.
    eapply Permutation_Forall; [symmetry; apply sortClips_perm|].
    apply PipelineFacts.map_indexed_Forall. exact HP. }
  split; cbn.
  - exact Hids.
  - apply List.Forall_forall. intros c Hc.
    unfold out, PipelineFacts.published in Hc. apply sortClips_In in Hc.
    apply map_indexed_source in Hc. destruct Hc as (i & c0 & Hc0' & ->).
    apply map_indexed_source in Hc0'. destruct Hc0' as (j & raw & _ & ->).
    reflexivity.
  - apply Hall. intros i c. eexists. reflexivity.
  - exact Hids.
  - exists (sortOrder st). unfold out, PipelineFacts.published.
    apply sortClips_ordered.
  - apply List.Forall_forall. intros r Hr. exists r. split; [assumption|].
    now left.
  - intros a Hhd. exists a. split; [|now left].
    destruct out as [|first rest]; [discriminate|].
    injection Hhd as ->. now left.
  - intros H. now contradiction H.
Qed.

Section Events.
Variables (trim toLowerCase : string -> string).
Variable cosineSimilarity : list Q -> list Q -> Q.

Local Abbreviation handleSearch :=
  (App.handleSearch trim toLowerCase cosineSimilarity).
Local Abbreviation rankClips := (App.rankClips toLowerCase cosineSimilarity).
Local Abbreviation rankedClip :=
  (SearchFacts.rankedClip toLowerCase cosineSimilarity).
Local Abbreviation react := (Session.react trim toLowerCase cosineSimilarity).
Local Abbreviation play := (Session.play trim toLowerCase cosineSimilarity).

Lemma rankedClip_id queryEmbedding st c :
  id (rankedClip queryEmbedding st c) = id c.
Proof. now rewrite SearchFacts.rankedClip_with_score. Qed.

(** The list a search sets, whichever render it closed over. *)
Definition found (backend : embedded) (st0 : State) : list VideoClip :=
  if Str.falsy (trim (searchQuery st0))
  then sortClips (clips st0) (sortOrder st0)
  else rankClips (PipelineFacts.embedding_values backend) st0.

Lemma found_ordered backend st0 :
  ordered (sortKey (sortOrder st0)) (found backend st0).
Proof.
  unfold found. destruct (Str.falsy _); [apply sortClips_ordered|].
  unfold App.rankClips. apply sortClips_ordered.
Qed.

Lemma found_ids backend st0 :
  List.NoDup (List.map id (clips st0)) ->
  List.NoDup (List.map id (found backend st0)).
Proof.
  intros Hi. unfold found. destruct (Str.falsy _).
  - now apply NoDup_ids_sortClips.
  - rewrite SearchFacts.rankClips_unfold. apply NoDup_ids_sortClips.
    apply NoDup_map_filter. rewrite List.map_map.
    erewrite map_ext; [exact Hi|]. intros c. apply rankedClip_id.
Qed.

Lemma found_source backend st0 r :
  In r (found backend st0) -> exists c, In c (clips st0) /\ same_clip c r.
Proof.
  unfold found. destruct (Str.falsy _); intros Hr.
  - apply sortClips_In in Hr. exists r. split; [assumption|now left].
  - rewrite SearchFacts.rankClips_unfold in Hr. apply sortClips_In in Hr.
    apply filter_In in Hr. destruct Hr as [Hr _].
    apply in_map_iff in Hr. destruct Hr as (c & <- & Hc).
    exists c. split; [assumption|]. right. eexists.
    apply SearchFacts.rankedClip_with_score.
Qed.

Lemma found_nothing backend st0 : clips st0 = [] -> found backend st0 = [].
Proof.
  intros Hc. destruct (found backend st0) as [|r l] eqn:Hf; [reflexivity|].
  destruct (found_source backend st0 r) as (c & Hin & _);
    [rewrite Hf; now left|].
  rewrite Hc in Hin. destruct Hin.
Qed.

Lemma settled_search backend st0 st :
  settled st -> anchored st st0 ->
  settled (snd (handleSearch backend st0 st)).
Proof.
  intros [Hi Hu He Hsi Hs Hsh Hac Hnr] Hanch.
  destruct (SearchFacts.closure_frame trim toLowerCase cosineSimilarity
              backend st0 st) as (Ha & Hc & _ & Hact & _ & _ & Hf).
  fold (found backend st0) in Hf.
  split; rewrite ?Ha, ?Hc, ?Hact, ?Hf; try assumption.
  - destruct Hanch as [Hnone|(_ & Hsame & _)].
    + rewrite found_nothing by assumption. constructor.
    + apply found_ids. now rewrite Hsame.
  - exists (sortOrder st0). apply found_ordered.
  - apply List.Forall_forall. intros r Hr.
    destruct Hanch as [Hnone|(_ & Hsame & _)].
    + rewrite found_nothing in Hr by assumption. destruct Hr.
    + rewrite <- Hsame. now apply (found_source backend).
  - intros Hnot. destruct (Hnr Hnot) as (Hc0 & _ & Hact0).
    repeat split; try assumption.
    destruct Hanch as [Hnone|(Hready & _)]; [|contradiction].
    now apply found_nothing.
Qed.

Lemma settled_sort order st : settled st -> settled (changeSortOrder order st).
Proof.
  intros [Hi Hu He Hsi Hs Hsh Hac Hnr]. unfold changeSortOrder.
  split; cbn; try assumption.
  - now apply NoDup_ids_sortClips.
  - exists order. apply sortClips_ordered.
  - apply List.Forall_forall. intros r Hr. apply sortClips_In in Hr.
    rewrite List.Forall_forall in Hsh. now apply Hsh.
  - intros Hnot. destruct (Hnr Hnot) as (Hc0 & Hf0 & Hact0).
    repeat split; try assumption. rewrite Hf0. apply sortClips_nil.
Qed.

Lemma settled_select a st :
  settled st -> appState st = READY ->
  (exists c, In c (clips st) /\ same_clip c a) ->
  settled (setActiveClip (Some a) st).
Proof.
  intros [Hi Hu He Hsi Hs Hsh Hac Hnr] Hready Ha. split; cbn; try assumption.
  - intros a' [= <-]. exact Ha.
  - intros Hnot. contradiction.
Qed.

Lemma settled_tab tab st : settled st -> settled (setActiveSidebarTab tab st).
Proof. intros []. split; assumption. Qed.

Lemma settled_query query st : settled st -> settled (setSearchQuery query st).
Proof. intros []. split; assumption. Qed.

Lemma settled_retry st :
  settled st -> appState st = ERROR -> settled (setAppState IDLE st).
Proof.
  intros [Hi Hu He Hsi Hs Hsh Hac Hnr] Herror. split; cbn; try assumption.
  intros _. apply Hnr. rewrite Herror. discriminate.
Qed.

Lemma settled_autoSelect st : settled st -> settled (autoSelect st).
Proof.
  intros Hst. unfold autoSelect.
  destruct (appState st) eqn:Ha; try assumption.
  destruct (filteredClips st) as [|first rest] eqn:Hf; [assumption|].
  apply settled_select; [assumption|assumption|].
  pose proof (inv_shown st Hst) as Hsh. rewrite Hf in Hsh.
  now inversion Hsh.
Qed.

Lemma settled_click t st :
  settled st -> appState st = READY ->
  settled (handleTranscriptSegmentClick t st).
Proof.
  intros Hst Hready. unfold handleTranscriptSegmentClick.
  destruct (find _ (clips st)) as [c|] eqn:Hfind; [|assumption].
  apply settled_select; [assumption|assumption|].
  apply find_some in Hfind. exists c. split; [tauto|now left].
Qed.

(** *** The searches under way *)

Lemma anchored_keep st st' st0 :
  appState st' = appState st -> clips st' = clips st ->
  transcript st' = transcript st ->
  anchored st st0 -> anchored st' st0.
Proof.
  intros Ha Hc Ht [Hnone|Hsame]; [now left|right].
  now rewrite Ha, Hc, Ht.
Qed.

Lemma anchored_before st st' st0 :
  appState st <> READY -> anchored st st0 -> anchored st' st0.
Proof. intros Hnot [Hnone|(Hready & _)]; [now left|contradiction]. Qed.

(** A change of the state on the screen that keeps the session. *)
Lemma invariant_keep st' c :
  invariant c -> settled st' ->
  appState st' = appState (current c) -> clips st' = clips (current c) ->
  transcript st' = transcript (current c) ->
  invariant (with_current st' c).
Proof.
  intros [Hcur Ht Hs] Hst' Ha Hc Htr. split; cbn.
  - assumption.
  - intros st0 H0. eapply anchored_keep; eauto.
  - eapply List.Forall_impl; [|exact Hs]. intros st0. now apply anchored_keep.
Qed.

Lemma shows_sidebar_ready st : shows_sidebar st = true -> appState st = READY.
Proof. unfold shows_sidebar. now destruct (appState st). Qed.

Lemma In_without {A} (k : nat) (l : list A) x :
  In x (firstn k l ++ skipn (S k) l) -> In x l.
Proof.
  revert k. induction l as [|y l IH]; intros [|k]; simpl; try tauto.
  intros [->|H]; [now left|right]. now apply (IH k).
Qed.

(** Each event keeps the invariant. *)
Lemma invariant_react e c : invariant c -> invariant (react e c).
Proof.
  intros Hinv. pose proof Hinv as [Hcur Ht Hs].
  destruct e; unfold Session.react; cbv zeta.
  - (* a file is selected *)
    destruct (appState (current c)) eqn:Ha; try assumption.
    assert (Hnot : appState (current c) <> READY) by (rewrite Ha; discriminate).
    split; cbn.
    + apply settled_file; assumption.
    + intros st0 H0. eapply anchored_before; eauto.
    + eapply List.Forall_impl; [|exact Hs]. intros st0.
      now apply anchored_before.
  - (* retry *)
    destruct (appState (current c)) eqn:Ha; try assumption.
    assert (Hnot : appState (current c) <> READY) by (rewrite Ha; discriminate).
    split; cbn.
    + apply settled_retry; assumption.
    + intros st0 H0. eapply anchored_before; eauto.
    + eapply List.Forall_impl; [|exact Hs]. intros st0.
      now apply anchored_before.
  - (* the query changes *)
    destruct (shows_search_box (current c) && _) eqn:Hshown; [|assumption].
    apply andb_true_iff in Hshown. destruct Hshown as [Hbox _].
    unfold shows_search_box in Hbox. apply andb_true_iff in Hbox.
    destruct Hbox as [Hready _]. apply shows_sidebar_ready in Hready.
    split; cbn.
    + now apply settled_query.
    + intros st0 [= <-]. right. repeat split. assumption.
    + eapply List.Forall_impl; [|exact Hs]. intros st0.
      now apply anchored_keep.
  - (* the timer fires *)
    destruct (timer c) as [st0|] eqn:Htimer; [|assumption].
    split; cbn; [assumption|discriminate|].
    apply Forall_app. split; [assumption|]. constructor; [|constructor].
    now apply Ht.
  - (* a search ends *)
    destruct (nth_error (searching c) k) as [st0|] eqn:Hk; [|assumption].
    assert (Hanch : anchored (current c) st0).
    { rewrite List.Forall_forall in Hs. apply Hs.
      eapply nth_error_In. eassumption. }
    destruct (SearchFacts.closure_frame trim toLowerCase cosineSimilarity
                backend st0 (current c)) as (Ha & Hc & Htr & _).
    split; cbn.
    + now apply settled_search.
    + intros st1 H1. eapply anchored_keep; eauto.
    + apply List.Forall_forall. intros st1 H1. apply In_without in H1.
      rewrite List.Forall_forall in Hs.
      eapply anchored_keep; eauto.
  - (* the sort order changes *)
    destruct (shows_clip_list (current c) && _); [|assumption].
    apply invariant_keep; try reflexivity; [assumption|].
    now apply settled_sort.
  - (* a clip is chosen in the list *)
    destruct (shows_clip_list (current c)) eqn:Hshown; [|assumption].
    unfold shows_clip_list in Hshown. apply andb_true_iff in Hshown.
    destruct Hshown as [Hready _]. apply shows_sidebar_ready in Hready.
    destruct (nth_error (filteredClips (current c)) index) as [clip|] eqn:Hn;
      [|assumption].
    apply invariant_keep; try reflexivity; [assumption|].
    apply settled_select; [assumption|assumption|].
    pose proof (inv_shown _ Hcur) as Hsh. rewrite List.Forall_forall in Hsh.
    apply Hsh. eapply nth_error_In. eassumption.
  - (* a segment of the transcript is clicked *)
    destruct (shows_transcript (current c)) eqn:Hshown; [|assumption].
    unfold shows_transcript in Hshown. apply andb_true_iff in Hshown.
    destruct Hshown as [Hready _]. apply shows_sidebar_ready in Hready.
    apply invariant_keep; [assumption|now apply settled_click|..];
      unfold handleTranscriptSegmentClick;
      destruct (find _ (clips (current c))); reflexivity.
  - (* a tab is chosen *)
    destruct (shows_sidebar (current c)); [|assumption].
    apply invariant_keep; try reflexivity; [assumption|].
    now apply settled_tab.
  - (* the selection effect *)
    apply invariant_keep; [assumption|now apply settled_autoSelect|..];
      unfold autoSelect; destruct (appState (current c)) eqn:Ha;
      try destruct (filteredClips (current c)); cbn; try reflexivity;
      assumption.
Qed.

Lemma invariant_play events : forall c, invariant c -> invariant (play events c).
Proof.
  induction events as [|e events IH]; intros c Hinv; simpl; [assumption|].
  apply IH. now apply invariant_react.
Qed.

End Events.

(** Every state the component reaches from its mounting satisfies the
    invariant, whatever the order of file selections, retries, typing,
    timers firing, searches ending, sort choices, clicks on a clip or on
    the transcript, tab changes and selection effects; each control acts
    only while it is on the screen, and a search ends with the render it
    was created in.  On the screen: identifiers are pairwise different
    among the stored clips and among the displayed ones; no stored clip
    carries a score and each carries an embedding; the displayed list is
    sorted chronologically or by virality (by the order of the render that
    produced it, which need not be the order selected now); every
    displayed clip, and the active clip, is a stored clip or a scored copy
    of one; outside [READY] nothing is stored, displayed or active.  Every
    search under way closed over no clip at all or over the clips and the
    transcript of the session on the screen. *)
Theorem session_invariant (trim toLowerCase : string -> string)
    (cosineSimilarity : list Q -> list Q -> Q) (events : list event) :
  invariant (play trim toLowerCase cosineSimilarity events mounted).
Proof.
  apply invariant_play. apply invariant_mounted.
Qed.

(** In every state the component reaches, a search that waits on the timer
    or is under way finds an embedding on every clip it ranks, and the clip
    is one of the session on the screen: the base score is the cosine
    similarity with that embedding, and the default 0 of
    [clip.embedding ? ... : 0] is never taken. *)
Theorem search_scores_by_cosine (trim toLowerCase : string -> string)
    (cosineSimilarity : list Q -> list Q -> Q) (events : list event)
    (st0 : State) (clip : VideoClip) :
  let c := play trim toLowerCase cosineSimilarity events mounted in
  timer c = Some st0 \/ In st0 (searching c) ->
  In clip (clips st0) ->
  In clip (clips (current c))
  /\ exists e,
       embedding clip = Some e
       /\ forall queryEmbedding,
            score (scoreClip cosineSimilarity queryEmbedding clip)
            = Some (cosineSimilarity queryEmbedding e).
Proof.
  intros c Hst0 Hclip.
  pose proof (invariant_play trim toLowerCase cosineSimilarity events mounted
                invariant_mounted) as [Hcur Ht Hs].
  fold c in Hcur, Ht, Hs.
  assert (Hanch : anchored (current c) st0).
  { destruct Hst0 as [H|H]; [now apply Ht|].
    rewrite List.Forall_forall in Hs. now apply Hs. }
  destruct Hanch as [Hnone|(_ & Hsame & _)];
    [rewrite Hnone in Hclip; destruct Hclip|].
  rewrite Hsame in Hclip. split; [assumption|].
  pose proof (inv_embedded _ Hcur) as He. rewrite List.Forall_forall in He.
  destruct (He clip Hclip) as [e Hemb]. exists e. split; [assumption|].
  intros queryEmbedding. unfold scoreClip. now rewrite Hemb.
Qed.

Lemma search_scores_by_cosine_witness :
  let st0 := setSearchQuery "two"
               (run (handleFileSelect upload PipelineFacts.lossy) initialState) in
  let c := play Str.trim Str.toLowerCase vectorUtils.cosineSimilarity
             [FileSelected upload PipelineFacts.lossy; QueryTyped "two"] mounted in
  timer c = Some st0
  /\ length (clips st0) = 5%nat
  /\ forall clip,
       In clip (clips st0) ->
       In clip (clips (current c))
       /\ exists e,
            embedding clip = Some e
            /\ forall queryEmbedding,
                 score (scoreClip vectorUtils.cosineSimilarity queryEmbedding clip)
                 = Some (vectorUtils.cosineSimilarity queryEmbedding e).
Proof.
  intros st0 c.
  assert (Htimer : timer c = Some st0)
    by (subst st0 c; vm_compute; reflexivity).
  assert (Hlen : length (clips st0) = 5%nat)
    by (subst st0; vm_compute; reflexivity).
  split; [exact Htimer|]. split; [exact Hlen|]. intros clip Hclip.
  pose proof (search_scores_by_cosine Str.trim Str.toLowerCase
                vectorUtils.cosineSimilarity
                [FileSelected upload PipelineFacts.lossy; QueryTyped "two"]
                st0 clip) as H.
  cbv zeta in H. fold c in H. apply H.
  - left. exact Htimer.
  - exact Hclip.
Defined.

(** A session played through: the first timer ends on the empty session, a
    run succeeds, a query is typed, and the sort order is changed before
    the timer of the query fires.  The search sorts by the order of the
    render the query was typed in: the list is chronological though the
    order selected is by virality. *)
Example play_stale_search :
  let c := play Str.trim Str.toLowerCase vectorUtils.cosineSimilarity
             [ TimerFired; SearchDone 0 EmbedRejected;
               FileSelected upload PipelineFacts.lossy;
               QueryTyped "STUB";
               SortChosen viral;
               TimerFired; SearchDone 0 EmbedRejected;
               Rendered ]
             mounted in
  (appState (current c), sortOrder (current c),
   List.map title (filteredClips (current c)),
   option_map title (activeClip (current c)),
   timer c, List.length (searching c))
  = (READY, viral, ["one"; "two"; "three"; "four"; "five"], Some "one",
     None, O).
Proof. reflexivity. Qed.

(** The same session when the timer fires before the sort order changes. *)
Example play_launch_session :
  let c := play Str.trim Str.toLowerCase vectorUtils.cosineSimilarity
             [ FileSelected upload PipelineFacts.lossy;
               QueryTyped "STUB";
               TimerFired; SearchDone 0 EmbedRejected;
               SortChosen viral;
               Rendered ]
             mounted in
  (appState (current c), sortOrder (current c),
   List.map title (filteredClips (current c)),
   option_map title (activeClip (current c)),
   List.length (searching c))
  = (READY, viral, ["five"; "four"; "three"; "two"; "one"], Some "five", O).
Proof. reflexivity. Qed.

End SessionMore.

(** ** [formatTime] and the name of a downloaded clip *)

Module DisplayFacts.
Import Display.
Local Open Scope Q_scope.

Lemma Qfloor_unique x k :
  inject_Z k <= x -> x < inject_Z (k + 1) -> Qfloor x = k.
Proof.
  intros Hle Hlt. apply Z.le_antisymm.
  - assert (H : (Qfloor x < k + 1)%Z).
    { rewrite Zlt_Qlt. eapply Qle_lt_trans; [apply Qfloor_le|exact Hlt]. }
    lia.
  - rewrite <- (Qfloor_Z k). now apply Qfloor_resp_le.
Qed.

Lemma toString_nonneg z : (0 <= z)%Z -> Js.toString z = Str.of_nat (Z.to_nat z).
Proof. destruct z; [reflexivity|reflexivity|lia]. Qed.

Lemma two_digits s :
  (s < 60)%nat -> String.length (Js.padStart 2 (Str.of_nat s)) = 2%nat.
Proof.
  intros Hs. do 60 (destruct s as [|s]; [reflexivity|]). lia.
Qed.

(** Whole minutes and seconds of a time that is not negative. *)
Lemma minutes_and_seconds time :
  0 <= time ->
  Js.Math_floor (time / 60) = (Qfloor time / 60)%Z
  /\ Js.Math_floor (Js.rem time 60) = (Qfloor time mod 60)%Z.
Proof.
  intros Htime.
  pose proof (Qfloor_le time) as Hlo. pose proof (Qlt_floor time) as Hhi.
  pose proof (Z.div_mod (Qfloor time) 60 ltac:(lia)) as Hdm.
  pose proof (Z.mod_pos_bound (Qfloor time) 60 ltac:(lia)) as Hr.
  set (q := (Qfloor time / 60)%Z) in *. set (r := (Qfloor time mod 60)%Z) in *.
  assert (Hf : inject_Z (Qfloor time) == 60 * inject_Z q + inject_Z r).
  { rewrite Hdm at 1. rewrite inject_Z_plus, inject_Z_mult. reflexivity. }
  assert (Hf1 : inject_Z (Qfloor time + 1) == 60 * inject_Z q + inject_Z r + 1).
  { rewrite inject_Z_plus, Hf. reflexivity. }
  assert (Hr0 : 0 <= inject_Z r).
  { replace 0 with (inject_Z 0) by reflexivity. rewrite <- Zle_Qle. lia. }
  assert (Hr59 : inject_Z r <= 59).
  { replace 59 with (inject_Z 59) by reflexivity. rewrite <- Zle_Qle. lia. }
  assert (Hq1 : inject_Z (q + 1) == inject_Z q + 1)
    by (rewrite inject_Z_plus; reflexivity).
  assert (Hr1 : inject_Z (r + 1) == inject_Z r + 1)
    by (rewrite inject_Z_plus; reflexivity).
  assert (Hmins : Qfloor (time / 60) = q).
  { apply Qfloor_unique.
    - apply Qle_shift_div_l; [reflexivity|]. lra.
    - apply Qlt_shift_div_r; [reflexivity|]. lra. }
  split; [exact Hmins|].
  unfold Js.Math_floor, Js.rem, Js.trunc.
  assert (H60 : 0 <= time / 60).
  { apply Qle_shift_div_l; [reflexivity|]. lra. }
  apply Qle_bool_iff in H60. rewrite H60, Hmins.
  apply Qfloor_unique; lra.
Qed.

(** For a time that is not negative [formatTime] shows the whole seconds of
    the time as minutes and seconds: the minutes, a colon, and the seconds
    below 60 on exactly two characters. *)
Theorem formatTime_minutes_seconds (time : Q) :
  0 <= time ->
  exists mins secs : nat,
    Z.of_nat (60 * mins + secs) = Qfloor time
    /\ (secs < 60)%nat
    /\ formatTime time
       = (Str.of_nat mins ++ ":" ++ Js.padStart 2 (Str.of_nat secs))%string
    /\ String.length (Js.padStart 2 (Str.of_nat secs)) = 2%nat.
Proof.
  intros Htime.
  destruct (minutes_and_seconds time Htime) as [Hm Hs].
  assert (Hf : (0 <= Qfloor time)%Z).
  { replace 0%Z with (Qfloor 0) by reflexivity. now apply Qfloor_resp_le. }
  pose proof (Z.div_mod (Qfloor time) 60 ltac:(lia)) as Hdm.
  pose proof (Z.mod_pos_bound (Qfloor time) 60 ltac:(lia)) as Hr.
  assert (Hq : (0 <= Qfloor time / 60)%Z) by (apply Z.div_pos; lia).
  exists (Z.to_nat (Qfloor time / 60)), (Z.to_nat (Qfloor time mod 60)).
  split; [lia|]. split; [lia|]. split.
  - unfold formatTime. rewrite Hm, Hs.
    rewrite !toString_nonneg by lia. reflexivity.
  - apply two_digits. lia.
Qed.

Lemma formatTime_minutes_seconds_witness :
  exists mins secs : nat,
    Z.of_nat (60 * mins + secs) = Qfloor 75.5
    /\ (secs < 60)%nat
    /\ formatTime 75.5
       = (Str.of_nat mins ++ ":" ++ Js.padStart 2 (Str.of_nat secs))%string
    /\ String.length (Js.padStart 2 (Str.of_nat secs)) = 2%nat.
Proof.
  apply (formatTime_minutes_seconds 75.5). discriminate.
Defined.

Example formatTime_examples :
  (formatTime 75.5, formatTime 5, formatTime 3600, formatTime 0)
  = ("1:15", "0:05", "60:00", "0:00")%string.
Proof. reflexivity. Qed.

(** A lower-case letter, a digit or an underscore. *)
Definition plain_char (c : ascii) : bool :=
  let n := nat_of_ascii c in
  ((97 <=? n)%nat && (n <=? 122)%nat)
  || ((48 <=? n)%nat && (n <=? 57)%nat)
  || (n =? 95)%nat.

(** What becomes of one character of the title. *)
Definition renamed (c : ascii) : ascii :=
  if alphanumeric c then Str.lower_char c else "_"%char.

Lemma renamed_plain c : plain_char (renamed c) = true.
Proof. destruct c as [[] [] [] [] [] [] [] []]; reflexivity. Qed.

Lemma lower_replaced c :
  Str.lower_char (if alphanumeric c then c else "_"%char) = renamed c.
Proof. unfold renamed. now destruct (alphanumeric c). Qed.

Lemma stem_chars title :
  list_ascii_of_string (Str.toLowerCase (replace_others title))
  = List.map renamed (list_ascii_of_string title).
Proof.
  induction title as [|c title IH]; simpl; [reflexivity|].
  now rewrite lower_replaced, IH.
Qed.

(** The name of a downloaded clip is the title, character by character, with
    letters in lower case, digits kept and every other character turned
    into an underscore, followed by ["_opus_clip.mp4"]: before the suffix
    nothing but lower-case letters, digits and underscores occurs. *)
Theorem downloadName_plain (title : string) :
  exists stem,
    downloadName title = (stem ++ "_opus_clip.mp4")%string
    /\ list_ascii_of_string stem = List.map renamed (list_ascii_of_string title)
    /\ String.length stem = String.length title
    /\ Forall (fun c => plain_char c = true) (list_ascii_of_string stem).
Proof.
  exists (Str.toLowerCase (replace_others title)).
  split; [reflexivity|]. split; [apply stem_chars|]. split.
  - induction title as [|c title IH]; simpl; [reflexivity|]. now rewrite IH.
  - rewrite stem_chars. apply List.Forall_forall. intros c Hc.
    apply in_map_iff in Hc. destruct Hc as (c0 & <- & _). apply renamed_plain.
Qed.

Example downloadName_example :
  downloadName "My Clip #1: Wow!" = "my_clip__1__wow__opus_clip.mp4"%string.
Proof. reflexivity. Qed.

End DisplayFacts.

(** ** Comments *)

Module CommentsFacts.
Import Comments.

Definition failure_alert : string :=
  "Failed to analyze comments. Please check your API key.".

(** Without comments [handleAnalyzeComments] does nothing.  With comments it
    ends with the spinner off; a parsed answer becomes the analysis and
    raises no alert; every failure of the backend keeps the analysis there
    was and raises one alert. *)
Theorem handleAnalyzeComments_outcome (backend : generated CommentAnalysis)
    (st : CommentsState) :
  c_comments (handleAnalyzeComments backend st) = c_comments st
  /\ (c_comments st = [] -> handleAnalyzeComments backend st = st)
  /\ (c_comments st <> [] ->
      c_isAnalyzingComments (handleAnalyzeComments backend st) = false
      /\ match backend with
         | Parsed analysis =>
             c_commentAnalysis (handleAnalyzeComments backend st) = Some analysis
             /\ c_alerts (handleAnalyzeComments backend st) = c_alerts st
         | _ =>
             c_commentAnalysis (handleAnalyzeComments backend st)
             = c_commentAnalysis st
             /\ c_alerts (handleAnalyzeComments backend st)
                = c_alerts st ++ [failure_alert]
         end).
Proof.
  unfold handleAnalyzeComments.
  destruct (c_comments st) as [|c cs] eqn:Hc.
  - split; [assumption|]. split; [reflexivity|]. intros H. now elim H.
  - split; [destruct backend; cbn; assumption|].
    split; [discriminate|]. intros _.
    destruct backend; cbn; repeat split.
Qed.

(** The text contains no line break. *)
Fixpoint single_line (s : string) : bool :=
  match s with
  | EmptyString => true
  | String c r => negb (Ascii.eqb c Js.newline) && single_line r
  end.

Lemma split_single_line s : single_line s = true -> Js.split Js.newline s = [s].
Proof.
  induction s as [|c s IH]; simpl; [reflexivity|].
  intros H. apply andb_true_iff in H. destruct H as [Hc Hs].
  apply negb_true_iff in Hc. rewrite Hc, (IH Hs). reflexivity.
Qed.

Lemma split_line s rest :
  single_line s = true ->
  Js.split Js.newline (s ++ String Js.newline rest)
  = s :: Js.split Js.newline rest.
Proof.
  induction s as [|c s IH]; simpl; intros H.
  - reflexivity.
  - apply andb_true_iff in H. destruct H as [Hc Hs].
    apply negb_true_iff in Hc. rewrite Hc, (IH Hs). reflexivity.
Qed.

Lemma commentsOfText_lines :
  forall comments,
    Forall (fun c => single_line c = true) comments ->
    comments <> [] ->
    Js.split Js.newline (textOfComments comments) = comments.
Proof.
  induction comments as [|c comments IH]; intros Hall Hne; [now elim Hne|].
  inversion Hall as [|? ? Hc Hrest]; subst.
  destruct comments as [|c' comments].
  - simpl. now apply split_single_line.
  - change (textOfComments (c :: c' :: comments))
      with (c ++ String Js.newline (textOfComments (c' :: comments)))%string.
    rewrite split_line by assumption. f_equal. apply IH; [assumption|discriminate].
Qed.

(** What the comment box stores never holds a blank line, and the box reads
    its own initial text back: comments that are single lines and not blank
    are returned as they are. *)
Theorem comments_round_trip (comments : list string) (value : string) :
  Forall (fun c => single_line c = true /\ Str.trim c <> "") comments ->
  commentsOfText (textOfComments comments) = comments
  /\ Forall (fun c => Str.trim c <> "" /\ single_line c = true) (commentsOfText value).
Proof.
  intros Hall. split.
  - destruct comments as [|c comments]; [reflexivity|].
    unfold commentsOfText. rewrite commentsOfText_lines.
    + apply forallb_filter_id. apply forallb_forall. intros x Hx.
      rewrite List.Forall_forall in Hall. destruct (Hall x Hx) as [_ Ht].
      destruct (Str.trim x); [now elim Ht|reflexivity].
    + eapply Forall_impl; [exact Hall|]. intros x Hx. apply Hx.
    + discriminate.
  - unfold commentsOfText. apply List.Forall_forall. intros c Hc.
    apply filter_In in Hc. destruct Hc as [Hin Hlen]. split.
    + intros Ht. rewrite Ht in Hlen. discriminate.
    + clear Hlen. revert c Hin. induction value as [|a value IH]; simpl.
      * intros c [<-|[]]. reflexivity.
      * destruct (Ascii.eqb a Js.newline) eqn:Ha.
        -- intros c [<-|Hin]; [reflexivity|now apply IH].
        -- destruct (Js.split Js.newline value) as [|piece pieces] eqn:Hsp.
           ++ intros c [<-|[]]. simpl. now rewrite Ha.
           ++ intros c [<-|Hin].
              ** simpl. rewrite Ha. simpl. apply IH. now left.
              ** apply IH. now right.
Qed.

Lemma comments_round_trip_witness :
  commentsOfText (textOfComments App.MOCK_COMMENTS) = App.MOCK_COMMENTS
  /\ Forall (fun c => Str.trim c <> "" /\ single_line c = true)
       (commentsOfText "first

  second  ").
Proof.
  apply (comments_round_trip App.MOCK_COMMENTS).
  repeat constructor; try (vm_compute; discriminate).
Defined.

End CommentsFacts.

(** ** [sortClips] on the store: a copy is sorted, not the argument *)

Module StoreMore.
Import App Store StoreFacts.
Local Open Scope Q_scope.

Lemma Array_sort_Permutation {A} (cmp : A -> A -> Q) l :
  Permutation (Array_sort cmp l) l.
Proof.
  induction l as [|x l IH]; simpl; [reflexivity|].
  assert (Hins : forall s, Permutation (sort_insert cmp x s) (x :: s)).
  { induction s as [|y s IHs]; simpl; [reflexivity|].
    destruct (leb (cmp x y) 0); [reflexivity|].
    rewrite IHs. apply perm_swap. }
  rewrite Hins. now constructor.
Qed.

(** [sortClips] allocates the array it returns and sorts that one: the
    array it was given and every other cell of the store are unchanged, the
    new array holds the same object references rearranged, and it reads as
    the sorted clips. *)
Theorem sortClips_sorts_a_copy (list : loc) (order : SortOrder)
    (elems : Datatypes.list loc) (cs : Datatypes.list VideoClip) (h : heap) :
  h !! list = Some (Clips elems) ->
  reps h elems cs ->
  exists sorted h' elems',
    sortClips list order h = Some (sorted, h')
    /\ h !! sorted = None
    /\ (forall l c, h !! l = Some c -> h' !! l = Some c)
    /\ h' !! list = Some (Clips elems)
    /\ h' !! sorted = Some (Clips elems')
    /\ Permutation elems' elems
    /\ clips_at h' sorted = Some (App.sortClips cs order).
Proof.
  intros Ha Hr.
  set (sorted := fresh (dom h)).
  assert (Hfresh : h !! sorted = None) by apply not_elem_of_dom, is_fresh.
  set (h1 := <[sorted := Clips elems]> h).
  set (elems' := Array_sort (compareObjects order h1) elems).
  assert (Hsub1 : h ⊆ h1) by now apply insert_subseteq.
  assert (Hr1 : reps h1 elems cs) by (eapply reps_weaken; eassumption).
  destruct (mapH_load_clip h1 elems cs Hr1) as (os & h1' & Hload & ->).
  exists sorted, (<[sorted := Clips elems']> h), elems'.
  assert (Hsub2 : h ⊆ <[sorted := Clips elems']> h) by now apply insert_subseteq.
  split.
  { unfold sortClips, mbind, H_bind, load_clips, load, mbind, H_bind.
    rewrite Ha. cbn. fold sorted. fold h1. rewrite Hload. cbn.
    unfold store. fold h1. unfold h1 at 1. rewrite lookup_insert_eq.
    fold elems'. unfold h1. now rewrite insert_insert_eq. }
  split; [assumption|]. split.
  { intros l c Hl. eapply lookup_weaken; eassumption. }
  split; [eapply lookup_weaken; eassumption|].
  split; [apply lookup_insert_eq|].
  split; [apply Array_sort_Permutation|].
  apply clips_at_reps. exists elems'. split; [apply lookup_insert_eq|].
  eapply reps_weaken; [exact Hsub2|].
  unfold reps, elems', App.sortClips.
  destruct order; (apply Array_sort_Forall2; [|assumption]);
    intros x y cx cy Hx Hy.
  - apply (compareObjects_agree time h1 x y cx cy);
      eapply clip_at_weaken; eassumption.
  - apply (compareObjects_agree viral h1 x y cx cy);
      eapply clip_at_weaken; eassumption.
Qed.

Lemma sortClips_sorts_a_copy_witness :
  exists sorted h' elems',
    sortClips 7%positive viral shelf = Some (sorted, h')
    /\ shelf !! sorted = None
    /\ (forall l c, shelf !! l = Some c -> h' !! l = Some c)
    /\ h' !! 7%positive = Some (Clips [5%positive; 6%positive])
    /\ h' !! sorted = Some (Clips elems')
    /\ Permutation elems' [5%positive; 6%positive]
    /\ clips_at h' sorted
       = Some (App.sortClips (clips (deskState "launch")) viral).
Proof.
  apply (sortClips_sorts_a_copy 7%positive viral [5%positive; 6%positive]
           (clips (deskState "launch")) shelf).
  - reflexivity.
  - unfold reps. repeat constructor.
Defined.

End StoreMore.
